(** * qr-api-service: a shallow embedding of the browser-automation pipeline

    The service drives a headless browser against the Mini QR web
    application.  Two builds of [server.js] exist, one per generation of the
    target UI:

    - generation 2 ([src/api/server.js]): controls addressed by element id,
      output retrieved by triggering a download and reading it back;
    - generation 1 (the second, unnamed source file): controls addressed by
      label text, output retrieved by a screenshot or DOM serialisation.

    JavaScript code is embedded as functions in a state-and-exception monad
    [M] over a [World].  Everything outside the Node process (the browser,
    the pages, the target application's DOM, I/O errors) is an environment
    [Env] that answers each external call from the history of calls made so
    far; the program's own effects on the browser (sessions, open pages) and
    on the download directory are tracked in the [World].

    Scope: requests run one after the other (an [await] never interleaves
    two handlers); request values are scalars; strings are byte sequences,
    the UTF-8 encoding of the JavaScript string. *)

From Stdlib Require Import ZArith Ascii String List Bool Lia.
From stdpp Require Import base option list strings gmap pretty sorting.

Local Open Scope string_scope.
Local Open Scope Z_scope.

(** ** JavaScript values *)

(** Scalar JavaScript values, as they arrive in a JSON body or a query
    string.  [JNum n] is the Number value of the integer [n], that is, the
    double nearest to [n] (see [Number_toString]); integer numbers, [NaN]
    and the infinities are the only numbers [parseInt] produces.  [JObj]
    stands for the functions and objects reachable through
    [Object.prototype] (it never occurs in a request). *)
Inductive JsVal : Type :=
| JUndefined
| JNull
| JBool (b : bool)
| JNum (n : Z)
| JNaN
| JInfinity (negative : bool)
| JStr (s : string)
| JObj (name : string).

(** [!!v]: JavaScript truthiness. *)
Definition truthy (v : JsVal) : bool :=
  match v with
  | JUndefined | JNull | JNaN => false
  | JBool b => b
  | JNum n => negb (n =? 0)
  | JInfinity _ => true
  | JStr s => negb (String.eqb s EmptyString)
  | JObj _ => true
  end.

(** ** Numbers

    A Number is a double: 53 significant bits.  Every integer below 2^53
    in magnitude is a double; a larger one is rounded to the nearest
    double, and beyond the largest double to an infinity. *)

(** The double nearest to the natural number [a], a tie going to the even
    significand; [None] beyond the largest double. *)
Definition nearest_double (a : Z) : option Z :=
  if a <? 2 ^ 53 then Some a else
  let e := Z.log2 a - 52 in
  let q := Z.shiftr a e in
  let r := Z.land a (Z.ones e) in
  let half := Z.shiftl 1 (e - 1) in
  let m := Z.shiftl (if (half <? r) || ((r =? half) && Z.odd q) then q + 1 else q) e in
  if m <? 2 ^ 1024 then Some m else None.

(** The Number value of an integer. *)
Definition number (n : Z) : JsVal :=
  match nearest_double (Z.abs n) with
  | Some m => JNum (Z.sgn n * m)
  | None => JInfinity (n <? 0)
  end.

(** The decimal with the fewest significant digits that still reads back
    as the double [x]: for each number of digits [k], from one up, the
    multiples of the [k]-th power of ten from the top that enclose [x] are
    tried; of two that read back the nearer is taken, and the even one in
    a tie. *)
Definition shortest_decimal (x : Z) : Z :=
  let len := String.length (pretty x) in
  let pick (k : nat) : option Z :=
    let p := 10 ^ Z.of_nat (len - k) in
    let lo := x - x mod p in
    let hi := lo + p in
    let reads_back v := bool_decide (nearest_double v = Some x) in
    match reads_back lo, reads_back hi with
    | true, true =>
      Some (if (x - lo <? hi - x) || ((x - lo =? hi - x) && Z.even (lo / p))
            then lo else hi)
    | true, false => Some lo
    | false, true => Some hi
    | false, false => None
    end in
  default x (head (omap pick (seq 1 len))).

Fixpoint drop_trailing_zeros (s : string) : string :=
  match s with
  | EmptyString => EmptyString
  | String c r =>
    match drop_trailing_zeros r with
    | EmptyString => if Ascii.eqb c "0" then EmptyString else String c EmptyString
    | r' => String c r'
    end
  end.

(** How a double of 2^53 or more is printed: its shortest decimal, written
    out with its zeros up to 21 digits and with an exponent beyond. *)
Definition double_toString (x : Z) : string :=
  let v := shortest_decimal x in
  let n := String.length (pretty v) in
  if (n <=? 21)%nat then pretty v
  else match drop_trailing_zeros (pretty v) with
       | String c EmptyString => String c ("e+" ++ pretty (Z.of_nat n - 1))
       | String c r => String c ("." ++ r ++ "e+" ++ pretty (Z.of_nat n - 1))
       | EmptyString => EmptyString
       end.

(** [String(n)] for the Number value of the integer [n]. *)
Definition Number_toString (n : Z) : string :=
  if Z.abs n <? 2 ^ 53 then pretty n
  else (if n <? 0 then "-" else EmptyString) ++
       match nearest_double (Z.abs n) with
       | Some x => double_toString x
       | None => "Infinity"
       end.

(** [String(v)]. *)
Definition String_ (v : JsVal) : string :=
  match v with
  | JUndefined => "undefined"
  | JNull => "null"
  | JBool true => "true"
  | JBool false => "false"
  | JNum n => Number_toString n
  | JNaN => "NaN"
  | JInfinity false => "Infinity"
  | JInfinity true => "-Infinity"
  | JStr s => s
  | JObj _ => "[object Object]"
  end.

(** [a || b]. *)
Definition js_or (a b : JsVal) : JsVal := if truthy a then a else b.

(** A destructuring default [x = d]: it applies to [undefined] only. *)
Definition withDefault (d v : JsVal) : JsVal :=
  match v with JUndefined => d | _ => v end.

(** [arr.includes(v)] for an array of string literals: strict equality, so
    only a string can be found. *)
Definition includes_val (arr : list string) (v : JsVal) : bool :=
  match v with
  | JStr s => existsb (String.eqb s) arr
  | _ => false
  end.

(** ** Strings *)

Definition startsWith (s pre : string) : bool := String.prefix pre s.

(** [s.includes(sub)]. *)
Fixpoint includes (s sub : string) : bool :=
  startsWith s sub ||
  match s with
  | EmptyString => false
  | String _ s' => includes s' sub
  end.

(** [s.endsWith(suf)]. *)
Definition endsWith (s suf : string) : bool :=
  let n := String.length s in
  let m := String.length suf in
  (m <=? n)%nat && String.eqb (String.substring (n - m) m s) suf.

(** ** [parseInt] *)

Definition code (c : ascii) : Z := Z.of_N (N_of_ascii c).

(** Leading white space and line terminators, in their UTF-8 encoding, are
    skipped by [parseInt]. *)
Fixpoint skip_ws (s : string) : string :=
  match s with
  | String c1 r1 =>
    if (code c1 =? 32) || ((9 <=? code c1) && (code c1 <=? 13)) then skip_ws r1
    else match r1 with
    | String c2 r2 =>
      if (code c1 =? 194) && (code c2 =? 160) then skip_ws r2
      else match r2 with
      | String c3 r3 =>
        let k1 := code c1 in let k2 := code c2 in let k3 := code c3 in
        if ((k1 =? 225) && (k2 =? 154) && (k3 =? 128))
           || ((k1 =? 226) && (k2 =? 128) &&
               (((128 <=? k3) && (k3 <=? 138)) || (k3 =? 168) || (k3 =? 169) || (k3 =? 175)))
           || ((k1 =? 226) && (k2 =? 129) && (k3 =? 159))
           || ((k1 =? 227) && (k2 =? 128) && (k3 =? 128))
           || ((k1 =? 239) && (k2 =? 187) && (k3 =? 191))
        then skip_ws r3 else s
      | EmptyString => s
      end
    | EmptyString => s
    end
  | EmptyString => s
  end.

Definition digit_value (radix : Z) (c : ascii) : option Z :=
  let k := code c in
  let d := if (48 <=? k) && (k <=? 57) then Some (k - 48)
           else if (97 <=? k) && (k <=? 122) then Some (k - 87)
           else if (65 <=? k) && (k <=? 90) then Some (k - 55)
           else None in
  match d with
  | Some v => if v <? radix then Some v else None
  | None => None
  end.

(** The longest prefix of digits; [None] when it is empty. *)
Fixpoint parse_digits (radix : Z) (s : string) (acc : option Z) : option Z :=
  match s with
  | EmptyString => acc
  | String c s' =>
    match digit_value radix c with
    | Some d => parse_digits radix s' (Some (default 0 acc * radix + d))
    | None => acc
    end
  end.

(** [parseInt(s)] with no radix argument: the Number value of the integer
    the digits denote. *)
Definition parseInt (s : string) : JsVal :=
  let s1 := skip_ws s in
  let '(sign, s2) :=
    match s1 with
    | String "-" r => (-1, r)
    | String "+" r => (1, r)
    | _ => (1, s1)
    end in
  let '(radix, s3) :=
    match s2 with
    | String "0" (String "x" r) => (16, r)
    | String "0" (String "X" r) => (16, r)
    | _ => (10, s2)
    end in
  match parse_digits radix s3 None with
  | Some n => number (sign * n)
  | None => JNaN
  end.

(** ** The world *)

Definition Browser := nat.
Definition Page := nat.
Definition Handle := nat.
(** A [Buffer]; [Buffer.from(s, 'utf-8')] is [list_byte_of_string s]. *)
Definition Bytes := list Byte.byte.
Definition File : Type := string * Bytes.

(** External calls, indexed by the type of what they resolve to. *)
Inductive Call : Type → Type :=
| puppeteer_launch (args : list string) : Call unit
| browser_newPage (b : Browser) : Call unit
| page_setViewport (p : Page) (width height : Z) : Call unit
| page_goto (p : Page) (url : string) (timeout : Z) : Call unit
| page_waitForSelector (p : Page) (sel : string) (timeout : Z) : Call unit
| page_query (p : Page) (sel : string) : Call (option Handle)
| page_queryAll (p : Page) (sel : string) : Call (list Handle)
| handle_query (h : Handle) (sel : string) : Call (option Handle)
| handle_closest (h : Handle) (sel : string) : Call (option Handle)
| eval_setValue (p : Page) (h : Handle) (v : JsVal) : Call unit
| eval_textContent (p : Page) (h : Handle) : Call string
| eval_textContentTrim (p : Page) (h : Handle) : Call (option string)
| eval_getAttribute (p : Page) (h : Handle) (name : string) : Call (option string)
| eval_outerHTML (p : Page) (sel : string) : Call (option string)
| handle_click (h : Handle) (clickCount : nat) : Call unit
| handle_type (h : Handle) (text : JsVal) : Call unit
| handle_screenshot (h : Handle) (type : string) : Call Bytes
| page_click (p : Page) (sel : string) : Call (list File)
| page_createCDPSession (p : Page) : Call unit
| cdp_setDownloadBehavior (p : Page) (downloadPath : string) : Call unit
| page_close (p : Page) : Call unit
| setTimeout (ms : Z) : Call unit
| fs_mkdir (path : string) : Call unit
| fs_readdir (path : string) : Call unit
| fs_readFile (path : string) : Call unit
| fs_unlink (path : string) : Call unit
| console_error (msg : string) : Call unit.

Inductive Event : Type :=
| Ev {A : Type} (c : Call A).

(** The environment: given the calls made so far (most recent first), an
    external call either rejects with an error message or resolves.
    [page_click] resolves to the files the triggered download has written
    to the download directory by the time it is scanned. *)
Definition Env : Type := ∀ A : Type, list Event → Call A → string + A.

Record World : Type := mkWorld {
  browser : option Browser;   (* [let browser = null] *)
  sessions : list Browser;    (* browser processes launched and alive *)
  pages : list Page;          (* contexts opened and not yet released *)
  fresh : nat;                (* next unused identifier *)
  downloads : list File;      (* contents of the download directory *)
  trace : list Event          (* external calls, most recent first *)
}.

Definition world0 : World := mkWorld None [] [] 0 [] [].

(** ** The monad of asynchronous functions *)

Inductive Outcome (A : Type) : Type :=
| Ok (a : A)
| Throw (message : string).
Arguments Ok {A} a.
Arguments Throw {A} message.

Definition M (A : Type) : Type := World → Outcome A * World.

#[global] Instance M_ret : MRet M := λ A a w, (Ok a, w).

#[global] Instance M_bind : MBind M := λ A B f m w,
  match m w with
  | (Ok a, w1) => f a w1
  | (Throw e, w1) => (Throw e, w1)
  end.

(** [throw new Error(message)]. *)
Definition throw {A : Type} (message : string) : M A := λ w, (Throw message, w).

(** [try { body } finally { fin }]: [fin] runs on every exit of [body]; an
    error of [fin] replaces the outcome of [body]. *)
Definition try_finally {A : Type} (body : M A) (fin : M unit) : M A := λ w,
  let '(r, w1) := body w in
  match fin w1 with
  | (Ok _, w2) => (r, w2)
  | (Throw e, w2) => (Throw e, w2)
  end.

(** [if (c) { m }] *)
Definition when (c : bool) (m : M unit) : M unit := if c then m else mret tt.

Definition log {A : Type} (c : Call A) (w : World) : World :=
  mkWorld (browser w) (sessions w) (pages w) (fresh w) (downloads w) (Ev c :: trace w).

(** Reading and updating the world. *)
Definition gets {A : Type} (f : World → A) : M A := λ w, (Ok (f w), w).
Definition modify (f : World → World) : M unit := λ w, (Ok tt, f w).

Definition set_browser (b : option Browser) (w : World) : World :=
  mkWorld b (sessions w) (pages w) (fresh w) (downloads w) (trace w).

Definition set_downloads (fs : list File) (w : World) : World :=
  mkWorld (browser w) (sessions w) (pages w) (fresh w) fs (trace w).

Definition add_session (b : Browser) (w : World) : World :=
  mkWorld (browser w) (b :: sessions w) (pages w) (S (fresh w)) (downloads w) (trace w).

Definition add_page (p : Page) (w : World) : World :=
  mkWorld (browser w) (sessions w) (p :: pages w) (S (fresh w)) (downloads w) (trace w).

Definition remove_page (p : Page) (w : World) : World :=
  mkWorld (browser w) (sessions w) (filter (λ q, q ≠ p) (pages w)) (fresh w)
          (downloads w) (trace w).

(** [===] between a value and a string literal. *)
Definition strict_eq (v : JsVal) (s : string) : bool :=
  match v with
  | JStr t => String.eqb t s
  | _ => false
  end.

Definition path_join (dir name : string) : string := dir ++ "/" ++ name.

(** The directory whose contents the world tracks. *)
Definition download_dir : string := "/tmp/qr-downloads".

Definition is_path (path : string) (f : File) : bool :=
  String.eqb (path_join download_dir (fst f)) path.

(** The order in which a directory is listed: that of [strcmp], byte by
    byte. *)
Definition name_le (a b : string) : Prop := String.leb a b = true.

#[global] Instance name_le_dec (a b : string) : Decision (name_le a b) :=
  decide (String.leb a b = true).

(** ** Runtime primitives *)

Section Runtime.
Context (env : Env).

(** [await c]: ask the environment, record the call. *)
Definition call {A : Type} (c : Call A) : M A := λ w,
  match env A (trace w) c with
  | inl e => (Throw e, log c w)
  | inr a => (Ok a, log c w)
  end.

(** A call that is recorded and does not reject (a timer, a log line). *)
Definition emit {A : Type} (c : Call A) : M unit := λ w, (Ok tt, log c w).

Definition launch_args : list string :=
  ["--no-sandbox"; "--disable-setuid-sandbox"; "--disable-dev-shm-usage";
   "--disable-gpu"; "--ignore-certificate-errors"; "--disable-web-security";
   "--allow-running-insecure-content"].

(** [puppeteer.launch(...)]: on success a new browser process is alive. *)
Definition launch : M Browser :=
  call (puppeteer_launch launch_args);;
  b ← gets fresh;
  modify (add_session b);;
  mret b.

(** [getBrowser], the same text in both builds. *)
Definition getBrowser : M Browser :=
  cached ← gets browser;
  match cached with
  | None =>
    b ← launch;
    modify (set_browser (Some b));;
    mret b
  | Some b => mret b
  end.

(** [browserInstance.newPage()]: on success a new context is open. *)
Definition newPage (b : Browser) : M Page :=
  call (browser_newPage b);;
  p ← gets fresh;
  modify (add_page p);;
  mret p.

(** [page.close()]: when the call resolves the context is released; when
    it rejects, nothing has released it. *)
Definition close (p : Page) : M unit :=
  call (page_close p);;
  modify (remove_page p).

(** [page.click(sel)] on an export control: the download it triggers
    lands in the download directory. *)
Definition click (p : Page) (sel : string) : M unit :=
  landed ← call (page_click p sel);
  modify (λ w, set_downloads (downloads w ++ landed) w).

(** [fs.readdir(path)]: the names of the entries, sorted. *)
Definition readdir (path : string) : M (list string) :=
  call (fs_readdir path);;
  if String.eqb path download_dir
  then gets (λ w, merge_sort name_le (map fst (downloads w)))
  else throw ("ENOENT: no such file or directory, scandir '" ++ path ++ "'").

Definition readFile (path : string) : M Bytes :=
  call (fs_readFile path);;
  found ← gets (λ w, List.find (is_path path) (downloads w));
  match found with
  | Some f => mret (snd f)
  | None => throw ("ENOENT: no such file or directory, open '" ++ path ++ "'")
  end.

Definition unlink (path : string) : M unit :=
  call (fs_unlink path);;
  present ← gets (λ w, existsb (is_path path) (downloads w));
  if present : bool
  then modify (λ w, set_downloads (filter (λ f, negb (is_path path f)) (downloads w)) w)
  else throw ("ENOENT: no such file or directory, unlink '" ++ path ++ "'").

End Runtime.

(** ** The options object *)

Record Options : Type := mkOptions {
  data : JsVal;
  logoUrl : JsVal;
  backgroundColor : JsVal;
  dotsColor : JsVal;
  cornersSquareColor : JsVal;
  cornersDotColor : JsVal;
  width : JsVal;
  height : JsVal;
  borderRadius : JsVal;
  margin : JsVal;
  imageMargin : JsVal;
  dotsType : JsVal;
  cornersSquareType : JsVal;
  cornersDotType : JsVal;
  errorCorrectionLevel : JsVal;
  format : JsVal
}.

(** The four enum-valued fields. *)
Inductive EnumField : Type :=
| DotsType
| CornersSquareType
| CornersDotType
| ErrorCorrectionLevel.

(** The options object with one enum field set. *)
Definition set_enum (field : EnumField) (value : JsVal) (o : Options) : Options :=
  match field with
  | DotsType =>
    mkOptions (data o) (logoUrl o) (backgroundColor o) (dotsColor o)
      (cornersSquareColor o) (cornersDotColor o) (width o) (height o)
      (borderRadius o) (margin o) (imageMargin o)
      value (cornersSquareType o) (cornersDotType o) (errorCorrectionLevel o) (format o)
  | CornersSquareType =>
    mkOptions (data o) (logoUrl o) (backgroundColor o) (dotsColor o)
      (cornersSquareColor o) (cornersDotColor o) (width o) (height o)
      (borderRadius o) (margin o) (imageMargin o)
      (dotsType o) value (cornersDotType o) (errorCorrectionLevel o) (format o)
  | CornersDotType =>
    mkOptions (data o) (logoUrl o) (backgroundColor o) (dotsColor o)
      (cornersSquareColor o) (cornersDotColor o) (width o) (height o)
      (borderRadius o) (margin o) (imageMargin o)
      (dotsType o) (cornersSquareType o) value (errorCorrectionLevel o) (format o)
  | ErrorCorrectionLevel =>
    mkOptions (data o) (logoUrl o) (backgroundColor o) (dotsColor o)
      (cornersSquareColor o) (cornersDotColor o) (width o) (height o)
      (borderRadius o) (margin o) (imageMargin o)
      (dotsType o) (cornersSquareType o) (cornersDotType o) value (format o)
  end.

(** The empty object [{}]. *)
Definition no_options : Options :=
  mkOptions JUndefined JUndefined JUndefined JUndefined JUndefined JUndefined
            JUndefined JUndefined JUndefined JUndefined JUndefined JUndefined
            JUndefined JUndefined JUndefined JUndefined.

(** The destructuring pattern that opens [generateQRCode], with its
    defaults (the same in both builds). *)
Definition destructure (options : Options) : Options :=
  {| data := data options;
     logoUrl := logoUrl options;
     backgroundColor := withDefault (JStr "#ffffff") (backgroundColor options);
     dotsColor := withDefault (JStr "#000000") (dotsColor options);
     cornersSquareColor := cornersSquareColor options;
     cornersDotColor := cornersDotColor options;
     width := withDefault (JNum 300) (width options);
     height := withDefault (JNum 300) (height options);
     borderRadius := withDefault (JNum 0) (borderRadius options);
     margin := withDefault (JNum 10) (margin options);
     imageMargin := withDefault (JNum 0) (imageMargin options);
     dotsType := withDefault (JStr "square") (dotsType options);
     cornersSquareType := withDefault (JStr "square") (cornersSquareType options);
     cornersDotType := withDefault (JStr "square") (cornersDotType options);
     errorCorrectionLevel := withDefault (JStr "M") (errorCorrectionLevel options);
     format := withDefault (JStr "png") (format options) |}.

(** ** The HTTP routes (the same text in both builds) *)

Inductive Body : Type :=
| NoBody
| Raw (bytes : Bytes)
| Json (fields : list (string * string)).

Record Response : Type := mkResponse {
  status : Z;
  headers : list (string * string);   (* those set with [res.set], in order *)
  body : Body
}.

(** A fresh [res]: status 200, nothing set, nothing sent. *)
Definition res0 : Response := mkResponse 200 [] NoBody.

Definition header (name : string) (res : Response) : option string :=
  snd <$> List.find (λ h, String.eqb (fst h) name) (headers res).

Definition dquote : string := String (ascii_of_nat 34) EmptyString.

(** Node refuses a header value that holds a character other than a tab
    and those from U+0020 to U+007E and from U+0080 to U+00FF (its check is
    the regular expression [/[^\t\x20-\x7e\x80-\xff]/]).  In the UTF-8
    encoding the characters of the second range are the two-byte sequences
    led by 0xC2 or 0xC3. *)
Fixpoint valid_header_value (value : string) : bool :=
  match value with
  | EmptyString => true
  | String c rest =>
    if (code c =? 9) || ((32 <=? code c) && (code c <=? 126))
    then valid_header_value rest
    else if (code c =? 194) || (code c =? 195) then
      match rest with
      | String c2 rest2 =>
        (128 <=? code c2) && (code c2 <=? 191) && valid_header_value rest2
      | EmptyString => false
      end
    else false
  end.

(** A route handler works on its [res] object as well as on the world.  An
    error leaves [res] as it was when the error was thrown. *)
Definition Route (A : Type) : Type :=
  Response → World → Outcome A * (Response * World).

#[global] Instance Route_ret : MRet Route := λ A a res w, (Ok a, (res, w)).

#[global] Instance Route_bind : MBind Route := λ A B f m res w,
  match m res w with
  | (Ok a, (res1, w1)) => f a res1 w1
  | (Throw e, s) => (Throw e, s)
  end.

(** [await m] in a handler. *)
Definition await {A : Type} (m : M A) : Route A := λ res w,
  let '(r, w1) := m w in (r, (res, w1)).

(** [try { body } catch (error) { handler }], [error.message] being what
    the handler receives. *)
Definition try_catch {A : Type} (body : Route A) (handler : string → Route A)
    : Route A := λ res w,
  match body res w with
  | (Ok a, s) => (Ok a, s)
  | (Throw e, (res1, w1)) => handler e res1 w1
  end.

(** [res.set(name, value)]: an invalid value is refused with an error and
    the header is not stored. *)
Definition res_set (name value : string) : Route unit := λ res w,
  if valid_header_value value
  then (Ok tt, (mkResponse (status res) (headers res ++ [(name, value)]) (body res), w))
  else (Throw ("Invalid character in header content ["
               ++ dquote ++ name ++ dquote ++ "]"), (res, w)).

Definition res_status (code : Z) : Route unit := λ res w,
  (Ok tt, (mkResponse code (headers res) (body res), w)).

Definition res_send (bytes : Bytes) : Route unit := λ res w,
  (Ok tt, (mkResponse (status res) (headers res) (Raw bytes), w)).

Definition res_json (fields : list (string * string)) : Route unit := λ res w,
  (Ok tt, (mkResponse (status res) (headers res) (Json fields), w)).

(** [req.query.name] *)
Definition query_param (query : gmap string string) (name : string) : JsVal :=
  match query !! name with
  | Some s => JStr s
  | None => JUndefined
  end.

(** [req.query.name ? parseInt(req.query.name) : undefined] *)
Definition query_int (query : gmap string string) (name : string) : JsVal :=
  if truthy (query_param query name)
  then parseInt (String_ (query_param query name))
  else JUndefined.

Inductive Request : Type :=
| POST_generate (req_body : Options)
| GET_generate (req_query : gmap string string).

Section Routes.
Context (generateQRCode : Options → M Bytes).

Definition contentTypeOf (format : JsVal) : string :=
  if strict_eq format "svg" then "image/svg+xml" else "image/" ++ String_ format.

(** The [catch] block of both routes. *)
Definition on_error (error : string) : Route unit :=
  await (emit (console_error ("Error generating QR code: " ++ error)));;
  res_status 500;;
  res_json [("error", error)].

(** [app.post('/generate', ...)] *)
Definition app_post_generate (req_body : Options) : Route unit :=
  try_catch
    (imageBuffer ← await (generateQRCode req_body);
     let format := js_or (format req_body) (JStr "png") in
     let contentType := contentTypeOf format in
     res_set "Content-Type" contentType;;
     res_set "Content-Disposition"
       ("attachment; filename=" ++ dquote ++ "qrcode." ++ String_ format ++ dquote);;
     res_send imageBuffer)
    on_error.

Definition query_options (query : gmap string string) : Options :=
  {| data := query_param query "data";
     logoUrl := query_param query "logoUrl";
     backgroundColor := query_param query "backgroundColor";
     dotsColor := query_param query "dotsColor";
     cornersSquareColor := query_param query "cornersSquareColor";
     cornersDotColor := query_param query "cornersDotColor";
     width := query_int query "width";
     height := query_int query "height";
     borderRadius := query_int query "borderRadius";
     margin := query_int query "margin";
     imageMargin := query_int query "imageMargin";
     dotsType := query_param query "dotsType";
     cornersSquareType := query_param query "cornersSquareType";
     cornersDotType := query_param query "cornersDotType";
     errorCorrectionLevel := query_param query "errorCorrectionLevel";
     format := query_param query "format" |}.

(** [app.get('/generate', ...)] *)
Definition app_get_generate (req_query : gmap string string) : Route unit :=
  try_catch
    (let options := query_options req_query in
     imageBuffer ← await (generateQRCode options);
     let format := js_or (format options) (JStr "png") in
     let contentType := contentTypeOf format in
     res_set "Content-Type" contentType;;
     res_send imageBuffer)
    on_error.

(** A request is handed to its route with a fresh [res]; the response is
    what the handler has left in it. *)
Definition handle (req : Request) : M Response := λ w,
  let route :=
    match req with
    | POST_generate req_body => app_post_generate req_body
    | GET_generate req_query => app_get_generate req_query
    end in
  match route res0 w with
  | (Ok _, (res, w1)) => (Ok res, w1)
  | (Throw e, (_, w1)) => (Throw e, w1)
  end.

(** Requests served one after the other. *)
Fixpoint serve (reqs : list Request) : M (list Response) :=
  match reqs with
  | [] => mret []
  | req :: rest =>
    res ← handle req;
    others ← serve rest;
    mret (res :: others)
  end.

End Routes.

(** ** Generation 2: [src/api/server.js] *)

Module Gen2.

Definition DOT_TYPES : list string :=
  ["dots"; "rounded"; "classy"; "classy-rounded"; "square"; "extra-rounded"].
Definition CORNER_SQUARE_TYPES : list string := ["dot"; "square"; "extra-rounded"].
Definition CORNER_DOT_TYPES : list string := ["dot"; "square"].
Definition ERROR_CORRECTION_LEVELS : list string := ["L"; "M"; "Q"; "H"].

Section Server.
Context (env : Env) (MINI_QR_URL : string).

(** Helper: set text/number input by ID *)
Definition setInputById (page : Page) (id : string) (value : JsVal) : M unit :=
  input ← call env (page_query page ("#" ++ id));
  match input with
  | Some el => call env (eval_setValue page el (JStr (String_ value)))
  | None => mret tt
  end.

(** Helper: set color input by ID *)
Definition setColorById (page : Page) (id : string) (color : JsVal) : M unit :=
  input ← call env (page_query page ("#" ++ id));
  match input with
  | Some el => call env (eval_setValue page el color)
  | None => mret tt
  end.

(** Helper: click radio by ID *)
Definition selectRadioById (page : Page) (id : string) : M unit :=
  radio ← call env (page_query page ("#" ++ id));
  match radio with
  | Some el => call env (handle_click el 1)
  | None => mret tt
  end.

(** Set dot type *)
Definition setDotType (page : Page) (dotsType : JsVal) : M unit :=
  when (truthy dotsType && includes_val DOT_TYPES dotsType)
    (selectRadioById page ("dotsOptionsType-" ++ String_ dotsType)).

(** Set corner square type *)
Definition setCornerSquareType (page : Page) (cornersSquareType : JsVal) : M unit :=
  when (truthy cornersSquareType && includes_val CORNER_SQUARE_TYPES cornersSquareType)
    (selectRadioById page ("cornersSquareOptionsType-" ++ String_ cornersSquareType)).

(** Set corner dot type *)
Definition setCornerDotType (page : Page) (cornersDotType : JsVal) : M unit :=
  when (truthy cornersDotType && includes_val CORNER_DOT_TYPES cornersDotType)
    (selectRadioById page ("cornersDotOptionsType-" ++ String_ cornersDotType)).

(** Set error correction level *)
Definition setErrorCorrectionLevel (page : Page) (errorCorrectionLevel : JsVal) : M unit :=
  when (truthy errorCorrectionLevel
        && includes_val ERROR_CORRECTION_LEVELS errorCorrectionLevel)
    (selectRadioById page ("errorCorrectionLevel-" ++ String_ errorCorrectionLevel)).

Definition downloadPath : string := "/tmp/qr-downloads".

(** [buttonId] of lines 170-174. *)
Definition buttonId (format : JsVal) : string :=
  if strict_eq format "svg" then "download-qr-image-button-svg"
  else if strict_eq format "jpeg" then "download-qr-image-button-jpg"
  else "download-qr-image-button-png".

(** Lines 159-182: set up the download behaviour, click the export
    control of the format, wait, list the download directory. *)
Definition triggerDownload (page : Page) (format : JsVal) : M (list string) :=
  call env (fs_mkdir downloadPath);;
  call env (page_createCDPSession page);;
  call env (cdp_setDownloadBehavior page downloadPath);;
  click env page ("#" ++ buttonId format);;
  emit (setTimeout 2000);;
  readdir env downloadPath.

(** [ext] of line 183, as the template literal of line 184 prints it. *)
Definition extension (format : JsVal) : string :=
  String_ (if strict_eq format "jpeg" then JStr "jpg" else format).

(** Lines 183-196: find the downloaded file, read it, delete it. *)
Definition readArtifact (format : JsVal) (files : list string) : M Bytes :=
  let downloadedFile := List.find (λ f, endsWith f ("." ++ extension format)) files in
  match downloadedFile with
  | None => throw "Download failed - no file found"
  | Some name =>
    let filePath := path_join downloadPath name in
    imageBuffer ← readFile env filePath;
    unlink env filePath;;
    mret imageBuffer
  end.

Definition download (page : Page) (format : JsVal) : M Bytes :=
  files ← triggerDownload page format;
  readArtifact format files.

Definition generateQRCode (options : Options) : M Bytes :=
  let 'mkOptions data logoUrl backgroundColor dotsColor cornersSquareColor
                 cornersDotColor width height borderRadius margin imageMargin
                 dotsType cornersSquareType cornersDotType errorCorrectionLevel
                 format := destructure options in
  if negb (truthy data) then throw "Data to encode is required" else
  browserInstance ← getBrowser env;
  page ← newPage env browserInstance;
  try_finally
    (call env (page_setViewport page 1280 900);;
     call env (page_goto page MINI_QR_URL 30000);;
     call env (page_waitForSelector page "#data" 10000);;
     setInputById page "data" data;;
     when (truthy logoUrl) (setInputById page "image-url" logoUrl);;
     setColorById page "background-color" backgroundColor;;
     setColorById page "dots-color" dotsColor;;
     when (truthy cornersSquareColor)
       (setColorById page "corners-square-color" cornersSquareColor);;
     when (truthy cornersDotColor)
       (setColorById page "corners-dot-color" cornersDotColor);;
     setInputById page "width" width;;
     setInputById page "height" height;;
     setInputById page "border-radius" borderRadius;;
     setInputById page "margin" margin;;
     setInputById page "image-margin" imageMargin;;
     setDotType page dotsType;;
     setCornerSquareType page cornersSquareType;;
     setCornerDotType page cornersDotType;;
     setErrorCorrectionLevel page errorCorrectionLevel;;
     emit (setTimeout 1000);;
     download page format)
    (close env page).

Definition post_generate : Options → Route unit := app_post_generate generateQRCode.
Definition get_generate : gmap string string → Route unit :=
  app_get_generate generateQRCode.

(** The step of the form binder that applies an enum field. *)
Definition setEnum (page : Page) (field : EnumField) (value : JsVal) : M unit :=
  match field with
  | DotsType => setDotType page value
  | CornersSquareType => setCornerSquareType page value
  | CornersDotType => setCornerDotType page value
  | ErrorCorrectionLevel => setErrorCorrectionLevel page value
  end.

End Server.

(** The variant set the build recognizes for a field. *)
Definition recognized (field : EnumField) (value : JsVal) : bool :=
  match field with
  | DotsType => includes_val DOT_TYPES value
  | CornersSquareType => includes_val CORNER_SQUARE_TYPES value
  | CornersDotType => includes_val CORNER_DOT_TYPES value
  | ErrorCorrectionLevel => includes_val ERROR_CORRECTION_LEVELS value
  end.

End Gen2.

(** ** Generation 1: the label-addressed build *)

Module Gen1.

Definition DOT_TYPES : list string :=
  ["square"; "rounded"; "dots"; "classy"; "classy-rounded"; "extra-rounded"].
Definition CORNER_SQUARE_TYPES : list string :=
  ["square"; "rounded"; "dots"; "classy"; "classy-rounded"; "extra-rounded"].
Definition CORNER_DOT_TYPES : list string := ["square"; "rounded"; "dot"].

(** An object literal used as a map. *)
Definition ERROR_CORRECTION_LEVELS : gmap string string :=
  list_to_map [("L", "Low (7%)"); ("M", "Medium (15%)");
               ("Q", "High (25%)"); ("H", "Highest (30%)")].

(** What every object literal inherits from [Object.prototype]. *)
Definition Object_prototype : list string :=
  ["constructor"; "__proto__"; "hasOwnProperty"; "isPrototypeOf";
   "propertyIsEnumerable"; "toLocaleString"; "toString"; "valueOf";
   "__defineGetter__"; "__defineSetter__"; "__lookupGetter__"; "__lookupSetter__"].

(** [obj[key]]: own properties first, then the prototype. *)
Definition get_property (obj : gmap string string) (key : JsVal) : JsVal :=
  let k := String_ key in
  match obj !! k with
  | Some v => JStr v
  | None => if existsb (String.eqb k) Object_prototype then JObj k else JUndefined
  end.

(** [text === optionValue], [text] being a string or [undefined]. *)
Definition text_is (text : option string) (optionValue : JsVal) : bool :=
  match text, optionValue with
  | Some t, JStr s => String.eqb t s
  | None, JUndefined => true
  | _, _ => false
  end.

Section Server.
Context (env : Env) (MINI_QR_URL : string).

(** [parent.$(sel)], [parent] being the handle [evaluateHandle] gave
    for [el.closest('.flex')]: a handle on [null] has no [$]. *)
Definition query_in (parent : option Handle) (sel : string) : M (option Handle) :=
  match parent with
  | Some h => call env (handle_query h sel)
  | None => throw "parent.$ is not a function"
  end.

(** Helper function to set color input *)
Fixpoint setColorInput_for (page : Page) (labelText : string) (color : JsVal)
    (labels : list Handle) : M unit :=
  match labels with
  | [] => mret tt
  | label :: rest =>
    text ← call env (eval_textContent page label);
    if includes text labelText then
      parent ← call env (handle_closest label ".flex");
      colorInput ← query_in parent "input.color-input";
      match colorInput with
      | Some input => call env (eval_setValue page input color)
      | None => mret tt
      end
    else setColorInput_for page labelText color rest
  end.

Definition setColorInput (page : Page) (labelText : string) (color : JsVal) : M unit :=
  labels ← call env (page_queryAll page "label");
  setColorInput_for page labelText color labels.

(** Helper function to set text input by label *)
Fixpoint setTextInputByLabel_for (page : Page) (labelText : string) (value : JsVal)
    (labels : list Handle) : M unit :=
  match labels with
  | [] => mret tt
  | label :: rest =>
    text ← call env (eval_textContent page label);
    if includes text labelText then
      parent ← call env (handle_closest label ".flex");
      input ← query_in parent "input.text-input";
      match input with
      | Some el =>
        call env (handle_click el 3);;
        call env (handle_type el (JStr (String_ value)))
      | None => mret tt
      end
    else setTextInputByLabel_for page labelText value rest
  end.

Definition setTextInputByLabel (page : Page) (labelText : string) (value : JsVal)
    : M unit :=
  labels ← call env (page_queryAll page "label");
  setTextInputByLabel_for page labelText value labels.

(** Helper function to select radio option *)
Fixpoint selectRadioOption_for (page : Page) (optionValue : JsVal)
    (labels : list Handle) : M unit :=
  match labels with
  | [] => mret tt
  | label :: rest =>
    text ← call env (eval_textContentTrim page label);
    if text_is text optionValue then call env (handle_click label 1)
    else selectRadioOption_for page optionValue rest
  end.

Definition selectRadioOption (page : Page) (optionValue : JsVal) : M unit :=
  labels ← call env (page_queryAll page "label");
  selectRadioOption_for page optionValue labels.

(** Expand all accordion sections to access all options *)
Fixpoint expandAccordion_for (page : Page) (accordionButtons : list Handle) : M unit :=
  match accordionButtons with
  | [] => mret tt
  | btn :: rest =>
    state ← call env (eval_getAttribute page btn "data-state");
    when (bool_decide (state = Some "closed"))
      (call env (handle_click btn 1);;
       emit (setTimeout 200));;
    expandAccordion_for page rest
  end.

(** Set dot type *)
Definition setDotType (page : Page) (dotsType : JsVal) : M unit :=
  when (truthy dotsType && includes_val DOT_TYPES dotsType)
    (selectRadioOption page dotsType).

(** Set corner square type *)
Definition setCornerSquareType (page : Page) (cornersSquareType : JsVal) : M unit :=
  when (truthy cornersSquareType && includes_val CORNER_SQUARE_TYPES cornersSquareType)
    (selectRadioOption page cornersSquareType).

(** Set corner dot type *)
Definition setCornerDotType (page : Page) (cornersDotType : JsVal) : M unit :=
  when (truthy cornersDotType && includes_val CORNER_DOT_TYPES cornersDotType)
    (selectRadioOption page cornersDotType).

(** Set error correction level *)
Definition setErrorCorrectionLevel (page : Page) (errorCorrectionLevel : JsVal) : M unit :=
  when (truthy errorCorrectionLevel
        && truthy (get_property ERROR_CORRECTION_LEVELS errorCorrectionLevel))
    (selectRadioOption page (get_property ERROR_CORRECTION_LEVELS errorCorrectionLevel)).

(** Lines 190-212: find the export container, return the SVG markup or
    a screenshot. *)
Definition capture (page : Page) (format : JsVal) : M Bytes :=
  qrContainer ← call env (page_query page "#element-to-export");
  match qrContainer with
  | None => throw "QR code element not found"
  | Some container =>
    if strict_eq format "svg" then
      svgContent ← call env (eval_outerHTML page "#element-to-export svg");
      match svgContent with
      | Some markup =>
        if truthy (JStr markup) then mret (list_byte_of_string markup)
        else throw "SVG element not found"
      | None => throw "SVG element not found"
      end
    else
      call env (handle_screenshot container
                  (if strict_eq format "png" then "png" else "jpeg"))
  end.

Definition generateQRCode (options : Options) : M Bytes :=
  let 'mkOptions data logoUrl backgroundColor dotsColor cornersSquareColor
                 cornersDotColor width height borderRadius margin imageMargin
                 dotsType cornersSquareType cornersDotType errorCorrectionLevel
                 format := destructure options in
  if negb (truthy data) then throw "Data to encode is required" else
  browserInstance ← getBrowser env;
  page ← newPage env browserInstance;
  try_finally
    (call env (page_setViewport page 1280 900);;
     call env (page_goto page MINI_QR_URL 30000);;
     call env (page_waitForSelector page "input.text-input" 10000);;
     dataInput ← call env (page_query page "input.text-input");
     match dataInput with
     | Some el =>
       call env (handle_click el 3);;
       call env (handle_type el data)
     | None => throw "Cannot read properties of null (reading 'click')"
     end;;
     accordionButtons ← call env (page_queryAll page "button[data-state]");
     expandAccordion_for page accordionButtons;;
     when (truthy logoUrl) (setTextInputByLabel page "Logo image URL" logoUrl);;
     setColorInput page "Background color" backgroundColor;;
     setColorInput page "Dots color" dotsColor;;
     when (truthy cornersSquareColor)
       (setColorInput page "Corners Square color" cornersSquareColor);;
     when (truthy cornersDotColor)
       (setColorInput page "Corners Dot color" cornersDotColor);;
     setTextInputByLabel page "Width" width;;
     setTextInputByLabel page "Height" height;;
     setTextInputByLabel page "Border radius" borderRadius;;
     setTextInputByLabel page "Margin" margin;;
     setTextInputByLabel page "Image margin" imageMargin;;
     setDotType page dotsType;;
     setCornerSquareType page cornersSquareType;;
     setCornerDotType page cornersDotType;;
     setErrorCorrectionLevel page errorCorrectionLevel;;
     emit (setTimeout 500);;
     capture page format)
    (close env page).

Definition post_generate : Options → Route unit := app_post_generate generateQRCode.
Definition get_generate : gmap string string → Route unit :=
  app_get_generate generateQRCode.

(** The step of the form binder that applies an enum field. *)
Definition setEnum (page : Page) (field : EnumField) (value : JsVal) : M unit :=
  match field with
  | DotsType => setDotType page value
  | CornersSquareType => setCornerSquareType page value
  | CornersDotType => setCornerDotType page value
  | ErrorCorrectionLevel => setErrorCorrectionLevel page value
  end.

End Server.

(** The variant set the build recognizes for a field; for the error
    correction level, the keys of the object literal. *)
Definition recognized (field : EnumField) (value : JsVal) : bool :=
  match field with
  | DotsType => includes_val DOT_TYPES value
  | CornersSquareType => includes_val CORNER_SQUARE_TYPES value
  | CornersDotType => includes_val CORNER_DOT_TYPES value
  | ErrorCorrectionLevel =>
    bool_decide (is_Some (ERROR_CORRECTION_LEVELS !! String_ value))
  end.

(** Is the value the name of a property inherited from [Object.prototype]? *)
Definition inherited (value : JsVal) : bool :=
  existsb (String.eqb (String_ value)) Object_prototype.

End Gen1.

(** ** Sample environments and requests *)

(** Does the selector name the export control of the given extension? *)
Definition exported (sel : string) : list File :=
  if String.eqb sel "#download-qr-image-button-png"
  then [("qr-code.png", list_byte_of_string "PNG bytes")]
  else if String.eqb sel "#download-qr-image-button-jpg"
  then [("qr-code.jpg", list_byte_of_string "JPG bytes")]
  else if String.eqb sel "#download-qr-image-button-svg"
  then [("qr-code.svg", list_byte_of_string "<svg></svg>")]
  else [].

(** A target application in which every call resolves: every selector finds
    an element, the page has two labels and one accordion button, and each
    export control downloads one file. *)
Definition happy : Env := λ A tr c,
  match c in Call T return string + T with
  | puppeteer_launch _ => inr tt
  | browser_newPage _ => inr tt
  | page_setViewport _ _ _ => inr tt
  | page_goto _ _ _ => inr tt
  | page_waitForSelector _ _ _ => inr tt
  | page_query _ _ => inr (Some 7%nat)
  | page_queryAll _ _ => inr [8%nat; 9%nat]
  | handle_query _ _ => inr (Some 10%nat)
  | handle_closest _ _ => inr (Some 11%nat)
  | eval_setValue _ _ _ => inr tt
  | eval_textContent _ h => inr (if (h =? 8)%nat then "Width" else "Background color")
  | eval_textContentTrim _ h => inr (Some (if (h =? 8)%nat then "rounded" else "Low (7%)"))
  | eval_getAttribute _ _ _ => inr (Some "closed")
  | eval_outerHTML _ _ => inr (Some "<svg></svg>")
  | handle_click _ _ => inr tt
  | handle_type _ _ => inr tt
  | handle_screenshot _ type => inr (list_byte_of_string (type ++ " screenshot"))
  | page_click _ sel => inr (exported sel)
  | page_createCDPSession _ => inr tt
  | cdp_setDownloadBehavior _ _ => inr tt
  | page_close _ => inr tt
  | setTimeout _ => inr tt
  | fs_mkdir _ => inr tt
  | fs_readdir _ => inr tt
  | fs_readFile _ => inr tt
  | fs_unlink _ => inr tt
  | console_error _ => inr tt
  end.

(** [env], except that the calls selected by [sel] reject with [message]. *)
Definition rejecting (sel : Event → bool) (message : string) (env : Env) : Env :=
  λ A tr c, if sel (Ev c) then inl message else env A tr c.

Definition is_launch (e : Event) : bool :=
  match e with Ev (puppeteer_launch _) => true | _ => false end.
Definition is_goto (e : Event) : bool :=
  match e with Ev (page_goto _ _ _) => true | _ => false end.
Definition is_readFile (e : Event) : bool :=
  match e with Ev (fs_readFile _) => true | _ => false end.
Definition is_newPage (e : Event) : bool :=
  match e with Ev (browser_newPage _) => true | _ => false end.
Definition is_close (e : Event) : bool :=
  match e with Ev (page_close _) => true | _ => false end.

(** [{data: d}] *)
Definition just_data (d : string) : Options :=
  mkOptions (JStr d) JUndefined JUndefined JUndefined JUndefined JUndefined
            JUndefined JUndefined JUndefined JUndefined JUndefined JUndefined
            JUndefined JUndefined JUndefined JUndefined.

(** [{data: d, format: f}] *)
Definition with_format (d : string) (f : JsVal) : Options :=
  mkOptions (JStr d) JUndefined JUndefined JUndefined JUndefined JUndefined
            JUndefined JUndefined JUndefined JUndefined JUndefined JUndefined
            JUndefined JUndefined JUndefined f.

(** [{data: d, logoUrl: l}] *)
Definition with_logo (d l : string) : Options :=
  mkOptions (JStr d) (JStr l) JUndefined JUndefined JUndefined JUndefined
            JUndefined JUndefined JUndefined JUndefined JUndefined JUndefined
            JUndefined JUndefined JUndefined JUndefined.

Definition url : string := "http://mini-qr:80".

(** A format that holds a line feed. *)
Definition broken_format : string := String "g" (String (ascii_of_nat 10) EmptyString).

(** ** Frame conditions *)

(** A computation preserves a component of the world. *)
Definition preserves {X A : Type} (proj : World → X) (m : M A) : Prop :=
  ∀ w r w', m w = (r, w') → proj w' = proj w.

(** Components that do not see the trace. *)
Definition blind {X : Type} (proj : World → X) : Prop :=
  ∀ (A : Type) (c : Call A) w, proj (log c w) = proj w.

(** The browser side of the world, and the download directory. *)
Definition core (w : World) : option Browser * list Browser * list Page * nat :=
  (browser w, sessions w, pages w, fresh w).

(** The options object a request hands to [generateQRCode]. *)
Definition options_of (req : Request) : Options :=
  match req with
  | POST_generate req_body => req_body
  | GET_generate req_query => query_options req_query
  end.

(** The media type of each output format. *)
Definition media_type (fmt : string) : string :=
  if String.eqb fmt "svg" then "image/svg+xml"
  else if String.eqb fmt "png" then "image/png"
  else if String.eqb fmt "jpeg" then "image/jpeg"
  else EmptyString.

(** The numeric query parameters, with the field of the options object
    each one fills and the default [generateQRCode] gives it. *)
Definition numeric_fields : list (string * (Options → JsVal) * Z) :=
  [("width", width, 300); ("height", height, 300); ("borderRadius", borderRadius, 0);
   ("margin", margin, 10); ("imageMargin", imageMargin, 0)].

(** An ASCII letter. *)
Definition is_letter (c : ascii) : bool :=
  ((97 <=? code c) && (code c <=? 122)) || ((65 <=? code c) && (code c <=? 90)).

(** ** Observations on the world *)

(** The calls that act on the controls of the page. *)
Definition is_interaction (e : Event) : bool :=
  match e with
  | Ev (handle_click _ _) | Ev (handle_type _ _)
  | Ev (eval_setValue _ _ _) | Ev (page_click _ _) => true
  | _ => false
  end.

Definition interactions (w : World) : list Event := filter is_interaction (trace w).

(** Page identifiers in use are below the next fresh one. *)
Definition fresh_ids (w : World) : Prop := Forall (λ p, (p < fresh w)%nat) (pages w).

(** The live sessions are exactly the cached one, if any. *)
Definition one_session (w : World) : Prop :=
  sessions w = match browser w with Some b => [b] | None => [] end.

(** The error is one the environment raised. *)
Definition rejects (env : Env) (e : string) : Prop :=
  ∃ (A : Type) (tr : list Event) (c : Call A), env A tr c = inl e.

(** The selectors [page.click] was called on, most recent first. *)
Definition clicks (w : World) : list string :=
  omap (λ e, match e with Ev (page_click _ sel) => Some sel | _ => None end) (trace w).

(** An environment in which the first attempt to read a file is refused. *)
Definition read_refused : Env := λ A tr c,
  if is_readFile (Ev c) && negb (existsb is_readFile tr)
  then inl "EACCES: permission denied"
  else happy A tr c.

(** The world a process is in after a jpeg request whose read was refused. *)
Definition after_refused_read : World :=
  snd (Gen2.generateQRCode read_refused url (with_format "hi" (JStr "jpeg")) world0).

(** A process in whose download directory an earlier request has left a
    file. *)
Definition with_leftover (name : string) : World :=
  set_downloads [(name, list_byte_of_string "earlier bytes")] world0.

(** ** What a computation may emit *)

(** Every call a computation records belongs to [allowed]; the history it
    found is kept below the calls it adds. *)
Definition only_emits {A : Type} (allowed : Event → bool) (m : M A) : Prop :=
  ∀ w r w', m w = (r, w') →
    ∃ new, trace w' = (new ++ trace w)%list ∧ forallb allowed new = true.

Definition any_event (e : Event) : bool := true.

(** The history of [w'] continues that of [w]. *)
Definition extends (w w' : World) : Prop :=
  ∃ new, trace w' = (new ++ trace w)%list.

(** Between [w] and [w'] the call [c] was made, and the environment
    resolved it to [a]. *)
Definition answered {A : Type} (env : Env) (w w' : World) (c : Call A) (a : A) : Prop :=
  ∃ before after,
    trace w' = (after ++ Ev c :: before ++ trace w)%list
    ∧ env A (before ++ trace w)%list c = inr a.

(** The calls through which the form binder and the capture step talk to
    an open page. *)
Definition page_call (e : Event) : bool :=
  match e with
  | Ev (page_setViewport _ _ _) | Ev (page_goto _ _ _) | Ev (page_waitForSelector _ _ _)
  | Ev (page_query _ _) | Ev (page_queryAll _ _) | Ev (handle_query _ _)
  | Ev (handle_closest _ _) | Ev (eval_setValue _ _ _) | Ev (eval_textContent _ _)
  | Ev (eval_textContentTrim _ _) | Ev (eval_getAttribute _ _ _)
  | Ev (eval_outerHTML _ _) | Ev (handle_click _ _) | Ev (handle_type _ _)
  | Ev (handle_screenshot _ _) | Ev (page_close _) | Ev (setTimeout _) => true
  | _ => false
  end.

(** The calls that touch the file system or set up a download. *)
Definition file_call (e : Event) : bool :=
  match e with
  | Ev (fs_mkdir _) | Ev (fs_readdir _) | Ev (fs_readFile _) | Ev (fs_unlink _)
  | Ev (page_click _ _) | Ev (page_createCDPSession _)
  | Ev (cdp_setDownloadBehavior _ _) => true
  | _ => false
  end.

Definition not_file (e : Event) : bool := negb (file_call e).
Definition not_launch (e : Event) : bool := negb (is_launch e).

(** A decimal digit other than zero. *)
Definition nonzero_digit (c : ascii) : bool := (49 <=? code c) && (code c <=? 57).

(** What may follow a decimal numeral without changing what [parseInt]
    reads: nothing, or text that does not start with a digit (nor with the
    x of a hexadecimal prefix). *)
Definition ends_numeral (rest : string) : bool :=
  match rest with
  | EmptyString => true
  | String c _ =>
    match digit_value 10 c with
    | Some _ => false
    | None => negb (code c =? 120) && negb (code c =? 88)
    end
  end.

(** A computation makes at most [n] interactions with the controls of the
    page, whatever the page answers. *)
Definition touches {A : Type} (n : nat) (m : M A) : Prop :=
  ∀ w r w', m w = (r, w') →
    ∃ new, trace w' = (new ++ trace w)%list
           ∧ (length (filter is_interaction new) ≤ n)%nat.

(** Every call but a lookup of the selector [sel]. *)
Definition not_query (sel : string) (e : Event) : bool :=
  match e with
  | Ev (page_query _ s) => negb (String.eqb s sel)
  | _ => true
  end.

(** The controls of the id-addressed build that are set only when their
    option is given, with the option each one takes. *)
Definition optional_controls : list (string * (Options → JsVal)) :=
  [("#image-url", logoUrl);
   ("#corners-square-color", cornersSquareColor);
   ("#corners-dot-color", cornersDotColor)].

(** Every call but those that write to, click or type into an element. *)
Definition leaves_controls (e : Event) : bool :=
  match e with
  | Ev (handle_click _ _) | Ev (handle_type _ _) | Ev (eval_setValue _ _ _) => false
  | _ => true
  end.

(** A page on which no selector finds an element. *)
Definition no_element_found (env : Env) : Prop :=
  ∀ tr p sel, env (option Handle) tr (page_query p sel) = inr None.

(** A target page whose controls are all gone: [happy], except that no
    selector finds an element. *)
Definition bare_page : Env := λ A tr c,
  match c in Call T return string + T with
  | page_query _ _ => inr None
  | c' => happy _ tr c'
  end.

(** A target page without the logo URL control: [happy], except that
    "#image-url" finds nothing. *)
Definition no_logo_control : Env := λ A tr c,
  match c in Call T return string + T with
  | page_query _ sel => if String.eqb sel "#image-url" then inr None else inr (Some 7%nat)
  | c' => happy _ tr c'
  end.

(** ** Shutdown *)

(** The browser process [b] is gone, and its pages with it. *)
Definition end_session (b : Browser) (w : World) : World :=
  mkWorld (browser w) (filter (λ s, s ≠ b) (sessions w)) [] (fresh w)
          (downloads w) (trace w).

(** [browser.close()].  Its outcome is given from outside: [None] when the
    call resolves, the message of the error when it rejects. *)
Definition browser_close (outcome : option string) (b : Browser) : M unit :=
  match outcome with
  | None => modify (end_session b)
  | Some e => throw e
  end.

(** The handler of SIGINT, the same text in both builds.  It resolves when
    [process.exit()] is reached. *)
Definition on_SIGINT (outcome : option string) : M unit :=
  cached ← gets browser;
  match cached with
  | Some b => browser_close outcome b
  | None => mret tt
  end;;
  mret tt.

(** A page none of whose panels reports itself closed. *)
Definition no_panel_closed (env : Env) : Prop :=
  ∀ tr p h, env (option string) tr (eval_getAttribute p h "data-state")
            ≠ inr (Some "closed").

(** A target page all of whose panels are open: [happy], except for the
    state the accordion buttons report. *)
Definition open_panels : Env := λ A tr c,
  match c in Call T return string + T with
  | eval_getAttribute _ _ _ => inr (Some "open")
  | c' => happy _ tr c'
  end.


(** ** Cooperative environments *)

(** No external call rejects. *)
Definition never_rejects (env : Env) : Prop :=
  ∀ (A : Type) (tr : list Event) (c : Call A), ∃ a, env A tr c = inr a.

(** [page.close()] resolves whenever it is called. *)
Definition closes_resolve (env : Env) : Prop :=
  ∀ tr p, env unit tr (page_close p) = inr tt.

(** The target page has what the label-addressed build relies on: every
    selector finds an element, every label sits in a layout group, and the
    export container holds vector markup. *)
Definition page_is_complete (env : Env) : Prop :=
  (∀ tr p sel, ∃ h, env _ tr (page_query p sel) = inr (Some h))
  ∧ (∀ tr h sel, ∃ h', env _ tr (handle_closest h sel) = inr (Some h'))
  ∧ (∀ tr p sel, ∃ markup,
       env _ tr (eval_outerHTML p sel) = inr (Some markup) ∧ markup ≠ EmptyString).

(** Clicking the export control of the format downloads a file whose name
    has the extension the format is scanned for. *)
Definition delivers (env : Env) (format : JsVal) : Prop :=
  ∀ tr page, ∃ landed name,
    env _ tr (page_click page ("#" ++ Gen2.buttonId format)) = inr landed
    ∧ name ∈ map fst landed
    ∧ endsWith name ("." ++ Gen2.extension format) = true.

(** No click on an export control downloads a file of the given ending,
    and none is in the directory. *)
Definition none_with_ending (ending : string) (files : list File) : Prop :=
  Forall (λ f, endsWith (fst f) ending = false) files.

Definition never_delivers (env : Env) (ending : string) : Prop :=
  ∀ tr page sel landed,
    env _ tr (page_click page sel) = inr landed → none_with_ending ending landed.

(** A computation that returns, with a value that satisfies [P]. *)
Definition returns {A : Type} (m : M A) (P : A → Prop) : Prop :=
  ∀ w r w', m w = (r, w') → ∃ a, r = Ok a ∧ P a.

(** ** The exits of [generateQRCode] *)

(** How a run of [generateQRCode] ends, in either build: rejected for want
    of data; failed to launch the browser; failed to open a page; or, once
    a page was opened, after the [try] block and [page.close()], whose
    rejection, if any, is the outcome. *)
Definition exits_as (env : Env) (options : Options)
    (w : World) (r : Outcome Bytes) (w' : World) : Prop :=
  (truthy (data options) = false ∧ r = Throw "Data to encode is required" ∧ w' = w)
  ∨ truthy (data options) = true
    ∧ ((∃ e, r = Throw e ∧ getBrowser env w = (Throw e, w'))
       ∨ (∃ e b w1,
            r = Throw e ∧ getBrowser env w = (Ok b, w1)
            ∧ env unit (trace w1) (browser_newPage b) = inl e
            ∧ w' = log (browser_newPage b) w1)
       ∨ (∃ b w1 (r1 : Outcome Bytes) w2 new,
            getBrowser env w = (Ok b, w1)
            ∧ env unit (trace w1) (browser_newPage b) = inr tt
            ∧ core w2 = core (add_page (fresh w1) (log (browser_newPage b) w1))
            ∧ trace w2 = (new ++ Ev (browser_newPage b) :: trace w1)%list
            ∧ match env unit (trace w2) (page_close (fresh w1)) with
              | inr _ =>
                r = r1 ∧ w' = remove_page (fresh w1) (log (page_close (fresh w1)) w2)
              | inl e => r = Throw e ∧ w' = log (page_close (fresh w1)) w2
              end)).

(** What a call to [generateQRCode] keeps of the browser side of the
    world: identifiers stay fresh, the live sessions stay the cached one, a
    cached session stays cached, the open pages are those open before
    unless [page.close()] itself rejected, and the browser is acquired
    before a page is asked for. *)
Definition keeps_house (env : Env) (gen : Options → M Bytes) : Prop :=
  ∀ options w r w',
    fresh_ids w → gen options w = (r, w') →
    fresh_ids w'
    ∧ (one_session w → one_session w')
    ∧ (is_Some (browser w) → is_Some (browser w'))
    ∧ (pages w' = pages w
       ∨ ∃ p e history,
           trace w' = Ev (page_close p) :: history
           ∧ env unit history (page_close p) = inl e
           ∧ r = Throw e
           ∧ pages w' = p :: pages w
           ∧ is_Some (browser w'))
    ∧ (match r with Ok _ => is_Some (browser w') | Throw _ => True end)
    ∧ ∃ new, trace w' = (new ++ trace w)%list
             ∧ (existsb is_newPage new = true → is_Some (browser w')).
(** ** Reasoning about [M] *)

Lemma bind_inv {A B : Type} (m : M A) (f : A → M B) w r w' :
  (m ≫= f) w = (r, w') →
  (∃ a w1, m w = (Ok a, w1) ∧ f a w1 = (r, w'))
  ∨ (∃ e, m w = (Throw e, w') ∧ r = Throw e).
Proof.
  unfold mbind, M_bind. destruct (m w) as [[a|e] w1]; intros H.
  - left. eauto.
  - right. inversion H; subst. eauto.
Qed.

Lemma bind_Ok_inv {A B : Type} (m : M A) (f : A → M B) w b w' :
  (m ≫= f) w = (Ok b, w') →
  ∃ a w1, m w = (Ok a, w1) ∧ f a w1 = (Ok b, w').
Proof.
  intros H. apply bind_inv in H as [H|(e & _ & H)]; [done | discriminate].
Qed.

Lemma bind_Ok {A B : Type} (m : M A) (f : A → M B) w a w1 :
  m w = (Ok a, w1) → (m ≫= f) w = f a w1.
Proof. unfold mbind, M_bind. by intros ->. Qed.

Lemma call_inv (env : Env) {A : Type} (c : Call A) w r w' :
  call env c w = (r, w') →
  w' = log c w ∧
  match r with
  | Ok a => env A (trace w) c = inr a
  | Throw e => env A (trace w) c = inl e
  end.
Proof.
  unfold call. destruct (env A (trace w) c); intros H; inversion H; by subst.
Qed.

Lemma bind_Throw {A B : Type} (m : M A) (f : A → M B) w e w1 :
  m w = (Throw e, w1) → (m ≫= f) w = (Throw e, w1).
Proof. unfold mbind, M_bind. by intros ->. Qed.

Lemma call_Ok (env : Env) {A : Type} (c : Call A) w a :
  env A (trace w) c = inr a → call env c w = (Ok a, log c w).
Proof. unfold call. by intros ->. Qed.

Lemma call_Throw (env : Env) {A : Type} (c : Call A) w e :
  env A (trace w) c = inl e → call env c w = (Throw e, log c w).
Proof. unfold call. by intros ->. Qed.

Lemma blind_core : blind core.
Proof. by intros A c w. Qed.

Lemma blind_downloads : blind downloads.
Proof. by intros A c w. Qed.

Section Frame.
Context {X : Type} (proj : World → X) (Hblind : blind proj) (env : Env).

Lemma preserves_ret {A : Type} (a : A) : preserves proj (mret a).
Proof. intros w r w' H. by inversion H. Qed.

Lemma preserves_throw {A : Type} e : preserves proj (@throw A e).
Proof. intros w r w' H. by inversion H. Qed.

Lemma preserves_gets {A : Type} (f : World → A) : preserves proj (gets f).
Proof. intros w r w' H. by inversion H. Qed.

Lemma preserves_bind {A B : Type} (m : M A) (f : A → M B) :
  preserves proj m → (∀ a, preserves proj (f a)) → preserves proj (m ≫= f).
Proof.
  intros Hm Hf w r w' H.
  apply bind_inv in H as [(a & w1 & H1 & H2)|(e & H1 & _)].
  - rewrite (Hf _ _ _ _ H2). eauto.
  - eauto.
Qed.

Lemma preserves_call {A : Type} (c : Call A) : preserves proj (call env c).
Proof using Hblind. intros w r w' H. apply call_inv in H as [-> _]. apply Hblind. Qed.

Lemma preserves_emit {A : Type} (c : Call A) : preserves proj (emit c).
Proof using Hblind. intros w r w' H. inversion H. apply Hblind. Qed.

Lemma preserves_when (c : bool) (m : M unit) :
  preserves proj m → preserves proj (when c m).
Proof. destruct c; [done | intros _; apply preserves_ret]. Qed.

Lemma preserves_modify (f : World → World) :
  (∀ w, proj (f w) = proj w) → preserves proj (modify f).
Proof. intros Hf w r w' H. inversion H. apply Hf. Qed.

End Frame.

Create HintDb frame.
#[global] Hint Resolve blind_core blind_downloads : frame.

(** Break a goal [preserves proj m] down along the structure of [m]. *)
Ltac frame :=
  repeat first
    [ solve [auto with frame]
    | apply preserves_bind; [ | intros ? ]
    | apply preserves_call; solve [auto with frame]
    | apply preserves_emit; solve [auto with frame]
    | apply preserves_ret
    | apply preserves_throw
    | apply preserves_gets
    | apply preserves_when
    | apply preserves_modify; intros ?; reflexivity
    | match goal with
      | |- preserves _ (match ?x with _ => _ end) => destruct x
      end ].

Lemma preserved {X A : Type} (proj : World → X) (m : M A) w r w' :
  preserves proj m → m w = (r, w') → proj w' = proj w.
Proof. intros H. apply H. Qed.

(** The helpers of the form binder only talk to the page. *)
Section FormBinder.
Context {X : Type} (proj : World → X) (Hblind : blind proj) (env : Env).

Lemma preserves_setInputById page id value :
  preserves proj (Gen2.setInputById env page id value).
Proof using Hblind. unfold Gen2.setInputById. frame. Qed.

Lemma preserves_setColorById page id color :
  preserves proj (Gen2.setColorById env page id color).
Proof using Hblind. unfold Gen2.setColorById. frame. Qed.

Lemma preserves_selectRadioById page id :
  preserves proj (Gen2.selectRadioById env page id).
Proof using Hblind. unfold Gen2.selectRadioById. frame. Qed.

Lemma preserves_setEnum2 page field value :
  preserves proj (Gen2.setEnum env page field value).
Proof using Hblind.
  destruct field; cbn;
    unfold Gen2.setDotType, Gen2.setCornerSquareType, Gen2.setCornerDotType,
      Gen2.setErrorCorrectionLevel;
    apply preserves_when, preserves_selectRadioById.
Qed.

Lemma preserves_query_in parent sel : preserves proj (Gen1.query_in env parent sel).
Proof using Hblind. unfold Gen1.query_in. frame. Qed.

Lemma preserves_setColorInput page labelText color :
  preserves proj (Gen1.setColorInput env page labelText color).
Proof using Hblind.
  unfold Gen1.setColorInput. apply preserves_bind; [frame|].
  intros labels. induction labels as [|label rest IH]; cbn; [frame|].
  apply preserves_bind; [frame|]. intros text.
  destruct (includes text labelText); [|done].
  pose proof preserves_query_in. frame.
Qed.

Lemma preserves_setTextInputByLabel page labelText value :
  preserves proj (Gen1.setTextInputByLabel env page labelText value).
Proof using Hblind.
  unfold Gen1.setTextInputByLabel. apply preserves_bind; [frame|].
  intros labels. induction labels as [|label rest IH]; cbn; [frame|].
  apply preserves_bind; [frame|]. intros text.
  destruct (includes text labelText); [|done].
  pose proof preserves_query_in. frame.
Qed.

Lemma preserves_selectRadioOption page optionValue :
  preserves proj (Gen1.selectRadioOption env page optionValue).
Proof using Hblind.
  unfold Gen1.selectRadioOption. apply preserves_bind; [frame|].
  intros labels. induction labels as [|label rest IH]; cbn; [frame|].
  apply preserves_bind; [frame|]. intros text.
  destruct (Gen1.text_is text optionValue); [frame|done].
Qed.

Lemma preserves_expandAccordion_for page accordionButtons :
  preserves proj (Gen1.expandAccordion_for env page accordionButtons).
Proof using Hblind.
  induction accordionButtons as [|btn rest IH]; cbn; frame.
Qed.

Lemma preserves_setEnum1 page field value :
  preserves proj (Gen1.setEnum env page field value).
Proof using Hblind.
  destruct field; cbn;
    unfold Gen1.setDotType, Gen1.setCornerSquareType, Gen1.setCornerDotType,
      Gen1.setErrorCorrectionLevel;
    apply preserves_when, preserves_selectRadioOption.
Qed.

Lemma preserves_capture page format : preserves proj (Gen1.capture env page format).
Proof using Hblind. unfold Gen1.capture. frame. Qed.

End FormBinder.

#[global] Hint Resolve preserves_setEnum1 preserves_setEnum2 : frame.
#[global] Hint Resolve preserves_setInputById preserves_setColorById
  preserves_selectRadioById preserves_setColorInput preserves_setTextInputByLabel
  preserves_selectRadioOption preserves_expandAccordion_for preserves_capture : frame.

(** ** The calls a computation makes *)

Section Emits.
Context (allowed : Event → bool) (env : Env).

Lemma only_emits_ret {A : Type} (a : A) : only_emits allowed (mret a).
Proof. intros w r w' H. inversion H. by exists []. Qed.

Lemma only_emits_throw {A : Type} e : only_emits allowed (@throw A e).
Proof. intros w r w' H. inversion H. by exists []. Qed.

Lemma only_emits_gets {A : Type} (f : World → A) : only_emits allowed (gets f).
Proof. intros w r w' H. inversion H. by exists []. Qed.

Lemma only_emits_modify (f : World → World) :
  (∀ w, trace (f w) = trace w) → only_emits allowed (modify f).
Proof. intros Hf w r w' H. inversion H. exists []. by rewrite Hf. Qed.

Lemma only_emits_call {A : Type} (c : Call A) :
  allowed (Ev c) = true → only_emits allowed (call env c).
Proof.
  intros Hc w r w' H. apply call_inv in H as [-> _].
  exists [Ev c]. split; [done|]. cbn. by rewrite Hc.
Qed.

Lemma only_emits_emit {A : Type} (c : Call A) :
  allowed (Ev c) = true → only_emits allowed (emit c).
Proof.
  intros Hc w r w' H. inversion H. exists [Ev c]. split; [done|]. cbn. by rewrite Hc.
Qed.

Lemma only_emits_bind {A B : Type} (m : M A) (f : A → M B) :
  only_emits allowed m → (∀ a, only_emits allowed (f a)) →
  only_emits allowed (m ≫= f).
Proof.
  intros Hm Hf w r w' H.
  apply bind_inv in H as [(a & w1 & H1 & H2)|(e & H1 & _)]; [|by eapply Hm].
  apply Hm in H1 as (n1 & E1 & F1). apply Hf in H2 as (n2 & E2 & F2).
  exists (n2 ++ n1)%list. split.
  - by rewrite E2, E1, app_assoc.
  - by rewrite forallb_app, F1, F2.
Qed.

Lemma only_emits_when (c : bool) (m : M unit) :
  only_emits allowed m → only_emits allowed (when c m).
Proof. destruct c; [done | intros _; apply only_emits_ret]. Qed.

Lemma only_emits_try_finally {A : Type} (body : M A) (fin : M unit) :
  only_emits allowed body → only_emits allowed fin →
  only_emits allowed (try_finally body fin).
Proof.
  intros Hb Hf w r w' H. unfold try_finally in H.
  destruct (body w) as [r1 w1] eqn:H1. destruct (fin w1) as [r2 w2] eqn:H2.
  apply Hb in H1 as (n1 & E1 & F1). apply Hf in H2 as (n2 & E2 & F2).
  assert (w' = w2) as -> by (destruct r2; by inversion H).
  exists (n2 ++ n1)%list. split.
  - by rewrite E2, E1, app_assoc.
  - by rewrite forallb_app, F1, F2.
Qed.

End Emits.

Create HintDb emits.

(** Break a goal [only_emits allowed m] down along the structure of [m]. *)
Ltac emits :=
  repeat first
    [ solve [auto with emits]
    | apply only_emits_bind; [ | intros ? ]
    | apply only_emits_try_finally
    | apply only_emits_call;
      first [ reflexivity
            | match goal with
              | H : ∀ e, _ = true → _ = true |- _ => apply H; reflexivity
              end ]
    | apply only_emits_emit;
      first [ reflexivity
            | match goal with
              | H : ∀ e, _ = true → _ = true |- _ => apply H; reflexivity
              end ]
    | apply only_emits_ret
    | apply only_emits_throw
    | apply only_emits_gets
    | apply only_emits_when
    | apply only_emits_modify; intros ?; reflexivity
    | match goal with
      | |- only_emits _ (match ?x with _ => _ end) => destruct x
      end ].

(** The helpers of both form binders, and the capture step, only make
    calls on the page. *)
Section PageCalls.
Context (allowed : Event → bool) (Hpage : ∀ e, page_call e = true → allowed e = true).
Context (env : Env).

Lemma emits_setInputById page id value :
  only_emits allowed (Gen2.setInputById env page id value).
Proof using Hpage. unfold Gen2.setInputById. emits. Qed.

Lemma emits_setColorById page id color :
  only_emits allowed (Gen2.setColorById env page id color).
Proof using Hpage. unfold Gen2.setColorById. emits. Qed.

Lemma emits_selectRadioById page id :
  only_emits allowed (Gen2.selectRadioById env page id).
Proof using Hpage. unfold Gen2.selectRadioById. emits. Qed.

Lemma emits_setEnum2 page field value :
  only_emits allowed (Gen2.setEnum env page field value).
Proof using Hpage.
  destruct field; cbn;
    unfold Gen2.setDotType, Gen2.setCornerSquareType, Gen2.setCornerDotType,
      Gen2.setErrorCorrectionLevel;
    apply only_emits_when, emits_selectRadioById.
Qed.

Lemma emits_query_in parent sel : only_emits allowed (Gen1.query_in env parent sel).
Proof using Hpage. unfold Gen1.query_in. emits. Qed.

Lemma emits_setColorInput page labelText color :
  only_emits allowed (Gen1.setColorInput env page labelText color).
Proof using Hpage.
  unfold Gen1.setColorInput. apply only_emits_bind; [emits|].
  intros labels. induction labels as [|label rest IH]; cbn; [emits|].
  apply only_emits_bind; [emits|]. intros text.
  destruct (includes text labelText); [|done].
  pose proof emits_query_in. emits.
Qed.

Lemma emits_setTextInputByLabel page labelText value :
  only_emits allowed (Gen1.setTextInputByLabel env page labelText value).
Proof using Hpage.
  unfold Gen1.setTextInputByLabel. apply only_emits_bind; [emits|].
  intros labels. induction labels as [|label rest IH]; cbn; [emits|].
  apply only_emits_bind; [emits|]. intros text.
  destruct (includes text labelText); [|done].
  pose proof emits_query_in. emits.
Qed.

Lemma emits_selectRadioOption page optionValue :
  only_emits allowed (Gen1.selectRadioOption env page optionValue).
Proof using Hpage.
  unfold Gen1.selectRadioOption. apply only_emits_bind; [emits|].
  intros labels. induction labels as [|label rest IH]; cbn; [emits|].
  apply only_emits_bind; [emits|]. intros text.
  destruct (Gen1.text_is text optionValue); [emits|done].
Qed.

Lemma emits_expandAccordion_for page accordionButtons :
  only_emits allowed (Gen1.expandAccordion_for env page accordionButtons).
Proof using Hpage.
  induction accordionButtons as [|btn rest IH]; cbn; emits.
Qed.

Lemma emits_setEnum1 page field value :
  only_emits allowed (Gen1.setEnum env page field value).
Proof using Hpage.
  destruct field; cbn;
    unfold Gen1.setDotType, Gen1.setCornerSquareType, Gen1.setCornerDotType,
      Gen1.setErrorCorrectionLevel;
    apply only_emits_when, emits_selectRadioOption.
Qed.

Lemma emits_capture page format : only_emits allowed (Gen1.capture env page format).
Proof using Hpage. unfold Gen1.capture. emits. Qed.

Lemma emits_close page : only_emits allowed (close env page).
Proof using Hpage. unfold close. emits. Qed.

End PageCalls.

#[global] Hint Resolve emits_setInputById emits_setColorById emits_selectRadioById
  emits_setEnum2 emits_setColorInput emits_setTextInputByLabel
  emits_selectRadioOption emits_expandAccordion_for emits_setEnum1
  emits_capture emits_close : emits.

Lemma page_call_not_file e : page_call e = true → not_file e = true.
Proof. destruct e as [A c]. by destruct c. Qed.

Lemma page_call_not_launch e : page_call e = true → not_launch e = true.
Proof. destruct e as [A c]. by destruct c. Qed.

#[global] Hint Resolve page_call_not_file page_call_not_launch : emits.

Lemma emits_getBrowser (allowed : Event → bool) (env : Env) :
  allowed (Ev (puppeteer_launch launch_args)) = true →
  only_emits allowed (getBrowser env).
Proof.
  intros Hl. unfold getBrowser, launch.
  apply only_emits_bind; [emits|]. intros [b|]; [emits|].
  repeat (apply only_emits_bind; [|intros ?]); try (emits; fail).
  by apply only_emits_call.
Qed.

Lemma emits_newPage (allowed : Event → bool) (env : Env) b :
  allowed (Ev (browser_newPage b)) = true →
  only_emits allowed (newPage env b).
Proof.
  intros Hl. unfold newPage.
  repeat (apply only_emits_bind; [|intros ?]); try (emits; fail).
  by apply only_emits_call.
Qed.

Lemma preserves_try_finally {X A : Type} (proj : World → X) (body : M A) (fin : M unit) :
  preserves proj body → preserves proj fin → preserves proj (try_finally body fin).
Proof.
  intros Hb Hf w r w' H. unfold try_finally in H.
  destruct (body w) as [r1 w1] eqn:H1. destruct (fin w1) as [r2 w2] eqn:H2.
  apply Hb in H1. apply Hf in H2.
  assert (w' = w2) as -> by (destruct r2; by inversion H). congruence.
Qed.

Lemma preserves_downloads_close (env : Env) page :
  preserves downloads (close env page).
Proof. unfold close. frame. Qed.

(** ** The shape of a run of [generateQRCode] *)

Lemma preserves_getBrowser {X : Type} (proj : World → X) (env : Env) :
  blind proj →
  (∀ b w, proj (add_session b w) = proj w) →
  (∀ b w, proj (set_browser b w) = proj w) →
  preserves proj (getBrowser env).
Proof.
  intros Hb H1 H2. unfold getBrowser, launch.
  apply preserves_bind; [frame|]. intros [b|]; [frame|].
  repeat (apply preserves_bind; [|intros ?]); try (frame; fail);
    apply preserves_modify; auto.
Qed.

Lemma preserves_newPage {X : Type} (proj : World → X) (env : Env) b :
  blind proj →
  (∀ p w, proj (add_page p w) = proj w) →
  preserves proj (newPage env b).
Proof.
  intros Hb H1. unfold newPage.
  repeat (apply preserves_bind; [|intros ?]); try (frame; fail);
    apply preserves_modify; auto.
Qed.

Lemma close_inv (env : Env) page w r w' :
  close env page w = (r, w') →
  match env unit (trace w) (page_close page) with
  | inr _ => r = Ok tt ∧ w' = remove_page page (log (page_close page) w)
  | inl e => r = Throw e ∧ w' = log (page_close page) w
  end.
Proof.
  unfold close, mbind, M_bind, call, modify.
  destruct (env unit (trace w) (page_close page)); by inversion 1.
Qed.

(** The [finally] block: [page.close()] is called whatever the body did;
    when it rejects, its error is the outcome. *)
Lemma try_finally_close {A : Type} (env : Env) (body : M A) page w r w' :
  try_finally body (close env page) w = (r, w') →
  ∃ r1 w1, body w = (r1, w1) ∧
    match env unit (trace w1) (page_close page) with
    | inr _ => r = r1 ∧ w' = remove_page page (log (page_close page) w1)
    | inl e => r = Throw e ∧ w' = log (page_close page) w1
    end.
Proof.
  unfold try_finally. destruct (body w) as [r1 w1].
  destruct (close env page w1) as [r2 w2] eqn:Hc. apply close_inv in Hc.
  intros H. exists r1, w1. split; [done|].
  destruct (env unit (trace w1) (page_close page)); destruct Hc as [-> ->];
    by inversion H.
Qed.

Lemma try_finally_close_Ok {A : Type} (env : Env) (body : M A) page w a w' :
  try_finally body (close env page) w = (Ok a, w') →
  ∃ w1, body w = (Ok a, w1)
    ∧ env unit (trace w1) (page_close page) = inr tt
    ∧ w' = remove_page page (log (page_close page) w1).
Proof.
  intros H. apply try_finally_close in H as (r1 & w1 & H & Hc).
  destruct (env unit (trace w1) (page_close page)) as [e|[]] eqn:E;
    destruct Hc as [Hr ->]; [discriminate Hr|]. subst r1. eauto.
Qed.

Lemma extends_trans w1 w2 w3 : extends w1 w2 → extends w2 w3 → extends w1 w3.
Proof.
  intros [n1 H1] [n2 H2]. exists (n2 ++ n1)%list. by rewrite H2, H1, app_assoc.
Qed.

Lemma extends_run {A : Type} (m : M A) w r w' :
  only_emits any_event m → m w = (r, w') → extends w w'.
Proof. intros Hm H. apply Hm in H as (new & H & _). by exists new. Qed.

Lemma extends_log {A : Type} (c : Call A) w : extends w (log c w).
Proof. by exists [Ev c]. Qed.

Lemma answered_frame {A : Type} (env : Env) (c : Call A) (a : A) w0 w w' w1 :
  extends w0 w → extends w' w1 → answered env w w' c a → answered env w0 w1 c a.
Proof.
  intros [n0 H0] [n1 H1] (before & after & Ht & E).
  exists (before ++ n0)%list, (n1 ++ after)%list. split.
  - rewrite H1, Ht, H0. by rewrite <- !app_assoc.
  - by rewrite <- app_assoc, <- H0.
Qed.

(** Peel the steps off a run that returned, keeping track of the download
    directory and of the history. *)
Ltac peel H Hd Ht :=
  repeat (
    let a := fresh "a" in
    let wi := fresh "w" in
    let Hs := fresh "Hs" in
    let Hx := fresh "Hx" in
    apply bind_Ok_inv in H as (a & wi & Hs & H);
    pose proof Hs as Hx;
    apply extends_run in Hx; [ | solve [emits] ];
    apply (extends_trans _ _ _ Ht) in Hx; clear Ht; rename Hx into Ht;
    apply (preserved downloads) in Hs; [ | solve [frame] ];
    rewrite Hd in Hs; clear Hd; rename Hs into Hd).

Lemma extends_with_page (env : Env) b w w1 page w2 :
  getBrowser env w = (Ok b, w1) → newPage env b w1 = (Ok page, w2) → extends w w2.
Proof.
  intros Hb Hp. eapply extends_trans.
  - eapply extends_run; [|exact Hb]. by apply emits_getBrowser.
  - eapply extends_run; [|exact Hp]. by apply emits_newPage.
Qed.

Lemma extends_remove_page page w : extends w (remove_page page w).
Proof. by exists []. Qed.

Lemma Gen2_generateQRCode_Ok (env : Env) (MINI_QR_URL : string) options w bytes w' :
  Gen2.generateQRCode env MINI_QR_URL options w = (Ok bytes, w') →
  ∃ page w1 w2,
    truthy (data options) = true
    ∧ Gen2.download env page (format (destructure options)) w1 = (Ok bytes, w2)
    ∧ downloads w1 = downloads w
    ∧ downloads w' = downloads w2
    ∧ extends w w1
    ∧ extends w2 w'.
Proof.
  unfold Gen2.generateQRCode, destructure. cbv beta iota.
  destruct (truthy (data options)) eqn:Hdata; cbn [negb]; [|discriminate].
  intros H.
  apply bind_Ok_inv in H as (b & w1 & Hb & H).
  apply bind_Ok_inv in H as (page & w2 & Hp & H).
  pose proof (extends_with_page env b w w1 page w2 Hb Hp) as Ht.
  apply (preserved downloads) in Hb; [|by apply preserves_getBrowser].
  apply (preserved downloads) in Hp; [|by apply preserves_newPage].
  apply try_finally_close_Ok in H as (w3 & H & _ & ->).
  assert (downloads w2 = downloads w) as Hd by congruence.
  unfold Gen2.setDotType, Gen2.setCornerSquareType, Gen2.setCornerDotType,
    Gen2.setErrorCorrectionLevel in H.
  peel H Hd Ht.
  refine (ex_intro _ page (ex_intro _ _ (ex_intro _ _
    (conj eq_refl (conj H (conj Hd (conj eq_refl (conj Ht _)))))))).
  eapply extends_trans; [|apply extends_remove_page]. apply extends_log.
Qed.

Lemma Gen1_generateQRCode_Ok (env : Env) (MINI_QR_URL : string) options w bytes w' :
  Gen1.generateQRCode env MINI_QR_URL options w = (Ok bytes, w') →
  ∃ page w1 w2,
    truthy (data options) = true
    ∧ Gen1.capture env page (format (destructure options)) w1 = (Ok bytes, w2)
    ∧ extends w w1
    ∧ trace w' = Ev (page_close page) :: trace w2.
Proof.
  unfold Gen1.generateQRCode, destructure. cbv beta iota.
  destruct (truthy (data options)) eqn:Hdata; cbn [negb]; [|discriminate].
  intros H.
  apply bind_Ok_inv in H as (b & w1 & Hb & H).
  apply bind_Ok_inv in H as (page & w2 & Hp & H).
  pose proof (extends_with_page env b w w1 page w2 Hb Hp) as Ht.
  apply try_finally_close_Ok in H as (w3 & H & _ & ->).
  unfold Gen1.setDotType, Gen1.setCornerSquareType, Gen1.setCornerDotType,
    Gen1.setErrorCorrectionLevel in H.
  do 22 (let Hs := fresh "Hs" in
         apply bind_Ok_inv in H as (? & ? & Hs & H);
         apply extends_run in Hs;
           [ | solve [emits | match goal with x : option Handle |- _ =>
                                destruct x; emits end] ];
         apply (extends_trans _ _ _ Ht) in Hs; clear Ht; rename Hs into Ht).
  exact (ex_intro _ page (ex_intro _ _ (ex_intro _ _
    (conj eq_refl (conj H (conj Ht eq_refl)))))).
Qed.

(** ** Validation comes before the browser *)

(** C1. When the [data] field of the options is absent ([undefined]), the
    empty string, or any other falsy value, [generateQRCode] (in both
    builds) throws "Data to encode is required" and leaves the world as it
    found it: no call reached the environment, so no browser session was
    launched or touched and no page was created. *)
Theorem generateQRCode_requires_data (env : Env) (MINI_QR_URL : string)
    (options : Options) (w : World) :
  truthy (data options) = false →
  Gen2.generateQRCode env MINI_QR_URL options w
    = (Throw "Data to encode is required", w)
  ∧ Gen1.generateQRCode env MINI_QR_URL options w
    = (Throw "Data to encode is required", w).
Proof.
  intros H. unfold Gen2.generateQRCode, Gen1.generateQRCode, destructure.
  cbn. rewrite H. by split.
Qed.

Lemma generateQRCode_requires_data_witness :
  truthy (data no_options) = false
  ∧ truthy (JStr EmptyString) = false
  ∧ Gen2.generateQRCode happy url no_options world0
    = (Throw "Data to encode is required", world0)
  ∧ Gen1.generateQRCode happy url no_options world0
    = (Throw "Data to encode is required", world0).
Proof.
  split; [reflexivity|]. split; [reflexivity|].
  apply (generateQRCode_requires_data happy url no_options world0).
  reflexivity.
Defined.

(** ** The browser session *)

Lemma getBrowser_cached (env : Env) w b :
  browser w = Some b → getBrowser env w = (Ok b, w).
Proof. intros H. unfold getBrowser, gets, mbind, M_bind. by rewrite H. Qed.

Lemma getBrowser_launches (env : Env) w :
  browser w = None →
  env unit (trace w) (puppeteer_launch launch_args) = inr tt →
  getBrowser env w
  = (Ok (fresh w),
     set_browser (Some (fresh w))
       (add_session (fresh w) (log (puppeteer_launch launch_args) w))).
Proof.
  intros H E. unfold getBrowser, launch, call, gets, modify, mbind, M_bind, mret, M_ret.
  by rewrite H, E.
Qed.

Lemma getBrowser_launch_fails (env : Env) w e :
  browser w = None →
  env unit (trace w) (puppeteer_launch launch_args) = inl e →
  getBrowser env w = (Throw e, log (puppeteer_launch launch_args) w).
Proof.
  intros H E. unfold getBrowser, launch, call, gets, modify, mbind, M_bind.
  by rewrite H, E.
Qed.

Lemma getBrowser_one_session (env : Env) w r w' :
  getBrowser env w = (r, w') →
  (one_session w → one_session w') ∧ pages w' = pages w ∧ (fresh w ≤ fresh w')%nat
  ∧ match r with Ok b => browser w' = Some b | Throw _ => browser w' = browser w end.
Proof.
  unfold one_session. intros H.
  destruct (browser w) as [b|] eqn:Hb.
  - rewrite (getBrowser_cached env w b Hb) in H. inversion H; subst.
    rewrite Hb. auto.
  - destruct (env unit (trace w) (puppeteer_launch launch_args)) as [e|[]] eqn:E.
    + rewrite (getBrowser_launch_fails env w e Hb E) in H. inversion H; subst.
      cbn. rewrite Hb. auto.
    + rewrite (getBrowser_launches env w Hb E) in H. inversion H; subst.
      cbn. repeat split; auto with lia. by intros ->.
Qed.

Lemma newPage_inv (env : Env) b w r w' :
  newPage env b w = (r, w') →
  match env unit (trace w) (browser_newPage b) with
  | inl e => r = Throw e ∧ w' = log (browser_newPage b) w
  | inr _ => r = Ok (fresh w) ∧ w' = add_page (fresh w) (log (browser_newPage b) w)
  end.
Proof.
  unfold newPage, mbind, M_bind, call, gets, modify, mret, M_ret.
  destruct (env unit (trace w) (browser_newPage b)); by inversion 1.
Qed.

Lemma getBrowser_Throw_inv (env : Env) w e w' :
  getBrowser env w = (Throw e, w') →
  browser w = None
  ∧ env unit (trace w) (puppeteer_launch launch_args) = inl e
  ∧ w' = log (puppeteer_launch launch_args) w.
Proof.
  intros H. destruct (browser w) as [b|] eqn:Hb.
  - by rewrite (getBrowser_cached env w b Hb) in H.
  - destruct (env unit (trace w) (puppeteer_launch launch_args)) as [e'|[]] eqn:E.
    + rewrite (getBrowser_launch_fails env w e' Hb E) in H. by inversion H.
    + by rewrite (getBrowser_launches env w Hb E) in H.
Qed.

Lemma getBrowser_Ok_inv (env : Env) w b w' :
  getBrowser env w = (Ok b, w') →
  browser w' = Some b
  ∧ (browser w = Some b ∧ w' = w
     ∨ browser w = None
       ∧ env unit (trace w) (puppeteer_launch launch_args) = inr tt
       ∧ trace w' = Ev (puppeteer_launch launch_args) :: trace w).
Proof.
  intros H. destruct (browser w) as [b0|] eqn:Hb.
  - rewrite (getBrowser_cached env w b0 Hb) in H. inversion H; subst. auto.
  - destruct (env unit (trace w) (puppeteer_launch launch_args)) as [e'|[]] eqn:E.
    + by rewrite (getBrowser_launch_fails env w e' Hb E) in H.
    + rewrite (getBrowser_launches env w Hb E) in H. inversion H; subst. auto.
Qed.

(** C5. [getBrowser] is idempotent.  With a cached handle it returns that
    handle and does nothing else.  With no cached handle it launches: if
    the launch resolves, the new session is cached, it is the only live
    session, and the next call returns the same handle without launching;
    if the launch rejects, the error reaches the caller, the cached handle
    is still null, no session exists, and the next call launches again.  In
    every case at most one session exists afterwards. *)
Theorem getBrowser_idempotent (env : Env) (w : World) :
  one_session w →
  match browser w with
  | Some b => getBrowser env w = (Ok b, w)
  | None =>
    let w1 := log (puppeteer_launch launch_args) w in
    match env unit (trace w) (puppeteer_launch launch_args) with
    | inr _ =>
      let b := fresh w in
      let w2 := set_browser (Some b) (add_session b w1) in
      getBrowser env w = (Ok b, w2)
      ∧ browser w2 = Some b
      ∧ sessions w2 = [b]
      ∧ getBrowser env w2 = (Ok b, w2)
    | inl e =>
      getBrowser env w = (Throw e, w1)
      ∧ browser w1 = None
      ∧ sessions w1 = []
      ∧ ∀ r w2, getBrowser env w1 = (r, w2) →
          trace w2 = Ev (puppeteer_launch launch_args) :: trace w1
    end
  end
  ∧ one_session (snd (getBrowser env w))
  ∧ (length (sessions (snd (getBrowser env w))) ≤ 1)%nat.
Proof.
  intros Hone. split.
  - destruct (browser w) as [b|] eqn:Hb.
    + by apply getBrowser_cached.
    + destruct (env unit (trace w) (puppeteer_launch launch_args)) as [e|[]] eqn:E.
      * split; [by apply getBrowser_launch_fails|].
        split; [done|]. split; [unfold one_session in Hone; by rewrite Hb in Hone|].
        intros r w2 H.
        destruct (env unit (trace (log (puppeteer_launch launch_args) w))
                    (puppeteer_launch launch_args)) as [e'|[]] eqn:E'.
        -- rewrite (getBrowser_launch_fails env _ e') in H by done.
           by inversion H.
        -- rewrite getBrowser_launches in H by done. by inversion H.
      * cbn. split; [by apply getBrowser_launches|].
        split; [done|]. split; [unfold one_session in Hone; by rewrite Hone, Hb|].
        by apply getBrowser_cached.
  - destruct (getBrowser env w) as [r w'] eqn:H.
    apply getBrowser_one_session in H as (H1 & _). specialize (H1 Hone).
    split; [done|]. cbn. rewrite H1. destruct (browser w'); cbn; lia.
Qed.

Lemma getBrowser_idempotent_witness :
  one_session world0
  ∧ getBrowser happy world0
    = (Ok 0%nat, set_browser (Some 0%nat)
                   (add_session 0%nat (log (puppeteer_launch launch_args) world0)))
  ∧ getBrowser (rejecting is_launch "Failed to launch the browser process" happy) world0
    = (Throw "Failed to launch the browser process",
       log (puppeteer_launch launch_args) world0).
Proof.
  split; [reflexivity|]. split.
  - exact (proj1 (proj1 (getBrowser_idempotent happy world0 eq_refl))).
  - exact (proj1 (proj1 (getBrowser_idempotent
             (rejecting is_launch "Failed to launch the browser process" happy)
             world0 eq_refl))).
Defined.

(** ** The routes *)

(** Header values stay valid under concatenation. *)
Lemma valid_header_value_app (s t : string) :
  valid_header_value s = true → valid_header_value t = true →
  valid_header_value (s ++ t) = true.
Proof.
  intros Hs Ht. revert Hs.
  assert (∀ n s, (String.length s ≤ n)%nat →
            valid_header_value s = true → valid_header_value (s ++ t) = true) as Hn.
  { clear s. induction n as [|n IH]; intros s Hlen Hs.
    - destruct s; [exact Ht | cbn in Hlen; lia].
    - destruct s as [|c s]; [exact Ht|].
      change (String c s ++ t) with (String c (s ++ t)).
      cbn [valid_header_value] in Hs |- *. cbn [String.length] in Hlen.
      destruct ((code c =? 9) || ((32 <=? code c) && (code c <=? 126)));
        [apply IH; [lia|done]|].
      destruct ((code c =? 194) || (code c =? 195)); [|done].
      destruct s as [|c2 s2]; [done|].
      change (String c2 s2 ++ t) with (String c2 (s2 ++ t)).
      apply andb_true_iff in Hs as [Hc Hs]. rewrite Hc. cbn [andb].
      cbn [String.length] in Hlen. apply IH; [lia|done]. }
  apply (Hn (String.length s)). lia.
Qed.

(** When the Content-Type of a format can be set, so can the
    Content-Disposition: both hold the same text. *)
Lemma disposition_valid (f : JsVal) :
  valid_header_value (contentTypeOf f) = true →
  valid_header_value
    ("attachment; filename=" ++ dquote ++ "qrcode." ++ String_ f ++ dquote) = true.
Proof.
  unfold contentTypeOf. destruct (strict_eq f "svg") eqn:Hsvg.
  - destruct f; try discriminate Hsvg. apply String.eqb_eq in Hsvg as ->. reflexivity.
  - intros H. change (valid_header_value (String_ f) = true) in H.
    change (valid_header_value (String_ f ++ dquote) = true).
    by apply valid_header_value_app.
Qed.

Lemma handle_unfold (gen : Options → M Bytes) (req : Request) (w : World) :
  handle gen req w =
  match gen (options_of req) w with
  | (Ok imageBuffer, w1) =>
    let format := js_or (format (options_of req)) (JStr "png") in
    if valid_header_value (contentTypeOf format) then
      (Ok (mkResponse 200
             (("Content-Type", contentTypeOf format) ::
              match req with
              | POST_generate _ =>
                [("Content-Disposition",
                  "attachment; filename=" ++ dquote ++ "qrcode."
                  ++ String_ format ++ dquote)]
              | GET_generate _ => []
              end)
             (Raw imageBuffer)), w1)
    else
      let e := "Invalid character in header content ["
               ++ dquote ++ "Content-Type" ++ dquote ++ "]" in
      (Ok (mkResponse 500 [] (Json [("error", e)])),
       log (console_error ("Error generating QR code: " ++ e)) w1)
  | (Throw e, w1) =>
    (Ok (mkResponse 500 [] (Json [("error", e)])),
     log (console_error ("Error generating QR code: " ++ e)) w1)
  end.
Proof.
  unfold handle.
  destruct req as [req_body|req_query]; cbn [options_of];
    unfold app_post_generate, app_get_generate, try_catch, mbind, Route_bind, await;
    destruct (gen _ w) as [[imageBuffer|e] w1]; cbn zeta; try reflexivity;
    unfold res_set at 1;
    destruct (valid_header_value (contentTypeOf _)) eqn:Hct; try reflexivity.
  unfold res_set. by rewrite (disposition_valid _ Hct).
Qed.

(** C6. Whenever [generateQRCode] throws on the options of a request to
    POST /generate or GET /generate, whatever the reason, the handler
    resolves (nothing escapes it, so the process goes on) with status 500
    and the JSON body [{error: <message of the error>}], after logging the
    error. *)
Theorem generate_error_is_500 (gen : Options → M Bytes) (req : Request)
    (w w1 : World) (e : string) :
  gen (options_of req) w = (Throw e, w1) →
  handle gen req w
  = (Ok (mkResponse 500 [] (Json [("error", e)])),
     log (console_error ("Error generating QR code: " ++ e)) w1).
Proof. intros H. rewrite handle_unfold, H. reflexivity. Qed.

Lemma generate_error_is_500_witness :
  handle (Gen2.generateQRCode happy url) (POST_generate no_options) world0
  = (Ok (mkResponse 500 [] (Json [("error", "Data to encode is required")])),
     log (console_error "Error generating QR code: Data to encode is required") world0)
  ∧ handle (Gen2.generateQRCode happy url) (GET_generate ∅) world0
  = (Ok (mkResponse 500 [] (Json [("error", "Data to encode is required")])),
     log (console_error "Error generating QR code: Data to encode is required") world0).
Proof.
  split.
  - apply (generate_error_is_500 (Gen2.generateQRCode happy url)
             (POST_generate no_options) world0 world0). reflexivity.
  - apply (generate_error_is_500 (Gen2.generateQRCode happy url)
             (GET_generate ∅) world0 world0). reflexivity.
Defined.

(** C7. On a successful generation with format svg, png or jpeg (or no
    format, which counts as png), the response has status 200, the bytes as
    body and Content-Type image/svg+xml, image/png or image/jpeg
    respectively; POST /generate also sets
    Content-Disposition: attachment; filename="qrcode.<format>", and
    GET /generate sets no other header. *)
Theorem generate_success_headers (gen : Options → M Bytes) (req : Request)
    (w w1 : World) (bytes : Bytes) (fmt : string) :
  gen (options_of req) w = (Ok bytes, w1) →
  fmt ∈ ["svg"; "png"; "jpeg"] →
  format (options_of req) = JStr fmt
  ∨ (format (options_of req) = JUndefined ∧ fmt = "png") →
  handle gen req w
  = (Ok (mkResponse 200
           match req with
           | POST_generate _ =>
             [("Content-Type", media_type fmt);
              ("Content-Disposition",
               "attachment; filename=" ++ dquote ++ "qrcode." ++ fmt ++ dquote)]
           | GET_generate _ => [("Content-Type", media_type fmt)]
           end
           (Raw bytes)), w1).
Proof.
  intros H Hfmt Hf. rewrite handle_unfold, H.
  assert (js_or (format (options_of req)) (JStr "png") = JStr fmt) as ->.
  { destruct Hf as [->|[-> ->]]; [|done].
    set_unfold. by destruct Hfmt as [->|[->|[->|[]]]]. }
  assert (contentTypeOf (JStr fmt) = media_type fmt
          ∧ valid_header_value (media_type fmt) = true) as [Hct Hvalid].
  { set_unfold. by destruct Hfmt as [->|[->|[->|[]]]]. }
  cbn zeta. rewrite Hct, Hvalid. by destruct req.
Qed.

Lemma generate_success_headers_witness :
  handle (Gen2.generateQRCode happy url)
    (POST_generate (with_format "hi" (JStr "svg"))) world0
  = (Ok (mkResponse 200
           [("Content-Type", "image/svg+xml");
            ("Content-Disposition",
             "attachment; filename=" ++ dquote ++ "qrcode.svg" ++ dquote)]
           (Raw (list_byte_of_string "<svg></svg>"))),
     snd (Gen2.generateQRCode happy url (with_format "hi" (JStr "svg")) world0))
  ∧ header "Content-Disposition"
      (mkResponse 200 [("Content-Type", media_type "png")] NoBody) = None.
Proof.
  split; [|reflexivity].
  apply (generate_success_headers (Gen2.generateQRCode happy url)
           (POST_generate (with_format "hi" (JStr "svg"))) world0 _ _ "svg").
  - vm_compute. reflexivity.
  - set_solver.
  - left. reflexivity.
Defined.

(** ** Numeric query parameters *)

Lemma parseInt_number (s : string) : parseInt s ≠ JUndefined.
Proof.
  unfold parseInt.
  destruct (match skip_ws s with
            | String "-" r => (-1, r) | String "+" r => (1, r) | _ => (1, skip_ws s)
            end) as [sign s2].
  destruct (match s2 with
            | String "0" (String "x" r) => (16, r)
            | String "0" (String "X" r) => (16, r)
            | _ => (10, s2)
            end) as [radix s3].
  destruct (parse_digits radix s3 None) as [n|]; [|done].
  unfold number. by destruct (nearest_double _).
Qed.

Lemma withDefault_parseInt (d : JsVal) (s : string) :
  withDefault d (parseInt s) = parseInt s.
Proof. pose proof (parseInt_number s). by destruct (parseInt s). Qed.

Lemma parseInt_letter (c : ascii) (s : string) :
  is_letter c = true → parseInt (String c s) = JNaN.
Proof.
  intros H. destruct c as [b0 b1 b2 b3 b4 b5 b6 b7].
  destruct b0, b1, b2, b3, b4, b5, b6, b7; try discriminate H;
    destruct s as [|c2 [|c3 s]]; reflexivity.
Qed.

Lemma query_int_unfold (q : gmap string string) (name : string) :
  query_int q name =
  match q !! name with
  | None | Some EmptyString => JUndefined
  | Some s => parseInt s
  end.
Proof.
  unfold query_int, query_param. destruct (q !! name) as [[|c s]|]; reflexivity.
Qed.

(** C10. On GET /generate, each of width, height, borderRadius, margin and
    imageMargin is [parseInt] of the raw query value when that value is a
    non-empty string and [undefined] otherwise.  Hence an absent or empty
    parameter takes the default of [generateQRCode]; the value "0" stays
    the number 0; and a string that starts with a letter becomes [NaN],
    which [generateQRCode] keeps as the value of the field and writes into
    the control as the text "NaN". *)
Theorem numeric_query_params (q : gmap string string) (name : string)
    (field : Options → JsVal) (dflt : Z) :
  (name, field, dflt) ∈ numeric_fields →
  let raw := q !! name in
  let passed := field (query_options q) in
  let used := field (destructure (query_options q)) in
  match raw with
  | None | Some EmptyString => passed = JUndefined ∧ used = JNum dflt
  | Some s => passed = parseInt s ∧ used = parseInt s
  end
  ∧ (raw = Some "0" → used = JNum 0)
  ∧ (∀ c s, raw = Some (String c s) → is_letter c = true →
       used = JNaN ∧ String_ used = "NaN"
       ∧ ∀ (env : Env) page id el w,
           env _ (trace w) (page_query page ("#" ++ id)) = inr (Some el) →
           Gen2.setInputById env page id used w
           = call env (eval_setValue page el (JStr "NaN")) (log (page_query page ("#" ++ id)) w)).
Proof.
  intros Hin.
  assert (field (query_options q) = query_int q name
          ∧ field (destructure (query_options q))
            = withDefault (JNum dflt) (query_int q name)) as [Hp Hu].
  { unfold numeric_fields in Hin. set_unfold.
    destruct Hin as [H|[H|[H|[H|[H|[]]]]]]; by inversion H. }
  cbn zeta. rewrite Hp, Hu, query_int_unfold.
  split; [|split].
  - destruct (q !! name) as [[|c s]|]; try done.
    by rewrite withDefault_parseInt.
  - by intros ->.
  - intros c s -> Hc. rewrite withDefault_parseInt, parseInt_letter by done.
    split; [done|]. split; [done|].
    intros env page id el w E.
    unfold Gen2.setInputById, mbind, M_bind, call at 1. by rewrite E.
Qed.

Lemma numeric_query_params_witness :
  width (destructure (query_options {["data" := "x"; "width" := "abc"]})) = JNaN
  ∧ height (destructure (query_options {["data" := "x"; "width" := "abc"]})) = JNum 300
  ∧ margin (destructure (query_options {["data" := "x"; "margin" := "0"]})) = JNum 0.
Proof.
  split; [|split].
  - refine (proj1 (proj2 (proj2 (numeric_query_params
             {["data" := "x"; "width" := "abc"]} "width" width 300 _)) "a"%char "bc" _ _));
      [set_solver | reflexivity | reflexivity].
  - refine (proj2 (proj1 (numeric_query_params
             {["data" := "x"; "width" := "abc"]} "height" height 300 _)));
      set_solver.
  - refine (proj1 (proj2 (numeric_query_params
             {["data" := "x"; "margin" := "0"]} "margin" margin 10 _)) _);
      [set_solver | reflexivity].
Defined.

(** ** Direct capture (generation 1) *)

Lemma capture_inv (env : Env) page format w r w' :
  Gen1.capture env page format w = (r, w') →
  let w1 := log (page_query page "#element-to-export") w in
  match env _ (trace w) (page_query page "#element-to-export") with
  | inl e => r = Throw e ∧ w' = w1
  | inr None => r = Throw "QR code element not found" ∧ w' = w1
  | inr (Some container) =>
    if strict_eq format "svg" then
      let w2 := log (eval_outerHTML page "#element-to-export svg") w1 in
      w' = w2 ∧
      match env _ (trace w1) (eval_outerHTML page "#element-to-export svg") with
      | inl e => r = Throw e
      | inr None | inr (Some EmptyString) => r = Throw "SVG element not found"
      | inr (Some markup) => r = Ok (list_byte_of_string markup)
      end
    else
      let type := if strict_eq format "png" then "png" else "jpeg" in
      w' = log (handle_screenshot container type) w1 ∧
      match env _ (trace w1) (handle_screenshot container type) with
      | inl e => r = Throw e
      | inr bytes => r = Ok bytes
      end
  end.
Proof.
  unfold Gen1.capture, mbind, M_bind, call at 1.
  destruct (env _ (trace w) (page_query page "#element-to-export"))
    as [e|[container|]]; cbn zeta; [by inversion 1| |by inversion 1].
  destruct (strict_eq format "svg"); unfold call.
  - change (trace (log (page_query page "#element-to-export") w))
      with (Ev (page_query page "#element-to-export") :: trace w).
    destruct (env _ _ (eval_outerHTML page "#element-to-export svg"))
      as [e|[[|c markup]|]]; by inversion 1.
  - change (trace (log (page_query page "#element-to-export") w))
      with (Ev (page_query page "#element-to-export") :: trace w).
    destruct (env _ _ (handle_screenshot _ _)) as [e|bytes]; by inversion 1.
Qed.

(** A run of the direct-capture build that returned bytes for a format
    other than svg ended with three calls: the lookup of the export
    container, the screenshot of the element it gave, and [page.close()].
    The bytes are what the screenshot gave. *)
Lemma Gen1_generateQRCode_raster (env : Env) (MINI_QR_URL : string)
    options w bytes w' :
  strict_eq (format (destructure options)) "svg" = false →
  Gen1.generateQRCode env MINI_QR_URL options w = (Ok bytes, w') →
  let type := if strict_eq (format (destructure options)) "png" then "png" else "jpeg" in
  ∃ page container history,
    (∃ new, history = (new ++ trace w)%list)
    ∧ trace w' = Ev (page_close page)
                 :: Ev (handle_screenshot container type)
                 :: Ev (page_query page "#element-to-export") :: history
    ∧ env _ history (page_query page "#element-to-export") = inr (Some container)
    ∧ env _ (Ev (page_query page "#element-to-export") :: history)
        (handle_screenshot container type) = inr bytes.
Proof.
  intros Hsvg H type.
  apply Gen1_generateQRCode_Ok in H as (p & wa & wb & _ & H & Hext & Hclose).
  apply capture_inv in H. cbn zeta in H.
  destruct (env _ (trace wa) (page_query p "#element-to-export"))
    as [e|[container|]] eqn:Eq; [by destruct H| |by destruct H].
  rewrite Hsvg in H. fold type in H. destruct H as [-> H].
  change (trace (log (page_query p "#element-to-export") wa))
    with (Ev (page_query p "#element-to-export") :: trace wa) in H.
  destruct (env _ _ (handle_screenshot container type)) eqn:E; [done|].
  inversion H; subst. exists p, container, (trace wa).
  split; [exact Hext|]. by rewrite Hclose.
Qed.

(** C8. In the direct-capture build with format svg: when the export
    container is absent the call fails with "QR code element not found";
    when the container is there but holds no vector markup it fails with
    "SVG element not found"; otherwise the markup serialized from the DOM
    is returned as its UTF-8 bytes.  So whenever [generateQRCode] returns
    bytes for format svg, they are the bytes of the non-empty markup the
    page gave for the svg element inside the export container. *)
Theorem svg_is_serialized_from_the_container (env : Env) (MINI_QR_URL : string)
    (page : Page) (w : World) :
  let find_container := page_query page "#element-to-export" in
  let serialize := eval_outerHTML page "#element-to-export svg" in
  let w1 := log find_container w in
  let w2 := log serialize w1 in
  (env _ (trace w) find_container = inr None →
     Gen1.capture env page (JStr "svg") w = (Throw "QR code element not found", w1))
  ∧ (∀ container,
       env _ (trace w) find_container = inr (Some container) →
       env _ (trace w1) serialize = inr None →
       Gen1.capture env page (JStr "svg") w = (Throw "SVG element not found", w2))
  ∧ (∀ container markup,
       env _ (trace w) find_container = inr (Some container) →
       env _ (trace w1) serialize = inr (Some markup) →
       markup ≠ EmptyString →
       Gen1.capture env page (JStr "svg") w = (Ok (list_byte_of_string markup), w2))
  ∧ (∀ options bytes w',
       format options = JStr "svg" →
       Gen1.generateQRCode env MINI_QR_URL options w = (Ok bytes, w') →
       ∃ p tr markup,
         env _ tr (eval_outerHTML p "#element-to-export svg") = inr (Some markup)
         ∧ markup ≠ EmptyString
         ∧ bytes = list_byte_of_string markup).
Proof.
  cbn zeta. repeat split.
  - intros E. destruct (Gen1.capture env page (JStr "svg") w) as [r w'] eqn:H.
    apply capture_inv in H. cbn zeta in H. rewrite E in H. by destruct H as [-> ->].
  - intros container E1 E2.
    destruct (Gen1.capture env page (JStr "svg") w) as [r w'] eqn:H.
    apply capture_inv in H. cbn zeta in H. rewrite E1 in H. cbn in H, E2.
    rewrite E2 in H. by destruct H as [-> ->].
  - intros container markup E1 E2 Hne.
    destruct (Gen1.capture env page (JStr "svg") w) as [r w'] eqn:H.
    apply capture_inv in H. cbn zeta in H. rewrite E1 in H. cbn in H, E2.
    rewrite E2 in H. destruct markup; [done|]. by destruct H as [-> ->].
  - intros options bytes w' Hf H.
    apply Gen1_generateQRCode_Ok in H as (p & wa & wb & _ & H & _ & _).
    cbn in H. rewrite Hf in H. cbn in H.
    apply capture_inv in H. cbn zeta in H.
    destruct (env _ (trace wa) (page_query p "#element-to-export"))
      as [e|[container|]]; [by destruct H| |by destruct H].
    cbn in H. destruct H as [_ H].
    destruct (env _ _ (eval_outerHTML p "#element-to-export svg"))
      as [e|[[|c markup]|]] eqn:E; try done.
    inversion H; subst. by eexists p, _, _.
Qed.

Lemma svg_is_serialized_from_the_container_witness :
  fst (Gen1.generateQRCode happy url (with_format "hi" (JStr "svg")) world0)
  = Ok (list_byte_of_string "<svg></svg>")
  ∧ ∃ p tr markup,
      happy _ tr (eval_outerHTML p "#element-to-export svg") = inr (Some markup)
      ∧ markup ≠ EmptyString
      ∧ list_byte_of_string "<svg></svg>" = list_byte_of_string markup.
Proof.
  split; [vm_compute; reflexivity|].
  apply (proj2 (proj2 (proj2 (svg_is_serialized_from_the_container happy url 0%nat world0)))
           (with_format "hi" (JStr "svg")) _
           (snd (Gen1.generateQRCode happy url (with_format "hi" (JStr "svg")) world0))).
  - reflexivity.
  - vm_compute. reflexivity.
Defined.

(** ** Download and read (generation 2) *)

Lemma append_inv_head (p a b : string) : p ++ a = p ++ b → a = b.
Proof. induction p as [|c p IH]; cbn; [done|]. intros H. inversion H. auto. Qed.

Lemma is_path_name (name : string) (f : File) :
  is_path (path_join Gen2.downloadPath name) f = true ↔ fst f = name.
Proof.
  unfold is_path, path_join, Gen2.downloadPath, download_dir.
  rewrite String.eqb_eq. split.
  - intros H. by do 2 apply append_inv_head in H.
  - by intros ->.
Qed.

Lemma gets_inv {A : Type} (f : World → A) w r w' :
  gets f w = (r, w') → r = Ok (f w) ∧ w' = w.
Proof. by inversion 1. Qed.

Lemma readFile_Ok (env : Env) path w bytes w' :
  readFile env path w = (Ok bytes, w') →
  downloads w' = downloads w
  ∧ ∃ f, List.find (is_path path) (downloads w) = Some f ∧ bytes = snd f.
Proof.
  unfold readFile. intros H.
  apply bind_Ok_inv in H as ([] & w1 & H1 & H). apply call_inv in H1 as [-> _].
  apply bind_Ok_inv in H as (found & w2 & H2 & H).
  apply gets_inv in H2 as [[= ->] ->].
  change (downloads (log (fs_readFile path) w)) with (downloads w) in H.
  destruct (List.find (is_path path) (downloads w)) as [f|]; inversion H; subst.
  split; [done|]. by exists f.
Qed.

Lemma unlink_Ok (env : Env) path w u w' :
  unlink env path w = (Ok u, w') →
  downloads w' = filter (λ f, negb (is_path path f)) (downloads w).
Proof.
  unfold unlink. intros H.
  apply bind_Ok_inv in H as ([] & w1 & H1 & H). apply call_inv in H1 as [-> _].
  apply bind_Ok_inv in H as (present & w2 & H2 & H).
  apply gets_inv in H2 as [[= ->] ->].
  change (downloads (log (fs_unlink path) w)) with (downloads w) in H.
  destruct (existsb (is_path path) (downloads w)); by inversion H.
Qed.

Lemma readArtifact_none (env : Env) format files w :
  Forall (λ name, endsWith name ("." ++ Gen2.extension format) = false) files →
  Gen2.readArtifact env format files w = (Throw "Download failed - no file found", w).
Proof.
  intros Hall. unfold Gen2.readArtifact.
  destruct (List.find _ files) as [name|] eqn:Hfind; [|done].
  apply find_some in Hfind as [Hin Hends].
  rewrite Forall_forall in Hall. apply list_elem_of_In, Hall in Hin. congruence.
Qed.

Lemma readArtifact_Ok (env : Env) format files w bytes w' :
  Gen2.readArtifact env format files w = (Ok bytes, w') →
  ∃ name,
    List.find (λ f, endsWith f ("." ++ Gen2.extension format)) files = Some name
    ∧ (∃ f, List.find (is_path (path_join Gen2.downloadPath name)) (downloads w) = Some f
            ∧ fst f = name ∧ bytes = snd f)
    ∧ name ∉ map fst (downloads w').
Proof.
  unfold Gen2.readArtifact.
  destruct (List.find _ files) as [name|] eqn:Hfind; [|discriminate].
  intros H. exists name. split; [done|].
  apply bind_Ok_inv in H as (buf & w1 & Hread & H).
  apply readFile_Ok in Hread as (Hd & f & Hf & ->).
  apply bind_Ok_inv in H as (u & w2 & Hun & H).
  apply unlink_Ok in Hun. inversion H; subst. split.
  - exists f. split; [done|]. split; [|done].
    apply find_some in Hf as [_ Hf]. by apply is_path_name.
  - rewrite Hun. intros Hin. apply list_elem_of_fmap in Hin as (g & Hg & Hin).
    apply list_elem_of_filter in Hin as [Hneg _].
    symmetry in Hg. apply is_path_name in Hg. rewrite Hg in Hneg. done.
Qed.

(** What the listing holds when the download step returns: the names of
    what was in the directory and of what the click on the export control
    of the format has put there, sorted. *)
Lemma triggerDownload_Ok (env : Env) page format w files w' :
  Gen2.triggerDownload env page format w = (Ok files, w') →
  files = merge_sort name_le (map fst (downloads w'))
  ∧ ∃ landed,
      answered env w w' (page_click page ("#" ++ Gen2.buttonId format)) landed
      ∧ downloads w' = (downloads w ++ landed)%list.
Proof.
  unfold Gen2.triggerDownload. intros H.
  do 3 (apply bind_Ok_inv in H as ([] & ? & Hc & H); apply call_inv in Hc as [-> _]).
  apply bind_Ok_inv in H as ([] & w1 & Hclick & H).
  unfold click in Hclick.
  apply bind_Ok_inv in Hclick as (landed & w2 & Hc & Hclick).
  apply call_inv in Hc as [-> E]. inversion Hclick; subst; clear Hclick.
  apply bind_Ok_inv in H as ([] & w3 & Hc & H). inversion Hc; subst; clear Hc.
  unfold readdir in H.
  apply bind_Ok_inv in H as ([] & w4 & Hc & H). apply call_inv in Hc as [-> _].
  change (String.eqb Gen2.downloadPath download_dir) with true in H.
  apply gets_inv in H as [[= ->] ->]. split; [done|]. exists landed. split; [|done].
  unfold answered. cbn.
  by eexists [_; _; _], [_; _].
Qed.

Lemma Gen2_generateQRCode_artifact (env : Env) (MINI_QR_URL : string)
    options w bytes w' :
  Gen2.generateQRCode env MINI_QR_URL options w = (Ok bytes, w') →
  ∃ name landed,
    (∃ page,
       answered env w w'
         (page_click page ("#" ++ Gen2.buttonId (format (destructure options)))) landed)
    ∧ endsWith name ("." ++ Gen2.extension (format (destructure options))) = true
    ∧ (name, bytes) ∈ (downloads w ++ landed)%list
    ∧ name ∉ map fst (downloads w').
Proof.
  intros H.
  apply Gen2_generateQRCode_Ok in H as (page & w1 & w2 & _ & H & Hd1 & Hd2 & Ht1 & Ht2).
  unfold Gen2.download in H.
  apply bind_Ok_inv in H as (files & w3 & Ht & H).
  apply triggerDownload_Ok in Ht as (-> & landed & E & Hland).
  pose proof H as Ht3.
  apply extends_run in Ht3; [|unfold Gen2.readArtifact, readFile, unlink; emits].
  apply readArtifact_Ok in H as (name & Hfind & (f & Hf & Hname & ->) & Hgone).
  exists name, landed. split.
  { exists page. eapply answered_frame; [exact Ht1| |exact E].
    by eapply extends_trans. }
  split; [|split].
  - by apply find_some in Hfind as [_ ?].
  - rewrite <- Hd1, <- Hland. apply find_some in Hf as [Hin _].
    apply list_elem_of_In in Hin. by destruct f; simplify_eq/=.
  - by rewrite Hd2.
Qed.

(** C3, as amended.  In the download-and-read build the file looked for is
    the first entry of the listing of the download directory that ends in
    ".<format>", with ".jpg" for format jpeg.  If the scan finds none, the
    call fails with "Download failed - no file found".  Otherwise the file
    is read and then deleted: whenever bytes are returned, they are the
    contents of a file of that ending, one that was in the directory or
    that the click on the export control of the format downloaded, and no
    file of that name is left in the directory.  Nothing is promised about
    the directory when the read or the delete fails. *)
Theorem downloaded_file_is_read_then_deleted (env : Env) (MINI_QR_URL : string) :
  Gen2.extension (JStr "jpeg") = "jpg"
  ∧ Gen2.extension (JStr "png") = "png"
  ∧ Gen2.extension (JStr "svg") = "svg"
  ∧ (∀ format files w,
       Forall (λ name, endsWith name ("." ++ Gen2.extension format) = false) files →
       Gen2.readArtifact env format files w
       = (Throw "Download failed - no file found", w))
  ∧ (∀ format files w bytes w',
       Gen2.readArtifact env format files w = (Ok bytes, w') →
       ∃ name,
         List.find (λ f, endsWith f ("." ++ Gen2.extension format)) files = Some name
         ∧ (∃ f, List.find (is_path (path_join Gen2.downloadPath name)) (downloads w)
                 = Some f ∧ fst f = name ∧ bytes = snd f)
         ∧ name ∉ map fst (downloads w'))
  ∧ (∀ options w bytes w',
       Gen2.generateQRCode env MINI_QR_URL options w = (Ok bytes, w') →
       ∃ name landed,
         (∃ page,
            answered env w w'
              (page_click page ("#" ++ Gen2.buttonId (format (destructure options))))
              landed)
         ∧ endsWith name ("." ++ Gen2.extension (format (destructure options))) = true
         ∧ (name, bytes) ∈ (downloads w ++ landed)%list
         ∧ name ∉ map fst (downloads w')).
Proof.
  do 3 (split; [reflexivity|]).
  split; [intros; by apply readArtifact_none|].
  split; [intros; by eapply readArtifact_Ok|].
  intros options w bytes w' H. by eapply Gen2_generateQRCode_artifact.
Qed.

Lemma downloaded_file_is_read_then_deleted_witness :
  fst (Gen2.generateQRCode happy url (with_format "hi" (JStr "jpeg")) world0)
  = Ok (list_byte_of_string "JPG bytes")
  ∧ ∃ name landed,
      (∃ page,
         answered happy world0
           (snd (Gen2.generateQRCode happy url (with_format "hi" (JStr "jpeg")) world0))
           (page_click page "#download-qr-image-button-jpg") landed)
      ∧ endsWith name ".jpg" = true
      ∧ (name, list_byte_of_string "JPG bytes") ∈ (downloads world0 ++ landed)%list
      ∧ name ∉ map fst (downloads
          (snd (Gen2.generateQRCode happy url (with_format "hi" (JStr "jpeg")) world0))).
Proof.
  split; [vm_compute; reflexivity|].
  apply (proj2 (proj2 (proj2 (proj2 (proj2
           (downloaded_file_is_read_then_deleted happy url)))))
           (with_format "hi" (JStr "jpeg")) world0).
  vm_compute. reflexivity.
Defined.

(** C3 as stated fails: when the read step is refused, the error reaches
    the caller and the downloaded file stays in the download directory,
    which was empty before the call. *)
Lemma read_failure_leaves_the_download :
  Gen2.generateQRCode read_refused url (with_format "hi" (JStr "jpeg")) world0
  = (Throw "EACCES: permission denied", after_refused_read)
  ∧ downloads world0 = []
  ∧ downloads after_refused_read = [("qr-code.jpg", list_byte_of_string "JPG bytes")]
  ∧ downloads after_refused_read ≠ downloads world0.
Proof. vm_compute. repeat split. discriminate. Qed.

(** ** Runs in which nothing rejects *)

Lemma returns_ret {A : Type} (a : A) (P : A → Prop) : P a → returns (mret a) P.
Proof. intros Ha w r w' H. inversion H. eauto. Qed.

Lemma returns_gets {A : Type} (f : World → A) : returns (gets f) (λ _, True).
Proof. intros w r w' H. inversion H. eauto. Qed.

Lemma returns_modify (f : World → World) : returns (modify f) (λ _, True).
Proof. intros w r w' H. inversion H. eauto. Qed.

Lemma returns_emit {A : Type} (c : Call A) : returns (emit c) (λ _, True).
Proof. intros w r w' H. inversion H. eauto. Qed.

Lemma returns_bind {A B : Type} (m : M A) (f : A → M B) (P : A → Prop) (Q : B → Prop) :
  returns m P → (∀ a, P a → returns (f a) Q) → returns (m ≫= f) Q.
Proof.
  intros Hm Hf w r w' H.
  apply bind_inv in H as [(a & w1 & H1 & H2)|(e & H1 & ->)].
  - apply Hm in H1 as (a' & [= <-] & Ha). by apply (Hf a Ha) in H2.
  - by apply Hm in H1 as (a' & [=] & _).
Qed.

Lemma returns_seq {A B : Type} (m : M A) (f : A → M B) (Q : B → Prop) :
  returns m (λ _, True) → (∀ a, returns (f a) Q) → returns (m ≫= f) Q.
Proof. intros Hm Hf. apply (returns_bind m f (λ _, True)); auto. Qed.

Lemma returns_call_with (env : Env) {A : Type} (c : Call A) (P : A → Prop) :
  (∀ tr, ∃ a, env A tr c = inr a ∧ P a) → returns (call env c) P.
Proof.
  intros Hc w r w' H. apply call_inv in H as [_ H].
  destruct (Hc (trace w)) as (a & E & Ha). rewrite E in H.
  destruct r; [|discriminate H]. injection H as <-. eauto.
Qed.

Lemma returns_call (env : Env) {A : Type} (c : Call A) :
  never_rejects env → returns (call env c) (λ _, True).
Proof.
  intros Hres. apply returns_call_with. intros tr.
  destruct (Hres A tr c) as [a E]. eauto.
Qed.

Lemma returns_when (c : bool) (m : M unit) :
  returns m (λ _, True) → returns (when c m) (λ _, True).
Proof. destruct c; [done | intros _; by apply returns_ret]. Qed.

Lemma returns_try_finally {A : Type} (body : M A) (fin : M unit) (P : A → Prop) :
  returns body P → returns fin (λ _, True) → returns (try_finally body fin) P.
Proof.
  intros Hb Hf w r w' H. unfold try_finally in H.
  destruct (body w) as [r1 w1] eqn:H1. destruct (fin w1) as [r2 w2] eqn:H2.
  apply Hb in H1 as (a & -> & Ha). apply Hf in H2 as ([] & -> & _).
  inversion H. eauto.
Qed.

(** A step that returns can be peeled off a run, whatever the run's
    outcome. *)
Lemma bind_returns_inv {A B : Type} (m : M A) (f : A → M B) (P : A → Prop) w r w' :
  returns m P → (m ≫= f) w = (r, w') →
  ∃ a w1, m w = (Ok a, w1) ∧ P a ∧ f a w1 = (r, w').
Proof.
  intros Hm H. apply bind_inv in H as [(a & w1 & H1 & H2)|(e & H1 & ->)].
  - destruct (Hm _ _ _ H1) as (a' & [= <-] & Ha). eauto.
  - by destruct (Hm _ _ _ H1) as (a' & [=] & _).
Qed.

Create HintDb returns.

(** Break a goal [returns m (λ _, True)] down along the structure of [m]. *)
Ltac returns :=
  repeat first
    [ solve [auto with returns]
    | apply returns_seq; [ | intros ? ]
    | apply returns_call; assumption
    | apply returns_emit
    | apply returns_ret; exact I
    | apply returns_gets
    | apply returns_modify
    | apply returns_when
    | match goal with
      | |- returns (match ?x with _ => _ end) _ => destruct x
      end ].

Section Returns.
Context (env : Env) (Hres : never_rejects env).

Lemma returns_getBrowser : returns (getBrowser env) (λ _, True).
Proof using Hres. unfold getBrowser, launch. returns. Qed.

Lemma returns_newPage b : returns (newPage env b) (λ _, True).
Proof using Hres. unfold newPage. returns. Qed.

Lemma returns_close page : returns (close env page) (λ _, True).
Proof using Hres. unfold close. returns. Qed.

Lemma returns_setInputById page id value :
  returns (Gen2.setInputById env page id value) (λ _, True).
Proof using Hres. unfold Gen2.setInputById. returns. Qed.

Lemma returns_setColorById page id color :
  returns (Gen2.setColorById env page id color) (λ _, True).
Proof using Hres. unfold Gen2.setColorById. returns. Qed.

Lemma returns_selectRadioById page id :
  returns (Gen2.selectRadioById env page id) (λ _, True).
Proof using Hres. unfold Gen2.selectRadioById. returns. Qed.

Lemma returns_setEnum2 page field value :
  returns (Gen2.setEnum env page field value) (λ _, True).
Proof using Hres.
  destruct field; cbn;
    unfold Gen2.setDotType, Gen2.setCornerSquareType, Gen2.setCornerDotType,
      Gen2.setErrorCorrectionLevel;
    apply returns_when, returns_selectRadioById.
Qed.

Lemma returns_selectRadioOption page optionValue :
  returns (Gen1.selectRadioOption env page optionValue) (λ _, True).
Proof using Hres.
  unfold Gen1.selectRadioOption. apply returns_seq; [returns|].
  intros labels. induction labels as [|label rest IH]; cbn; [returns|].
  apply returns_seq; [returns|]. intros text.
  destruct (Gen1.text_is text optionValue); [returns|done].
Qed.

Lemma returns_expandAccordion_for page accordionButtons :
  returns (Gen1.expandAccordion_for env page accordionButtons) (λ _, True).
Proof using Hres. induction accordionButtons as [|btn rest IH]; cbn; returns. Qed.

Lemma returns_setEnum1 page field value :
  returns (Gen1.setEnum env page field value) (λ _, True).
Proof using Hres.
  destruct field; cbn;
    unfold Gen1.setDotType, Gen1.setCornerSquareType, Gen1.setCornerDotType,
      Gen1.setErrorCorrectionLevel;
    apply returns_when, returns_selectRadioOption.
Qed.

Context (Hpage : page_is_complete env).

Lemma returns_closest label sel :
  returns (call env (handle_closest label sel)) is_Some.
Proof using Hpage.
  apply returns_call_with. intros tr.
  destruct Hpage as (_ & Hclosest & _). destruct (Hclosest tr label sel) as [h E]. eauto.
Qed.

Lemma returns_setColorInput page labelText color :
  returns (Gen1.setColorInput env page labelText color) (λ _, True).
Proof using Hres Hpage.
  unfold Gen1.setColorInput. apply returns_seq; [returns|].
  intros labels. induction labels as [|label rest IH]; cbn; [returns|].
  apply returns_seq; [returns|]. intros text.
  destruct (includes text labelText); [|done].
  eapply returns_bind; [apply returns_closest|]. intros parent [h ->]. cbn.
  returns.
Qed.

Lemma returns_setTextInputByLabel page labelText value :
  returns (Gen1.setTextInputByLabel env page labelText value) (λ _, True).
Proof using Hres Hpage.
  unfold Gen1.setTextInputByLabel. apply returns_seq; [returns|].
  intros labels. induction labels as [|label rest IH]; cbn; [returns|].
  apply returns_seq; [returns|]. intros text.
  destruct (includes text labelText); [|done].
  eapply returns_bind; [apply returns_closest|]. intros parent [h ->]. cbn.
  returns.
Qed.

Lemma returns_capture page format :
  returns (Gen1.capture env page format) (λ _, True).
Proof using Hres Hpage.
  unfold Gen1.capture. destruct Hpage as (Hquery & _ & Hhtml).
  eapply (returns_bind _ _ is_Some).
  { apply returns_call_with. intros tr.
    destruct (Hquery tr page "#element-to-export") as [h E]. eauto. }
  intros qrContainer [container ->].
  destruct (strict_eq format "svg"); [|returns].
  eapply (returns_bind _ _ (λ svgContent, ∃ markup,
            svgContent = Some markup ∧ markup ≠ EmptyString)).
  { apply returns_call_with. intros tr.
    destruct (Hhtml tr page "#element-to-export svg") as (markup & E & Hne). eauto. }
  intros svgContent (markup & -> & Hne).
  destruct markup as [|c markup]; [done|]. by apply returns_ret.
Qed.

End Returns.

#[global] Hint Resolve returns_getBrowser returns_newPage returns_close
  returns_setInputById returns_setColorById returns_selectRadioById returns_setEnum2
  returns_selectRadioOption returns_expandAccordion_for returns_setEnum1
  returns_setColorInput returns_setTextInputByLabel returns_capture : returns.

(** The download step, when nothing rejects. *)
Lemma triggerDownload_inv (env : Env) page format w r w' :
  never_rejects env →
  Gen2.triggerDownload env page format w = (r, w') →
  ∃ landed tr,
    env _ tr (page_click page ("#" ++ Gen2.buttonId format)) = inr landed
    ∧ downloads w' = (downloads w ++ landed)%list
    ∧ r = Ok (merge_sort name_le (map fst (downloads w'))).
Proof.
  intros Hres H. unfold Gen2.triggerDownload in H.
  do 3 (apply (bind_returns_inv _ _ (λ _, True)) in H as ([] & ? & Hc & _ & H);
        [|by apply returns_call]; apply call_inv in Hc as [-> _]).
  apply (bind_returns_inv _ _ (λ _, True)) in H as ([] & w1 & Hclick & _ & H);
    [|unfold click; returns].
  unfold click in Hclick.
  apply bind_Ok_inv in Hclick as (landed & w2 & Hc & Hm).
  apply call_inv in Hc as [-> E]. inversion Hm; subst; clear Hm.
  apply (bind_returns_inv _ _ (λ _, True)) in H as ([] & w3 & Hc & _ & H);
    [|apply returns_emit].
  inversion Hc; subst; clear Hc. unfold readdir in H.
  apply (bind_returns_inv _ _ (λ _, True)) in H as ([] & w4 & Hc & _ & H);
    [|by apply returns_call].
  apply call_inv in Hc as [-> _].
  change (String.eqb Gen2.downloadPath download_dir) with true in H.
  apply gets_inv in H as [-> ->]. by eexists landed, _.
Qed.

Lemma find_is_path (name : string) (files : list File) :
  name ∈ map fst files →
  ∃ f, List.find (is_path (path_join Gen2.downloadPath name)) files = Some f.
Proof.
  intros Hin. apply list_elem_of_fmap in Hin as (f & -> & Hin).
  destruct (List.find _ files) as [g|] eqn:Hfind; [eauto|].
  apply list_elem_of_In in Hin. apply (find_none _ _ Hfind) in Hin.
  by rewrite (proj2 (is_path_name (fst f) f) eq_refl) in Hin.
Qed.

Lemma readArtifact_finds (env : Env) format w name :
  never_rejects env →
  name ∈ map fst (downloads w) →
  endsWith name ("." ++ Gen2.extension format) = true →
  ∃ bytes w',
    Gen2.readArtifact env format (merge_sort name_le (map fst (downloads w))) w
    = (Ok bytes, w').
Proof.
  intros Hres Hin Hends. unfold Gen2.readArtifact.
  destruct (List.find _ (merge_sort name_le (map fst (downloads w))))
    as [found|] eqn:Hfind.
  - apply find_some in Hfind as [Hfound _]. apply list_elem_of_In in Hfound.
    rewrite merge_sort_Permutation in Hfound.
    destruct (find_is_path found (downloads w) Hfound) as [f Hf].
    destruct (Hres unit (trace w) (fs_readFile (path_join Gen2.downloadPath found)))
      as [[] Eread].
    destruct (Hres unit
                (trace (log (fs_readFile (path_join Gen2.downloadPath found)) w))
                (fs_unlink (path_join Gen2.downloadPath found))) as [[] Eunlink].
    assert (existsb (is_path (path_join Gen2.downloadPath found)) (downloads w) = true)
      as Hex.
    { apply existsb_exists. exists f. apply find_some in Hf as [? ?]. done. }
    unfold readFile, unlink, mbind, M_bind, call, gets, modify. cbv beta.
    rewrite Eread. cbn [downloads log]. rewrite Hf.
    cbn [mret M_ret trace log] in Eunlink |- *. rewrite Eunlink.
    cbn [downloads log]. rewrite Hex. eauto.
  - exfalso. assert (name ∈ merge_sort name_le (map fst (downloads w))) as Hin'
      by by rewrite merge_sort_Permutation.
    apply list_elem_of_In in Hin'. apply (find_none _ _ Hfind) in Hin'. congruence.
Qed.

Lemma returns_download (env : Env) page format :
  never_rejects env → delivers env format →
  returns (Gen2.download env page format) (λ _, True).
Proof.
  intros Hres Hdel w r w' H. unfold Gen2.download in H.
  apply bind_inv in H as [(files & w1 & Ht & H)|(e & Ht & ->)];
    apply triggerDownload_inv in Ht as (landed & tr & E & Hd & Hr); try done.
  injection Hr as ->. destruct (Hdel tr page) as (landed' & name & E' & Hin & Hends).
  rewrite E in E'. injection E' as <-.
  destruct (readArtifact_finds env format w1 name Hres) as (bytes & w2 & Hrun);
    [rewrite Hd, map_app, elem_of_app; by right | done |].
  rewrite Hrun in H. inversion H. eauto.
Qed.

#[global] Hint Resolve returns_download : returns.

(** In an environment in which no call rejects and the export control
    delivers, the download-and-read build returns. *)
Lemma Gen2_generateQRCode_returns (env : Env) (MINI_QR_URL : string) options :
  never_rejects env → delivers env (format (destructure options)) →
  truthy (data options) = true →
  returns (Gen2.generateQRCode env MINI_QR_URL options) (λ _, True).
Proof.
  intros Hres Hdel Hdata. unfold destructure in Hdel. cbn [format] in Hdel.
  unfold Gen2.generateQRCode, destructure. cbv beta iota.
  rewrite Hdata. cbn [negb].
  unfold Gen2.setDotType, Gen2.setCornerSquareType, Gen2.setCornerDotType,
    Gen2.setErrorCorrectionLevel.
  apply returns_seq; [by apply returns_getBrowser|]. intros b.
  apply returns_seq; [by apply returns_newPage|]. intros page.
  apply returns_try_finally; [|by apply returns_close].
  returns.
Qed.

(** In an environment in which no call rejects and the page is complete,
    the direct-capture build returns. *)
Lemma Gen1_generateQRCode_returns (env : Env) (MINI_QR_URL : string) options :
  never_rejects env → page_is_complete env →
  truthy (data options) = true →
  returns (Gen1.generateQRCode env MINI_QR_URL options) (λ _, True).
Proof.
  intros Hres Hpage Hdata.
  unfold Gen1.generateQRCode, destructure. cbv beta iota.
  rewrite Hdata. cbn [negb].
  unfold Gen1.setDotType, Gen1.setCornerSquareType, Gen1.setCornerDotType,
    Gen1.setErrorCorrectionLevel.
  apply returns_seq; [by apply returns_getBrowser|]. intros b.
  apply returns_seq; [by apply returns_newPage|]. intros page.
  apply returns_try_finally; [|by apply returns_close].
  do 3 (apply returns_seq; [by apply returns_call|]; intros ?).
  eapply (returns_bind _ _ is_Some).
  { apply returns_call_with. intros tr. destruct Hpage as (Hquery & _).
    destruct (Hquery tr page "input.text-input") as [h E]. eauto. }
  intros dataInput [el ->]. cbv beta iota.
  returns.
Qed.

(** ** Enum fields *)

Lemma interactions_log {A : Type} (c : Call A) w :
  is_interaction (Ev c) = false → interactions (log c w) = interactions w.
Proof.
  intros H. unfold interactions.
  change (trace (log c w)) with (Ev c :: trace w).
  rewrite filter_cons_False; [done|]. rewrite H. exact id.
Qed.

(** A radio option that is not a string matches no label: the loop reads
    the labels and clicks nothing. *)
Lemma selectRadioOption_for_object (env : Env) page k labels w r w' :
  Gen1.selectRadioOption_for env page (JObj k) labels w = (r, w') →
  interactions w' = interactions w ∧ core w' = core w ∧ downloads w' = downloads w
  ∧ (r = Ok tt ∨ ∃ e, r = Throw e ∧ rejects env e).
Proof.
  revert w. induction labels as [|label rest IH]; intros w H; cbn in H.
  - inversion H. auto.
  - apply bind_inv in H as [(text & w1 & H1 & H2)|(e & H1 & ->)];
      apply call_inv in H1 as [-> E].
    + assert (Gen1.text_is text (JObj k) = false) as Ht by by destruct text.
      rewrite Ht in H2. apply IH in H2 as (-> & -> & -> & Hr).
      by rewrite interactions_log.
    + rewrite interactions_log by done.
      repeat split; try done. right. exists e. split; [done|]. by eexists _, _, _.
Qed.

Lemma withDefault_given (d v : JsVal) : v ≠ JUndefined → withDefault d v = v.
Proof. by destruct v. Qed.

(** A request with an unrecognized enum value runs exactly as it does with
    any other unrecognized value: the value is not looked at again. *)
Lemma Gen2_unknown_enum_value_ignored (env : Env) (MINI_QR_URL : string)
    field v1 v2 o :
  v1 ≠ JUndefined → v2 ≠ JUndefined →
  Gen2.recognized field v1 = false → Gen2.recognized field v2 = false →
  Gen2.generateQRCode env MINI_QR_URL (set_enum field v1 o)
  = Gen2.generateQRCode env MINI_QR_URL (set_enum field v2 o).
Proof.
  intros Hd1 Hd2 H1 H2.
  unfold Gen2.generateQRCode, destructure.
  destruct field; cbn in H1, H2; cbn [set_enum data logoUrl backgroundColor dotsColor
    cornersSquareColor cornersDotColor width height borderRadius margin imageMargin
    dotsType cornersSquareType cornersDotType errorCorrectionLevel format];
    rewrite !(withDefault_given _ v1), !(withDefault_given _ v2) by done;
    cbv beta iota;
    unfold Gen2.setDotType, Gen2.setCornerSquareType, Gen2.setCornerDotType,
      Gen2.setErrorCorrectionLevel;
    rewrite H1, H2, !andb_false_r; reflexivity.
Qed.

Lemma Gen1_unknown_enum_value_ignored (env : Env) (MINI_QR_URL : string)
    field v1 v2 o :
  v1 ≠ JUndefined → v2 ≠ JUndefined →
  Gen1.recognized field v1 = false → Gen1.recognized field v2 = false →
  field ≠ ErrorCorrectionLevel
  ∨ (Gen1.inherited v1 = false ∧ Gen1.inherited v2 = false) →
  Gen1.generateQRCode env MINI_QR_URL (set_enum field v1 o)
  = Gen1.generateQRCode env MINI_QR_URL (set_enum field v2 o).
Proof.
  intros Hd1 Hd2 H1 H2 Hf.
  unfold Gen1.generateQRCode, destructure.
  destruct field;
    [ cbn in H1, H2; cbn [set_enum data logoUrl backgroundColor dotsColor
        cornersSquareColor cornersDotColor width height borderRadius margin imageMargin
        dotsType cornersSquareType cornersDotType errorCorrectionLevel format];
      rewrite !(withDefault_given _ v1), !(withDefault_given _ v2) by done;
      cbv beta iota;
      unfold Gen1.setDotType, Gen1.setCornerSquareType, Gen1.setCornerDotType;
      rewrite H1, H2, !andb_false_r; reflexivity .. | ].
  destruct Hf as [Hne|[Hi1 Hi2]]; [exfalso; by apply Hne|].
  change (bool_decide (is_Some (Gen1.ERROR_CORRECTION_LEVELS !! String_ v1)) = false) in H1.
  change (bool_decide (is_Some (Gen1.ERROR_CORRECTION_LEVELS !! String_ v2)) = false) in H2.
  apply bool_decide_eq_false in H1, H2. rewrite <- eq_None_not_Some in H1, H2.
  assert (∀ v, Gen1.ERROR_CORRECTION_LEVELS !! String_ v = None →
               Gen1.inherited v = false →
               Gen1.get_property Gen1.ERROR_CORRECTION_LEVELS v = JUndefined) as Hget.
  { intros v Hv Hi. unfold Gen1.get_property. rewrite Hv.
    unfold Gen1.inherited in Hi. by rewrite Hi. }
  cbn [set_enum data logoUrl backgroundColor dotsColor
    cornersSquareColor cornersDotColor width height borderRadius margin imageMargin
    dotsType cornersSquareType cornersDotType errorCorrectionLevel format].
  rewrite !(withDefault_given _ v1), !(withDefault_given _ v2) by done.
  cbv beta iota. unfold Gen1.setErrorCorrectionLevel.
  rewrite !(Hget v1), !(Hget v2) by done. cbn [truthy]. rewrite !andb_false_r.
  reflexivity.
Qed.

Lemma set_enum_kept (field : EnumField) (value : JsVal) (options : Options) :
  data (set_enum field value options) = data options
  ∧ format (destructure (set_enum field value options)) = format (destructure options).
Proof. by destruct field. Qed.

Lemma happy_never_rejects : never_rejects happy.
Proof. intros A tr c. destruct c; cbn; eauto. Qed.

Lemma happy_closes : closes_resolve happy.
Proof. by intros tr p. Qed.

Lemma happy_is_complete : page_is_complete happy.
Proof. repeat split; intros; cbn; eauto. Qed.



(** ** Formats outside png, jpeg and svg *)

Lemma unrecognized_format (f : JsVal) :
  f ∉ [JStr "png"; JStr "jpeg"; JStr "svg"] →
  strict_eq f "png" = false ∧ strict_eq f "jpeg" = false ∧ strict_eq f "svg" = false.
Proof.
  intros Hn. destruct f as [| | | | | |s|]; try done. cbn.
  repeat split; apply String.eqb_neq; intros ->; apply Hn; set_solver.
Qed.

(** A format outside the three is one the caller gave: the default is
    "png". *)
Lemma unrecognized_format_given (v f : JsVal) :
  f ∉ [JStr "png"; JStr "jpeg"; JStr "svg"] →
  withDefault (JStr "png") v = f → v = f.
Proof.
  intros Hn <-. destruct v; try done. exfalso. apply Hn. set_solver.
Qed.

(** The export control clicked is that of the format, and no other. *)
Lemma triggerDownload_clicks (env : Env) page format w r w' :
  Gen2.triggerDownload env page format w = (r, w') →
  clicks w' = clicks w ∨ clicks w' = ("#" ++ Gen2.buttonId format) :: clicks w.
Proof.
  intros H. unfold Gen2.triggerDownload in H.
  apply bind_inv in H as [([] & ? & Hc & H)|(? & Hc & ->)];
    apply call_inv in Hc as [-> _]; [|by left].
  apply bind_inv in H as [([] & ? & Hc & H)|(? & Hc & ->)];
    apply call_inv in Hc as [-> _]; [|by left].
  apply bind_inv in H as [([] & ? & Hc & H)|(? & Hc & ->)];
    apply call_inv in Hc as [-> _]; [|by left].
  apply bind_inv in H as [([] & w1 & Hc & H)|(? & Hc & ->)]; unfold click in Hc.
  - apply bind_Ok_inv in Hc as (landed & ? & Hc & Hm).
    apply call_inv in Hc as [-> _]. inversion Hm; subst; clear Hm.
    apply bind_inv in H as [([] & ? & Hc & H)|(? & Hc & ->)]; [|by inversion Hc].
    inversion Hc; subst; clear Hc. unfold readdir in H.
    apply bind_inv in H as [([] & ? & Hc & H)|(? & Hc & ->)];
      apply call_inv in Hc as [-> _]; [|by right].
    change (String.eqb Gen2.downloadPath download_dir) with true in H.
    apply gets_inv in H as [_ ->]. by right.
  - apply bind_inv in Hc as [(landed & ? & Hc & Hm)|(? & Hc & _)];
      [by inversion Hm|].
    apply call_inv in Hc as [-> _]. by right.
Qed.

(** Peel the steps off a run in which nothing rejects, keeping track of the
    download directory. *)
Ltac peel_returns H Hd :=
  repeat (
    let a := fresh "a" in
    let wi := fresh "w" in
    let Hs := fresh "Hs" in
    apply (bind_returns_inv _ _ (λ _, True)) in H as (a & wi & Hs & _ & H);
      [ | solve [returns] ];
    apply (preserved downloads) in Hs; [ | solve [frame] ];
    rewrite Hd in Hs; clear Hd; rename Hs into Hd).

(** When nothing rejects and no file with the ending scanned for is in the
    directory or comes with a download, the download-and-read build fails
    for want of a file. *)
Lemma Gen2_generateQRCode_no_file (env : Env) (MINI_QR_URL : string) options w :
  truthy (data options) = true →
  never_rejects env →
  let ending := "." ++ Gen2.extension (format (destructure options)) in
  none_with_ending ending (downloads w) →
  never_delivers env ending →
  ∃ w', Gen2.generateQRCode env MINI_QR_URL options w
        = (Throw "Download failed - no file found", w').
Proof.
  intros Hdata Hres ending Hdir Hnever.
  destruct (Gen2.generateQRCode env MINI_QR_URL options w) as [r w'] eqn:H.
  exists w'. f_equal. revert H.
  unfold Gen2.generateQRCode. subst ending. revert Hdir Hnever.
  unfold destructure. cbv beta iota. cbn [format]. intros Hdir Hnever H.
  rewrite Hdata in H. cbn [negb] in H.
  apply (bind_returns_inv _ _ (λ _, True)) in H as (b & w1 & Hb & _ & H);
    [|by apply returns_getBrowser].
  apply (preserved downloads) in Hb; [|by apply preserves_getBrowser].
  apply (bind_returns_inv _ _ (λ _, True)) in H as (page & w2 & Hp & _ & H);
    [|by apply returns_newPage].
  apply (preserved downloads) in Hp; [|by apply preserves_newPage].
  apply try_finally_close in H as (r1 & w3 & H & Hc).
  destruct (Hres unit (trace w3) (page_close page)) as [[] E]. rewrite E in Hc.
  destruct Hc as [-> _].
  assert (downloads w2 = downloads w) as Hd by congruence.
  unfold Gen2.setDotType, Gen2.setCornerSquareType, Gen2.setCornerDotType,
    Gen2.setErrorCorrectionLevel in H.
  peel_returns H Hd.
  unfold Gen2.download in H.
  apply bind_inv in H as [(files & wd & Ht & H)|(e & Ht & ->)];
    apply triggerDownload_inv in Ht as (landed & tr & Eclick & Hland & Hr);
    try done.
  injection Hr as ->. rewrite readArtifact_none in H; [by inversion H|].
  apply Forall_forall. intros name Hin.
  rewrite merge_sort_Permutation, Hland, Hd in Hin.
  apply list_elem_of_fmap in Hin as (g & -> & Hin).
  apply Hnever in Eclick. unfold none_with_ending in Hdir, Eclick.
  rewrite Forall_forall in Hdir, Eclick.
  apply elem_of_app in Hin as [Hin|Hin]; auto.
Qed.

(** C9, as amended.  Let the format be any value other than "png", "jpeg"
    and "svg".  In the download-and-read build the only export control
    clicked is the PNG one, while the directory is scanned for a name
    ending in ".<format>": the call fails with "Download failed - no file
    found" when the listing has none, which is the outcome of the whole
    call when nothing else fails and no file of that ending is in the
    directory or comes with a download; it can only return bytes that a
    file with that ending held, one that lay in the directory or that the
    PNG control downloaded.  In the direct-capture build the screenshot of
    the export container is taken as JPEG, and when [generateQRCode]
    returns its bytes the response carries them under Content-Type
    image/<format> if the format is truthy and under image/png if it is
    falsy; if the format holds a character that is not allowed in a
    header, the response is the error 500 of the refused header. *)
Theorem unrecognized_format_behaviour (env : Env) (MINI_QR_URL : string) (f : JsVal) :
  f ∉ [JStr "png"; JStr "jpeg"; JStr "svg"] →
  (∀ page w r w',
     Gen2.triggerDownload env page f w = (r, w') →
     clicks w' = clicks w ∨ clicks w' = "#download-qr-image-button-png" :: clicks w)
  ∧ Gen2.extension f = String_ f
  ∧ (∀ files w,
       Forall (λ name, endsWith name ("." ++ String_ f) = false) files →
       Gen2.readArtifact env f files w = (Throw "Download failed - no file found", w))
  ∧ (∀ options w,
       format (destructure options) = f →
       truthy (data options) = true →
       never_rejects env →
       none_with_ending ("." ++ String_ f) (downloads w) →
       never_delivers env ("." ++ String_ f) →
       ∃ w', Gen2.generateQRCode env MINI_QR_URL options w
             = (Throw "Download failed - no file found", w'))
  ∧ (∀ options w bytes w',
       format (destructure options) = f →
       Gen2.generateQRCode env MINI_QR_URL options w = (Ok bytes, w') →
       ∃ name landed,
         (∃ page,
            answered env w w' (page_click page "#download-qr-image-button-png") landed)
         ∧ endsWith name ("." ++ String_ f) = true
         ∧ (name, bytes) ∈ (downloads w ++ landed)%list)
  ∧ (∀ page container w,
       env _ (trace w) (page_query page "#element-to-export") = inr (Some container) →
       let w1 := log (page_query page "#element-to-export") w in
       Gen1.capture env page f w
       = (match env _ (trace w1) (handle_screenshot container "jpeg") with
          | inl e => Throw e
          | inr bytes => Ok bytes
          end, log (handle_screenshot container "jpeg") w1))
  ∧ (∀ req w bytes w',
       format (destructure (options_of req)) = f →
       Gen1.generateQRCode env MINI_QR_URL (options_of req) w = (Ok bytes, w') →
       let label := if truthy f then String_ f else "png" in
       (∃ page container history,
          (∃ new, history = (new ++ trace w)%list)
          ∧ trace w' = Ev (page_close page)
                       :: Ev (handle_screenshot container "jpeg")
                       :: Ev (page_query page "#element-to-export") :: history
          ∧ env _ history (page_query page "#element-to-export") = inr (Some container)
          ∧ env _ (Ev (page_query page "#element-to-export") :: history)
              (handle_screenshot container "jpeg") = inr bytes)
       ∧ ∃ res w'',
           handle (Gen1.generateQRCode env MINI_QR_URL) req w = (Ok res, w'')
           ∧ if valid_header_value label
             then w'' = w'
                  ∧ status res = 200
                  ∧ body res = Raw bytes
                  ∧ header "Content-Type" res = Some ("image/" ++ label)
             else status res = 500
                  ∧ headers res = []
                  ∧ body res
                    = Json [("error", "Invalid character in header content ["
                                      ++ dquote ++ "Content-Type" ++ dquote ++ "]")]).
Proof.
  intros Hn. destruct (unrecognized_format f Hn) as (Hpng & Hjpeg & Hsvg).
  assert (Gen2.extension f = String_ f) as Hext.
  { unfold Gen2.extension. by rewrite Hjpeg. }
  assert (Gen2.buttonId f = "download-qr-image-button-png") as Hbutton.
  { unfold Gen2.buttonId. by rewrite Hsvg, Hjpeg. }
  split.
  { intros page w r w' H. apply triggerDownload_clicks in H. by rewrite Hbutton in H. }
  split; [done|].
  split; [intros files w Hall; apply readArtifact_none; by rewrite Hext|].
  split; [|split; [|split]].
  - intros options w Hf Hdata Hres Hdir Hnever.
    apply Gen2_generateQRCode_no_file; rewrite ?Hf, ?Hext; done.
  - intros options w bytes w' Hf H.
    apply Gen2_generateQRCode_artifact in H
      as (name & landed & (page & E) & Hends & Hin & _).
    rewrite Hf, Hext in Hends. rewrite Hf, Hbutton in E.
    exists name, landed. split; [by exists page|]. done.
  - intros page container w E w1.
    destruct (Gen1.capture env page f w) as [r w'] eqn:H.
    apply capture_inv in H. cbn zeta in H. rewrite E, Hsvg, Hpng in H.
    destruct H as [-> H]. subst w1.
    by destruct (env _ _ (handle_screenshot container "jpeg")); subst.
  - intros req w bytes w' Hf H label. split.
    + apply Gen1_generateQRCode_raster in H; [|by rewrite Hf].
      cbn zeta in H. by rewrite Hf, Hpng in H.
    + apply unrecognized_format_given in Hf; [|done].
      rewrite handle_unfold, H, Hf. cbn zeta.
      assert (contentTypeOf (js_or f (JStr "png")) = "image/" ++ label
              ∧ String_ (js_or f (JStr "png")) = label) as [-> ->].
      { unfold contentTypeOf, js_or. subst label.
        destruct (truthy f); [by rewrite Hsvg | done]. }
      change (valid_header_value ("image/" ++ label))
        with (valid_header_value label).
      destruct (valid_header_value label); eexists _, _; (split; [done|]).
      * by destruct req.
      * done.
Qed.

Lemma unrecognized_format_behaviour_witness :
  Gen2.extension (JStr "gif") = "gif"
  ∧ Gen2.readArtifact happy (JStr "gif") ["qr-code.png"] world0
    = (Throw "Download failed - no file found", world0)
  ∧ (∃ w', Gen2.generateQRCode happy url (with_format "hi" (JStr "gif")) world0
           = (Throw "Download failed - no file found", w'))
  ∧ ∃ res w'',
      handle (Gen1.generateQRCode happy url)
        (POST_generate (with_format "hi" (JStr "gif"))) world0
      = (Ok res, w'')
      ∧ w'' = snd (Gen1.generateQRCode happy url (with_format "hi" (JStr "gif")) world0)
      ∧ status res = 200
      ∧ body res = Raw (list_byte_of_string "jpeg screenshot")
      ∧ header "Content-Type" res = Some "image/gif".
Proof.
  assert (JStr "gif" ∉ [JStr "png"; JStr "jpeg"; JStr "svg"]) as Hn.
  { rewrite !not_elem_of_cons. repeat split; [discriminate..|apply not_elem_of_nil]. }
  pose proof (unrecognized_format_behaviour happy url (JStr "gif") Hn)
    as (_ & Hext & Hnone & Hfail & _ & _ & Hrun).
  split; [exact Hext|]. split; [|split].
  - apply Hnone. repeat constructor.
  - apply Hfail; [reflexivity | reflexivity | apply happy_never_rejects | constructor |].
    intros tr page sel landed E. cbn in E. injection E as <-. unfold exported.
    repeat case_match; repeat constructor.
  - apply (Hrun (POST_generate (with_format "hi" (JStr "gif"))) world0);
      [reflexivity | vm_compute; reflexivity].
Defined.

(** C9 as stated fails on three inputs.  With the empty string as format
    the direct-capture build answers the JPEG screenshot under Content-Type
    image/png, not image/ followed by the format.  With a format that holds
    a line feed it takes the screenshot and then answers 500: the header is
    refused.  With format "jpg" and a .jpg file left in the download
    directory by an earlier request, the download-and-read build does not
    fail: it returns that file. *)
Lemma unrecognized_format_counterexamples :
  (let run := handle (Gen1.generateQRCode happy url)
                (POST_generate (with_format "hi" (JStr EmptyString))) world0 in
   ∃ res, fst run = Ok res
     ∧ body res = Raw (list_byte_of_string "jpeg screenshot")
     ∧ header "Content-Type" res = Some "image/png"
     ∧ header "Content-Type" res ≠ Some ("image/" ++ String_ (JStr EmptyString)))
  ∧ (let run := handle (Gen1.generateQRCode happy url)
                  (GET_generate {["data" := "hi"; "format" := broken_format]}) world0 in
     (JStr broken_format ∉ [JStr "png"; JStr "jpeg"; JStr "svg"])
     ∧ ∃ res, fst run = Ok res
         ∧ status res = 500
         ∧ header "Content-Type" res = None
         ∧ Ev (handle_screenshot 7%nat "jpeg") ∈ trace (snd run))
  ∧ (let run := Gen2.generateQRCode read_refused url (with_format "hi" (JStr "jpg"))
                  after_refused_read in
     downloads after_refused_read = [("qr-code.jpg", list_byte_of_string "JPG bytes")]
     ∧ fst run = Ok (list_byte_of_string "JPG bytes")
     ∧ fst run ≠ Throw "Download failed - no file found").
Proof.
  split; [|split].
  - eexists. vm_compute. repeat split. discriminate.
  - cbn zeta. split.
    + rewrite !not_elem_of_cons. repeat split; [discriminate..|apply not_elem_of_nil].
    + eexists. split; [vm_compute; reflexivity|]. split; [reflexivity|].
      split; [reflexivity|]. vm_compute. set_solver.
  - vm_compute. repeat split. discriminate.
Qed.

(** ** Exit paths of [generateQRCode] *)

Lemma preserves_core_triggerDownload (env : Env) page format :
  preserves core (Gen2.triggerDownload env page format).
Proof. unfold Gen2.triggerDownload, click, readdir. frame. Qed.

Lemma preserves_core_readArtifact (env : Env) format files :
  preserves core (Gen2.readArtifact env format files).
Proof. unfold Gen2.readArtifact, readFile, unlink. frame. Qed.

#[global] Hint Resolve preserves_core_triggerDownload preserves_core_readArtifact : frame.

(** The skeleton of both builds, exit by exit. *)
Lemma with_page_exits {A : Type} (env : Env) (body : Page → M A) w r w' :
  (browserInstance ← getBrowser env;
   page ← newPage env browserInstance;
   try_finally (body page) (close env page)) w = (r, w') →
  (∃ e, r = Throw e ∧ getBrowser env w = (Throw e, w'))
  ∨ (∃ e b w1,
       r = Throw e ∧ getBrowser env w = (Ok b, w1)
       ∧ env unit (trace w1) (browser_newPage b) = inl e
       ∧ w' = log (browser_newPage b) w1)
  ∨ (∃ b w1 r1 w2,
       getBrowser env w = (Ok b, w1)
       ∧ env unit (trace w1) (browser_newPage b) = inr tt
       ∧ body (fresh w1) (add_page (fresh w1) (log (browser_newPage b) w1)) = (r1, w2)
       ∧ match env unit (trace w2) (page_close (fresh w1)) with
         | inr _ =>
           r = r1 ∧ w' = remove_page (fresh w1) (log (page_close (fresh w1)) w2)
         | inl e => r = Throw e ∧ w' = log (page_close (fresh w1)) w2
         end).
Proof.
  intros H.
  apply bind_inv in H as [(b & w1 & Hb & H)|(e & Hb & ->)]; [|left; eauto].
  right.
  apply bind_inv in H as [(p & w2 & Hp & H)|(e & Hp & ->)];
    apply newPage_inv in Hp;
    destruct (env unit (trace w1) (browser_newPage b)) as [e'|[]] eqn:E;
    destruct Hp as [[=] ->]; subst.
  - right. apply try_finally_close in H as (r1 & w3 & H & Hc). eauto 10.
  - left. eauto 10.
Qed.

(** The try block of each build leaves the browser side of the world
    alone and keeps the history of calls. *)
Lemma Gen2_generateQRCode_exits (env : Env) (MINI_QR_URL : string) options w r w' :
  Gen2.generateQRCode env MINI_QR_URL options w = (r, w') →
  exits_as env options w r w'.
Proof.
  unfold Gen2.generateQRCode, destructure, exits_as. cbv beta iota. intros H.
  destruct (truthy (data options)); cbn [negb] in H; [|left; by inversion H].
  right. split; [done|].
  apply with_page_exits in H as [H|[H|(b & w1 & r1 & w2 & Hb & E & H & Hc)]]; [auto..|].
  right. right. exists b, w1, r1, w2.
  unfold Gen2.setDotType, Gen2.setCornerSquareType, Gen2.setCornerDotType,
    Gen2.setErrorCorrectionLevel in H.
  match type of H with
  | ?m _ = _ =>
    assert (preserves core m) as Hcore by frame;
    assert (only_emits any_event m) as Hem
      by (unfold Gen2.download, Gen2.triggerDownload, Gen2.readArtifact,
            click, readdir, readFile, unlink; emits)
  end.
  apply Hem in H as Htrace. destruct Htrace as (new & Htrace & _).
  apply Hcore in H. exists new. by repeat split.
Qed.

Lemma Gen1_generateQRCode_exits (env : Env) (MINI_QR_URL : string) options w r w' :
  Gen1.generateQRCode env MINI_QR_URL options w = (r, w') →
  exits_as env options w r w'.
Proof.
  unfold Gen1.generateQRCode, destructure, exits_as. cbv beta iota. intros H.
  destruct (truthy (data options)); cbn [negb] in H; [|left; by inversion H].
  right. split; [done|].
  apply with_page_exits in H as [H|[H|(b & w1 & r1 & w2 & Hb & E & H & Hc)]]; [auto..|].
  right. right. exists b, w1, r1, w2.
  unfold Gen1.setDotType, Gen1.setCornerSquareType, Gen1.setCornerDotType,
    Gen1.setErrorCorrectionLevel in H.
  match type of H with
  | ?m _ = _ =>
    assert (preserves core m) as Hcore by frame;
    assert (only_emits any_event m) as Hem by emits
  end.
  apply Hem in H as Htrace. destruct Htrace as (new & Htrace & _).
  apply Hcore in H. exists new. by repeat split.
Qed.

(** What the exit of a run says about its last call and the cached
    session. *)
Lemma exits_after_page (env : Env) (b : Browser) (p : Page) (r r1 : Outcome Bytes)
    (w1 w2 w' : World) :
  core w2 = core (add_page p (log (browser_newPage b) w1)) →
  match env unit (trace w2) (page_close p) with
  | inr _ => r = r1 ∧ w' = remove_page p (log (page_close p) w2)
  | inl e => r = Throw e ∧ w' = log (page_close p) w2
  end →
  trace w' = Ev (page_close p) :: trace w2
  ∧ browser w' = browser w1
  ∧ sessions w' = sessions w1
  ∧ fresh w' = S (fresh w1)
  ∧ match env unit (trace w2) (page_close p) with
    | inr _ => r = r1 ∧ pages w' = filter (λ q, q ≠ p) (p :: pages w1)
    | inl e => r = Throw e ∧ pages w' = p :: pages w1
    end.
Proof.
  intros Hcore Hc. unfold core in Hcore. cbn in Hcore.
  injection Hcore as Hbr Hse Hpa Hfr.
  destruct (env unit (trace w2) (page_close p)); destruct Hc as [-> ->]; cbn;
    by rewrite Hbr, Hse, Hpa, Hfr.
Qed.

(** X1. Every run of [generateQRCode], in either build, leaves by one of
    four exits: rejected for want of data, with the world untouched; failed
    to launch the browser, with the launch as the only call made, the
    cached handle still null and no page asked for; failed to open a page,
    with [newPage] as the last call and no [page.close()]; or, once a page
    was opened, with [page.close()] of that page as the last call made,
    whatever the outcome. *)
Theorem generateQRCode_exit_paths (env : Env) (MINI_QR_URL : string)
    (options : Options) (w : World) (r : Outcome Bytes) (w' : World) :
  Gen2.generateQRCode env MINI_QR_URL options w = (r, w')
  ∨ Gen1.generateQRCode env MINI_QR_URL options w = (r, w') →
  (truthy (data options) = false ∧ r = Throw "Data to encode is required" ∧ w' = w)
  ∨ (∃ e, r = Throw e
       ∧ browser w = None
       ∧ env unit (trace w) (puppeteer_launch launch_args) = inl e
       ∧ w' = log (puppeteer_launch launch_args) w
       ∧ browser w' = None ∧ pages w' = pages w)
  ∨ (∃ e b w1, r = Throw e
       ∧ getBrowser env w = (Ok b, w1)
       ∧ env unit (trace w1) (browser_newPage b) = inl e
       ∧ trace w' = Ev (browser_newPage b) :: trace w1
       ∧ pages w' = pages w)
  ∨ (∃ b w1 history,
       getBrowser env w = (Ok b, w1)
       ∧ env unit (trace w1) (browser_newPage b) = inr tt
       ∧ trace w' = Ev (page_close (fresh w1)) :: history
       ∧ browser w' = Some b).
Proof.
  intros H.
  assert (exits_as env options w r w')
    as [Hv|[_ [(e & -> & Hb)|[(e & b & w1 & -> & Hb & E & ->)
                              |(b & w1 & r1 & w2 & new & Hb & E & Hcore & _ & Hc)]]]].
  { destruct H as [H|H];
      [by apply Gen2_generateQRCode_exits in H | by apply Gen1_generateQRCode_exits in H]. }
  - by left.
  - right. left. apply getBrowser_Throw_inv in Hb as (Hnull & E & ->).
    exists e. by repeat split.
  - right. right. left. exists e, b, w1. repeat split; try done.
    apply getBrowser_one_session in Hb as (_ & Hp & _). done.
  - right. right. right. exists b, w1, (trace w2). repeat split; try done.
    + by apply (exits_after_page env b _ r r1 w1 w2 w' Hcore) in Hc as (? & _).
    + apply getBrowser_Ok_inv in Hb as [Hb _].
      apply (exits_after_page env b _ r r1 w1 w2 w' Hcore) in Hc as (_ & Hbr & _).
      congruence.
Qed.

Lemma generateQRCode_exit_paths_witness :
  ∃ b w1 history,
    getBrowser happy world0 = (Ok b, w1)
    ∧ happy unit (trace w1) (browser_newPage b) = inr tt
    ∧ trace (snd (Gen2.generateQRCode happy url (with_format "hi" (JStr "gif")) world0))
      = Ev (page_close (fresh w1)) :: history
    ∧ browser (snd (Gen2.generateQRCode happy url (with_format "hi" (JStr "gif")) world0))
      = Some b.
Proof.
  destruct (generateQRCode_exit_paths happy url (with_format "hi" (JStr "gif")) world0
              _ _ (or_introl (surjective_pairing _)))
    as [(Hd & _)|[(e & _ & _ & E & _)|[(e & b & w1 & _ & Hb & E & _)|H]]].
  - discriminate Hd.
  - discriminate E.
  - discriminate E.
  - exact H.
Defined.

(** ** Pages are released *)

Lemma filter_other_pages (p : Page) (l : list Page) :
  Forall (λ q, (q < p)%nat) l → filter (λ q, q ≠ p) l = l.
Proof.
  induction 1 as [|q l Hq _ IH]; [done|].
  rewrite filter_cons_True by lia. by rewrite IH.
Qed.

Lemma existsb_newPage_app (l1 l2 : list Event) :
  existsb is_newPage (l1 ++ l2) = existsb is_newPage l1 || existsb is_newPage l2.
Proof. apply existsb_app. Qed.

(** Both builds keep house. *)
Lemma exits_keep_house (env : Env) (gen : Options → M Bytes) :
  (∀ options w r w', gen options w = (r, w') → exits_as env options w r w') →
  keeps_house env gen.
Proof.
  intros Hexits options w r w' Hfresh H. apply Hexits in H. clear Hexits.
  unfold fresh_ids in *.
  destruct H as [(_ & -> & ->)|[_ [(e & -> & Hb)|[(e & b & w1 & -> & Hb & E & ->)
                 |(b & w1 & r1 & w2 & new & Hb & E & Hcore & Htrace & Hc)]]]].
  - refine (conj _ (conj _ (conj _ (conj _ (conj _ _))))); auto.
    exists []. by split.
  - apply getBrowser_one_session in Hb as Hs. destruct Hs as (Hone & Hp & Hle & Hbr).
    apply getBrowser_Throw_inv in Hb as (Hnull & _ & ->).
    refine (conj _ (conj _ (conj _ (conj _ (conj _ _))))); auto.
    exists [Ev (puppeteer_launch launch_args)]. by split.
  - apply getBrowser_one_session in Hb as Hs. destruct Hs as (Hone & Hp & Hle & Hbr).
    assert (∃ new1, trace w1 = (new1 ++ trace w)%list) as (new1 & Ht1).
    { apply getBrowser_Ok_inv in Hb as (_ & [[_ ->]|(_ & _ & ->)]);
        [by exists [] | by exists [Ev (puppeteer_launch launch_args)]]. }
    assert (is_Some (browser w1)) as Hsome by (rewrite Hbr; eauto).
    refine (conj _ (conj _ (conj _ (conj _ (conj _ _))))); auto.
    + change (Forall (λ p, (p < fresh w1)%nat) (pages w1)).
      rewrite Hp. eapply Forall_impl; [exact Hfresh|]. cbn. intros; lia.
    + exists (Ev (browser_newPage b) :: new1).
      split; [cbn; by rewrite Ht1 | intros _; exact Hsome].
  - apply getBrowser_one_session in Hb as Hs. destruct Hs as (Hone & Hp & Hle & Hbr).
    assert (∃ new1, trace w1 = (new1 ++ trace w)%list) as (new1 & Ht1).
    { apply getBrowser_Ok_inv in Hb as (_ & [[_ ->]|(_ & _ & ->)]);
        [by exists [] | by exists [Ev (puppeteer_launch launch_args)]]. }
    apply (exits_after_page env b _ r r1 w1 w2 w' Hcore) in Hc
      as (Ht & Hbr' & Hse' & Hfr' & Hc).
    assert (Forall (λ q, (q < fresh w1)%nat) (pages w1)) as Hfresh1.
    { rewrite Hp. eapply Forall_impl; [exact Hfresh|]. cbn. intros; lia. }
    assert (is_Some (browser w')) as Hsome by (rewrite Hbr', Hbr; eauto).
    assert (one_session w → one_session w') as Hone'.
    { unfold one_session in *. rewrite Hbr', Hse'. exact Hone. }
    assert (∃ new', trace w' = (new' ++ trace w)%list) as (new' & Hnew').
    { exists (Ev (page_close (fresh w1)) :: new ++ Ev (browser_newPage b) :: new1)%list.
      rewrite Ht, Htrace, Ht1. cbn. by rewrite <- app_assoc. }
    destruct (env unit (trace w2) (page_close (fresh w1))) as [e|[]] eqn:Eclose;
      destruct Hc as [-> Hpages].
    + refine (conj _ (conj _ (conj _ (conj _ (conj _ _))))); auto.
      * rewrite Hfr', Hpages. constructor; [lia|].
        eapply Forall_impl; [exact Hfresh1|]. cbn. intros; lia.
      * right. exists (fresh w1), e, (trace w2). rewrite <- Hp. by repeat split.
      * exists new'. by split.
    + rewrite filter_cons_False in Hpages by (intros Hne; by apply Hne).
      rewrite filter_other_pages in Hpages by done.
      refine (conj _ (conj _ (conj _ (conj _ (conj _ _))))); auto.
      * rewrite Hfr', Hpages. eapply Forall_impl; [exact Hfresh1|]. cbn. intros; lia.
      * left. congruence.
      * by destruct r1.
      * exists new'. by split.
Qed.

Lemma builds_keep_house (env : Env) (MINI_QR_URL : string)
    (generateQRCode : Options → M Bytes) :
  generateQRCode = Gen2.generateQRCode env MINI_QR_URL
  ∨ generateQRCode = Gen1.generateQRCode env MINI_QR_URL →
  keeps_house env generateQRCode.
Proof.
  intros [-> | ->]; apply exits_keep_house; intros options w r w' H.
  - by apply Gen2_generateQRCode_exits in H.
  - by apply Gen1_generateQRCode_exits in H.
Qed.

Lemma one_session_length w : one_session w → (length (sessions w) ≤ 1)%nat.
Proof. unfold one_session. intros ->. destruct (browser w); cbn; lia. Qed.

Lemma one_session_cached w :
  one_session w → is_Some (browser w) → length (sessions w) = 1%nat.
Proof. unfold one_session. by intros -> [b ->]. Qed.

Lemma handle_world (gen : Options → M Bytes) req w :
  ∃ res w1,
    handle gen req w = (Ok res, w1)
    ∧ ∃ r w0, gen (options_of req) w = (r, w0)
        ∧ core w1 = core w0
        ∧ (status res = 200 → ∃ bytes, r = Ok bytes)
        ∧ ∃ logged, trace w1 = (logged ++ trace w0)%list
                    ∧ existsb is_newPage logged = false.
Proof.
  rewrite handle_unfold. destruct (gen (options_of req) w) as [[bytes|e] w0].
  - cbn zeta. destruct (valid_header_value _).
    + eexists _, _. split; [done|]. eexists _, _.
      repeat split; eauto. by exists [].
    + eexists _, _. split; [done|]. eexists _, _.
      repeat split; eauto. by eexists [_].
  - eexists _, _. split; [done|]. eexists _, _. split; [done|].
    repeat split; [done|]. by eexists [_].
Qed.

(** Whatever [generateQRCode] does to the world, serving requests with it
    keeps what it keeps. *)
Lemma serve_world (env : Env) (gen : Options → M Bytes) :
  keeps_house env gen →
  ∀ reqs w out w',
    one_session w → fresh_ids w →
    serve gen reqs w = (out, w') →
    ∃ ress new,
      out = Ok ress
      ∧ length ress = length reqs
      ∧ one_session w' ∧ fresh_ids w'
      ∧ (is_Some (browser w) → is_Some (browser w'))
      ∧ (closes_resolve env → pages w' = pages w)
      ∧ (browser w' = None → pages w' = pages w)
      ∧ trace w' = (new ++ trace w)%list
      ∧ (existsb is_newPage new = true → is_Some (browser w'))
      ∧ (Exists (λ res, status res = 200) ress → is_Some (browser w')).
Proof.
  intros Hgen reqs. induction reqs as [|req rest IH]; intros w out w' Hone Hfresh H.
  - inversion H; subst. exists [], []. repeat split; try done. by intros ?%Exists_nil.
  - cbn [serve] in H.
    destruct (handle_world gen req w)
      as (res & w1 & Hh & r & w0 & Hg & Hcore & H200 & logged & Hlog & Hnot).
    rewrite (bind_Ok _ _ _ _ _ Hh) in H.
    apply Hgen in Hg as (Hf0 & Ho & Hs & Hp & Hr & new0 & Ht0 & Hn0); [|done].
    unfold core in Hcore. injection Hcore as Hb1 Hs1 Hp1 Hf1.
    assert (one_session w1) as Hone1.
    { unfold one_session in *. rewrite Hs1, Hb1. auto. }
    assert (fresh_ids w1) as Hfresh1.
    { unfold fresh_ids in *. by rewrite Hp1, Hf1. }
    apply bind_inv in H as [(others & w2 & Hrest & H)|(e & Hrest & ->)].
    + apply IH in Hrest
        as (ress & new & [= ->] & Hlen & Ho2 & Hf2 & Hs2 & Hc2 & Hn2 & Ht2 & Hx2 & H2);
        try done.
      inversion H; subst. exists (res :: ress), (new ++ logged ++ new0)%list.
      assert (is_Some (browser w0) → is_Some (browser w')) as Hs02
        by (rewrite <- Hb1; exact Hs2).
      repeat split; try done.
      * cbn. by rewrite Hlen.
      * auto.
      * intros Hclose. rewrite (Hc2 Hclose), Hp1.
        destruct Hp as [Hp|(p & e & history & _ & E & _)]; [done|].
        by rewrite Hclose in E.
      * intros Hnone. rewrite (Hn2 Hnone), Hp1.
        destruct Hp as [Hp|(p & e & history & _ & _ & _ & _ & Hsome)]; [done|].
        apply Hs02 in Hsome. rewrite Hnone in Hsome. by destruct Hsome.
      * by rewrite Ht2, Hlog, Ht0, !app_assoc.
      * rewrite !existsb_newPage_app, Hnot, orb_false_l.
        intros [Hx|Hx]%orb_true_iff; auto.
      * intros [Hx|Hx]%Exists_cons; [|auto].
        apply Hs02. destruct (H200 Hx) as [bytes ->]. done.
    + apply IH in Hrest as (ress & new & [=] & _); done.
Qed.

(** C4, as amended.  In both builds a call to [generateQRCode] leaves the
    set of open pages as it found it, on success and on every failure: the
    page it opened, if it got that far, has been closed.  The one exception
    is the rejection of [page.close()] itself: that rejection is then the
    outcome of the call and the page is left open.  Hence, starting with no
    page open and with the cached session as the only live one, after any
    number of requests served one after the other every request has been
    answered; no page is open provided [page.close()] resolved whenever it
    was called; and at most one browser session exists, the cached one: it
    exists as soon as one of the requests has got as far as asking for a
    page, so in particular once one has succeeded. *)
Theorem pages_closed_on_every_exit (env : Env) (MINI_QR_URL : string)
    (generateQRCode : Options → M Bytes) :
  generateQRCode = Gen2.generateQRCode env MINI_QR_URL
  ∨ generateQRCode = Gen1.generateQRCode env MINI_QR_URL →
  (∀ options w r w',
     fresh_ids w → generateQRCode options w = (r, w') →
     pages w' = pages w
     ∨ ∃ p e history,
         trace w' = Ev (page_close p) :: history
         ∧ env unit history (page_close p) = inl e
         ∧ r = Throw e
         ∧ pages w' = p :: pages w)
  ∧ (∀ reqs w out w',
       one_session w → pages w = [] →
       serve generateQRCode reqs w = (out, w') →
       ∃ ress new,
         out = Ok ress
         ∧ length ress = length reqs
         ∧ (closes_resolve env → pages w' = [])
         ∧ one_session w'
         ∧ (length (sessions w') ≤ 1)%nat
         ∧ trace w' = (new ++ trace w)%list
         ∧ (existsb is_newPage new = true → length (sessions w') = 1%nat)
         ∧ (Exists (λ res, status res = 200) ress → length (sessions w') = 1%nat)).
Proof.
  intros Hbuild. apply builds_keep_house in Hbuild as Hgen.
  split.
  - intros options w r w' Hf H.
    destruct (Hgen _ _ _ _ Hf H) as (_ & _ & _ & [Hp|(p & e & history & Hp)] & _);
      [by left|]. right. exists p, e, history. tauto.
  - intros reqs w out w' Hone Hnil H.
    assert (fresh_ids w) as Hfresh by (unfold fresh_ids; rewrite Hnil; constructor).
    apply (serve_world env generateQRCode Hgen) in H
      as (ress & new & -> & Hlen & Ho & _ & _ & Hc & _ & Ht & Hn & Hx); try done.
    exists ress, new. repeat split; try done.
    + intros Hclose. by rewrite (Hc Hclose).
    + by apply one_session_length.
    + intros Hreached. apply one_session_cached; auto.
    + intros H200. apply one_session_cached; auto.
Qed.

Lemma pages_closed_on_every_exit_witness :
  let requests := [POST_generate no_options;
                   POST_generate (with_format "hi" (JStr "gif"))] in
  let w' := snd (serve (Gen2.generateQRCode happy url) requests world0) in
  one_session world0 ∧ pages world0 = []
  ∧ pages w' = [] ∧ length (sessions w') = 1%nat.
Proof.
  cbn zeta. split; [reflexivity|]. split; [reflexivity|].
  destruct (proj2 (pages_closed_on_every_exit happy url _ (or_introl eq_refl))
              [POST_generate no_options;
               POST_generate (with_format "hi" (JStr "gif"))]
              world0 _ _ eq_refl eq_refl (surjective_pairing _))
    as (ress & new & _ & _ & Hp & _ & _ & Ht & Hn & _).
  split; [exact (Hp happy_closes)|]. apply Hn.
  assert (existsb is_newPage
            (trace (snd (serve (Gen2.generateQRCode happy url)
                           [POST_generate no_options;
                            POST_generate (with_format "hi" (JStr "gif"))] world0)))
          = true) as Hreached by (vm_compute; reflexivity).
  rewrite Ht, app_nil_r in Hreached. exact Hreached.
Defined.

(** C4 as stated fails when [page.close()] itself rejects, as it does when
    the browser no longer answers in time: the page the request opened is
    then still open after the call, and the rejection is what the caller
    gets, here in place of the image. *)
Lemma close_rejection_leaves_the_page_open :
  let env := rejecting is_close "Target.closeTarget timed out." happy in
  let run := Gen2.generateQRCode env url (just_data "hi") world0 in
  pages world0 = []
  ∧ fst run = Throw "Target.closeTarget timed out."
  ∧ pages (snd run) = [1%nat]
  ∧ head (trace (snd run)) = Some (Ev (page_close 1%nat))
  ∧ pages (snd (serve (Gen2.generateQRCode env url)
                  [POST_generate (just_data "hi")] world0)) ≠ [].
Proof. vm_compute. repeat split. discriminate. Qed.

(** ** Navigation failure *)

Lemma newPage_Ok (env : Env) b w :
  env unit (trace w) (browser_newPage b) = inr tt →
  newPage env b w = (Ok (fresh w), add_page (fresh w) (log (browser_newPage b) w)).
Proof.
  intros E. unfold newPage, mbind, M_bind, call, gets, modify, mret, M_ret.
  by rewrite E.
Qed.

Lemma try_finally_Throw {A : Type} (env : Env) (body : M A) page w e w1 :
  body w = (Throw e, w1) →
  try_finally body (close env page) w
  = match env unit (trace w1) (page_close page) with
    | inr _ => (Throw e, remove_page page (log (page_close page) w1))
    | inl e' => (Throw e', log (page_close page) w1)
    end.
Proof.
  intros H. unfold try_finally, close, mbind, M_bind, call, modify. rewrite H.
  by destruct (env unit (trace w1) (page_close page)).
Qed.

(** Run a build up to the rejected [page.goto]. *)
Ltac run_to_goto Hdata Hb Hnew Hsize Hgoto :=
  rewrite Hdata; cbn [negb];
  rewrite (bind_Ok _ _ _ _ _ (getBrowser_cached _ _ _ Hb)); cbv beta;
  rewrite (bind_Ok _ _ _ _ _ (newPage_Ok _ _ _ Hnew)); cbv beta;
  apply try_finally_Throw;
  match goal with
  | |- (call ?env ?c ≫= _) ?w0 = _ =>
    rewrite (bind_Ok _ _ _ _ _ (call_Ok env c w0 tt Hsize)); cbv beta
  end;
  apply bind_Throw; apply call_Throw; exact Hgoto.

(** X2. When the target application cannot be reached, that is, when
    [page.goto] rejects, both builds try the navigation once, touch no
    control of the page and call [page.close()]; the download directory is
    as before and the session stays cached.  If [page.close()] resolves,
    the error of the navigation is the one surfaced and the page is
    closed; if [page.close()] rejects as well, its error takes the place of
    the navigation error and the page stays open. *)
Theorem navigation_failure_is_surfaced (env : Env) (MINI_QR_URL : string)
    (options : Options) (w : World) (b : Browser) (e : string) :
  truthy (data options) = true →
  browser w = Some b →
  let p := fresh w in
  let opened := Ev (browser_newPage b) :: trace w in
  let sized := Ev (page_setViewport p 1280 900) :: opened in
  let failed := Ev (page_goto p MINI_QR_URL 30000) :: sized in
  env unit (trace w) (browser_newPage b) = inr tt →
  env unit opened (page_setViewport p 1280 900) = inr tt →
  env unit sized (page_goto p MINI_QR_URL 30000) = inl e →
  ∀ r w',
    Gen2.generateQRCode env MINI_QR_URL options w = (r, w')
    ∨ Gen1.generateQRCode env MINI_QR_URL options w = (r, w') →
    trace w' = Ev (page_close p) :: failed
    ∧ interactions w' = interactions w
    ∧ downloads w' = downloads w
    ∧ browser w' = Some b
    ∧ match env unit failed (page_close p) with
      | inr _ => r = Throw e ∧ p ∉ pages w'
      | inl e' => r = Throw e' ∧ p ∈ pages w'
      end.
Proof.
  intros Hdata Hb p opened sized failed Hnew Hsize Hgoto r w' H.
  set (w2 := log (page_goto p MINI_QR_URL 30000)
               (log (page_setViewport p 1280 900)
                  (add_page p (log (browser_newPage b) w)))).
  assert ((r, w') = match env unit (trace w2) (page_close p) with
                    | inr _ => (Throw e, remove_page p (log (page_close p) w2))
                    | inl e' => (Throw e', log (page_close p) w2)
                    end) as Hrun.
  { destruct H as [H|H]; rewrite <- H.
    - unfold Gen2.generateQRCode, destructure. cbv beta iota.
      run_to_goto Hdata Hb Hnew Hsize Hgoto.
    - unfold Gen1.generateQRCode, destructure. cbv beta iota.
      run_to_goto Hdata Hb Hnew Hsize Hgoto. }
  clear H. change (trace w2) with failed in Hrun.
  destruct (env unit failed (page_close p)) as [e'|[]];
    inversion Hrun; subst r w'; clear Hrun.
  - repeat split; try done. cbn. apply list_elem_of_here.
  - repeat split; try done. unfold remove_page. cbn [pages].
    rewrite list_elem_of_filter. by intros [? _].
Qed.

Lemma navigation_failure_is_surfaced_witness :
  let env := rejecting is_goto "net::ERR_NAME_NOT_RESOLVED" happy in
  let w := snd (getBrowser happy world0) in
  let run := Gen1.generateQRCode env url (just_data "hi") w in
  fst run = Throw "net::ERR_NAME_NOT_RESOLVED"
  ∧ interactions (snd run) = interactions w
  ∧ browser (snd run) = Some 0%nat
  ∧ 1%nat ∉ pages (snd run).
Proof.
  cbn zeta.
  destruct (navigation_failure_is_surfaced
              (rejecting is_goto "net::ERR_NAME_NOT_RESOLVED" happy) url
              (just_data "hi") (snd (getBrowser happy world0)) 0%nat
              "net::ERR_NAME_NOT_RESOLVED"
              eq_refl eq_refl eq_refl eq_refl eq_refl _ _
              (or_intror (surjective_pairing _)))
    as (_ & Hi & _ & Hb & Hr & Hp).
  split; [exact Hr|]. split; [exact Hi|]. split; [exact Hb | exact Hp].
Defined.

(** ** What the builds never do *)

(** X3. The direct-capture build never uses the file system: whatever a
    run of its [generateQRCode] does and however it ends, the download
    directory is left as it was, and no call is made to [fs], to the
    download set-up of the browser or to an export control. *)
Theorem direct_capture_uses_no_files (env : Env) (MINI_QR_URL : string)
    (options : Options) (w : World) (r : Outcome Bytes) (w' : World) :
  Gen1.generateQRCode env MINI_QR_URL options w = (r, w') →
  downloads w' = downloads w
  ∧ ∃ new, trace w' = (new ++ trace w)%list ∧ forallb not_file new = true.
Proof.
  unfold Gen1.generateQRCode, destructure. cbv beta iota. intros H.
  destruct (truthy (data options)); cbn [negb] in H;
    [|inversion H; split; [done|by exists []]].
  unfold Gen1.setDotType, Gen1.setCornerSquareType, Gen1.setCornerDotType,
    Gen1.setErrorCorrectionLevel in H.
  split.
  - revert H. apply preserved.
    apply preserves_bind; [by apply preserves_getBrowser|]. intros b.
    apply preserves_bind; [by apply preserves_newPage|]. intros page.
    apply preserves_try_finally; [frame | apply preserves_downloads_close].
  - match type of H with
    | ?m _ = _ => assert (only_emits not_file m) as Hem
    end; [|by apply Hem in H].
    apply only_emits_bind; [by apply emits_getBrowser|]. intros b.
    apply only_emits_bind; [by apply emits_newPage|]. intros page.
    emits.
Qed.

Lemma direct_capture_uses_no_files_witness :
  let run := Gen1.generateQRCode happy url (with_format "hi" (JStr "svg")) world0 in
  downloads (snd run) = downloads world0
  ∧ ∃ new, trace (snd run) = (new ++ trace world0)%list ∧ forallb not_file new = true.
Proof.
  cbn zeta.
  apply (direct_capture_uses_no_files happy url (with_format "hi" (JStr "svg")) world0
           _ _ (surjective_pairing _)).
Defined.

Lemma launches_not_triggerDownload (env : Env) page format :
  only_emits not_launch (Gen2.triggerDownload env page format).
Proof. unfold Gen2.triggerDownload, click, readdir. emits. Qed.

Lemma launches_not_readArtifact (env : Env) format files :
  only_emits not_launch (Gen2.readArtifact env format files).
Proof. unfold Gen2.readArtifact, readFile, unlink. emits. Qed.

#[global] Hint Resolve launches_not_triggerDownload launches_not_readArtifact : emits.

Lemma cached_session_emits (env : Env) (m : Browser → M Bytes) w b r w' :
  browser w = Some b →
  (∀ b, only_emits not_launch (m b)) →
  (getBrowser env ≫= m) w = (r, w') →
  ∃ new, trace w' = (new ++ trace w)%list ∧ forallb not_launch new = true.
Proof.
  intros Hb Hm H. rewrite (bind_Ok _ _ _ _ _ (getBrowser_cached env w b Hb)) in H.
  by apply Hm in H.
Qed.

(** X4. A request that finds a cached session uses it and nothing else: in
    both builds, whatever the outcome of [generateQRCode], the cached
    handle and the set of live sessions are unchanged and
    [puppeteer.launch] is not called. *)
Theorem cached_session_is_reused (env : Env) (MINI_QR_URL : string)
    (options : Options) (w : World) (b : Browser) (r : Outcome Bytes) (w' : World) :
  browser w = Some b →
  Gen2.generateQRCode env MINI_QR_URL options w = (r, w')
  ∨ Gen1.generateQRCode env MINI_QR_URL options w = (r, w') →
  browser w' = Some b
  ∧ sessions w' = sessions w
  ∧ ∃ new, trace w' = (new ++ trace w)%list ∧ forallb not_launch new = true.
Proof.
  intros Hb H.
  assert (browser w' = Some b ∧ sessions w' = sessions w) as [Hb' Hs'].
  { assert (exits_as env options w r w')
      as [(_ & _ & ->)|[_ [(e & _ & Hg)|[(e & b1 & w1 & _ & Hg & _ & ->)
            |(b1 & w1 & r1 & w2 & new & Hg & _ & Hcore & _ & Hc)]]]].
    { destruct H as [H|H];
        [by apply Gen2_generateQRCode_exits in H
        |by apply Gen1_generateQRCode_exits in H]. }
    - done.
    - by rewrite (getBrowser_cached env w b Hb) in Hg.
    - rewrite (getBrowser_cached env w b Hb) in Hg. by inversion Hg; subst.
    - rewrite (getBrowser_cached env w b Hb) in Hg. inversion Hg; subst.
      apply (exits_after_page env b1 _ r r1 w1 w2 w' Hcore) in Hc
        as (_ & Hbr & Hse & _).
      by rewrite Hbr, Hse. }
  split; [done|]. split; [done|].
  destruct H as [H|H]; revert H.
  - unfold Gen2.generateQRCode, destructure. cbv beta iota. intros H.
    destruct (truthy (data options)); cbn [negb] in H;
      [|inversion H; by exists []].
    unfold Gen2.setDotType, Gen2.setCornerSquareType, Gen2.setCornerDotType,
      Gen2.setErrorCorrectionLevel in H.
    eapply cached_session_emits; [exact Hb| |exact H].
    intros b0. cbv beta.
    apply only_emits_bind; [by apply emits_newPage|]. intros page.
    emits.
  - unfold Gen1.generateQRCode, destructure. cbv beta iota. intros H.
    destruct (truthy (data options)); cbn [negb] in H;
      [|inversion H; by exists []].
    unfold Gen1.setDotType, Gen1.setCornerSquareType, Gen1.setCornerDotType,
      Gen1.setErrorCorrectionLevel in H.
    eapply cached_session_emits; [exact Hb| |exact H].
    intros b0. cbv beta.
    apply only_emits_bind; [by apply emits_newPage|]. intros page.
    emits.
Qed.

Lemma cached_session_is_reused_witness :
  let w := snd (getBrowser happy world0) in
  let run := Gen2.generateQRCode happy url (just_data "hi") w in
  browser w = Some 0%nat
  ∧ browser (snd run) = Some 0%nat
  ∧ sessions (snd run) = sessions w.
Proof.
  cbn zeta. split; [reflexivity|].
  destruct (cached_session_is_reused happy url (just_data "hi")
              (snd (getBrowser happy world0)) 0%nat _ _ eq_refl
              (or_introl (surjective_pairing _))) as (Hb & Hs & _).
  split; [exact Hb | exact Hs].
Defined.

(** ** Which file is read, and what is left behind *)

Lemma name_le_total : Total name_le.
Proof. intros a b. apply String.leb_total. Qed.

Lemma name_le_transitive : Transitive name_le.
Proof.
  unfold name_le, String.leb. intros a.
  induction a as [|x a IH]; intros [|y b] [|z c]; cbn; try done.
  unfold Ascii.compare.
  destruct (N.compare_spec (N_of_ascii x) (N_of_ascii y)) as [Hxy|Hxy|Hxy];
    destruct (N.compare_spec (N_of_ascii y) (N_of_ascii z)) as [Hyz|Hyz|Hyz];
    destruct (N.compare_spec (N_of_ascii x) (N_of_ascii z)) as [Hxz|Hxz|Hxz];
    try done; try lia; eauto.
Qed.

(** In a sorted listing, the first name found is the least of those that
    qualify. *)
Lemma find_least (P : string → bool) (l : list string) (name : string) :
  StronglySorted name_le l → List.find P l = Some name →
  ∀ other, other ∈ l → P other = true → name_le name other.
Proof.
  induction 1 as [|a l Hsorted IH Hall]; [done|]. cbn.
  destruct (P a) eqn:Ha.
  - intros [= ->] other [->|Hin]%elem_of_cons _.
    + destruct (name_le_total name name); done.
    + rewrite Forall_forall in Hall. auto.
  - intros Hfind other [->|Hin]%elem_of_cons Hother; [congruence|auto].
Qed.

Lemma find_sorted_least (P : string → bool) (l : list string) (name : string) :
  List.find P (merge_sort name_le l) = Some name →
  P name = true
  ∧ name ∈ l
  ∧ ∀ other, other ∈ l → P other = true → name_le name other.
Proof.
  intros Hfind. apply find_some in Hfind as Hsome. destruct Hsome as [Hin HP].
  apply list_elem_of_In in Hin. rewrite merge_sort_Permutation in Hin.
  split; [done|]. split; [done|]. intros other Hother.
  apply (find_least P (merge_sort name_le l)).
  - apply (@StronglySorted_merge_sort _ name_le _ name_le_transitive name_le_total).
  - done.
  - by rewrite merge_sort_Permutation.
Qed.

Lemma find_ext {A : Type} (P Q : A → bool) (l : list A) :
  (∀ x, P x = Q x) → List.find P l = List.find Q l.
Proof. intros H. induction l as [|x l IH]; cbn; [done|]. by rewrite H, IH. Qed.

Lemma is_path_eqb (name : string) (f : File) :
  is_path (path_join Gen2.downloadPath name) f = String.eqb (fst f) name.
Proof.
  apply Bool.eq_iff_eq_true. by rewrite is_path_name, String.eqb_eq.
Qed.

(** What a run of the download-and-read build that returns bytes has read
    and left behind. *)
Lemma Gen2_generateQRCode_directory (env : Env) (MINI_QR_URL : string)
    options w bytes w' :
  Gen2.generateQRCode env MINI_QR_URL options w = (Ok bytes, w') →
  let ending := "." ++ Gen2.extension (format (destructure options)) in
  ∃ landed name,
    (∃ page,
       answered env w w'
         (page_click page ("#" ++ Gen2.buttonId (format (destructure options)))) landed)
    ∧ endsWith name ending = true
    ∧ (∀ f, f ∈ (downloads w ++ landed)%list →
            endsWith (fst f) ending = true → name_le name (fst f))
    ∧ List.find (λ f, String.eqb (fst f) name) (downloads w ++ landed)%list
      = Some (name, bytes)
    ∧ downloads w' = filter (λ f, fst f ≠ name) (downloads w ++ landed)%list.
Proof.
  intros H ending.
  apply Gen2_generateQRCode_Ok in H as (page & w1 & w2 & _ & H & Hd1 & Hd2 & Ht1 & Ht2).
  unfold Gen2.download in H.
  apply bind_Ok_inv in H as (files & w3 & Ht & H).
  apply triggerDownload_Ok in Ht as (-> & landed & E & Hland).
  assert (answered env w w'
            (page_click page ("#" ++ Gen2.buttonId (format (destructure options))))
            landed) as Hclick.
  { eapply answered_frame; [exact Ht1| |exact E]. eapply extends_trans; [|exact Ht2].
    eapply extends_run; [|exact H].
    unfold Gen2.readArtifact, readFile, unlink. emits. }
  rewrite Hd1 in Hland. rewrite Hd2. clear Hd1 Hd2.
  unfold Gen2.readArtifact in H. fold ending in H.
  destruct (List.find _ (merge_sort name_le (map fst (downloads w3))))
    as [name|] eqn:Hfind; [|discriminate].
  apply find_sorted_least in Hfind as (Hends & _ & Hleast).
  apply bind_Ok_inv in H as (buf & w4 & Hread & H).
  apply readFile_Ok in Hread as (Hd & f & Hf & ->).
  apply bind_Ok_inv in H as (u & w5 & Hun & H).
  apply unlink_Ok in Hun. inversion H; subst bytes w5. clear H.
  rewrite (find_ext _ _ _ (is_path_eqb name)) in Hf.
  exists landed, name. rewrite <- Hland.
  split; [by exists page|]. split; [done|]. split; [|split].
  - intros g Hin Hg. apply Hleast; [|done]. apply list_elem_of_fmap. eauto.
  - transitivity (Some f); [exact Hf|]. f_equal. apply find_some in Hf as [_ Hname].
    apply String.eqb_eq in Hname. by destruct f; simplify_eq/=.
  - rewrite Hun, Hd. apply list_filter_iff. intros g.
    rewrite is_path_eqb. destruct (String.eqb_spec (fst g) name); cbn; naive_solver.
Qed.

(** X5. When the download-and-read build returns bytes, they are the
    contents of the file whose name comes first, in the order in which the
    directory is listed (that of the bytes of the names), among the names
    ending in ".<extension of the format>"; the directory being what it
    held before the request together with what the click on the export
    control of the format downloaded.  So a matching file that an earlier
    request left behind is returned in place of the fresh download when its
    name sorts first, and is passed over when it sorts last. *)
Theorem first_matching_file_is_returned (env : Env) (MINI_QR_URL : string)
    (options : Options) (w : World) (bytes : Bytes) (w' : World) :
  Gen2.generateQRCode env MINI_QR_URL options w = (Ok bytes, w') →
  let ending := "." ++ Gen2.extension (format (destructure options)) in
  ∃ landed name,
    (∃ page,
       answered env w w'
         (page_click page ("#" ++ Gen2.buttonId (format (destructure options)))) landed)
    ∧ endsWith name ending = true
    ∧ List.find (λ f, String.eqb (fst f) name) (downloads w ++ landed)%list
      = Some (name, bytes)
    ∧ ∀ f, f ∈ (downloads w ++ landed)%list →
           endsWith (fst f) ending = true → name_le name (fst f).
Proof.
  intros H ending.
  apply Gen2_generateQRCode_directory in H
    as (landed & name & Hclick & Hends & Hleast & Hfind & _).
  exists landed, name. by repeat split.
Qed.

Lemma first_matching_file_is_returned_witness :
  fst (Gen2.generateQRCode happy url (just_data "hi") (with_leftover "earlier.png"))
  = Ok (list_byte_of_string "earlier bytes")
  ∧ fst (Gen2.generateQRCode happy url (just_data "hi") (with_leftover "zzz.png"))
    = Ok (list_byte_of_string "PNG bytes")
  ∧ ∃ landed name,
      (∃ page,
         answered happy (with_leftover "earlier.png")
           (snd (Gen2.generateQRCode happy url (just_data "hi")
                   (with_leftover "earlier.png")))
           (page_click page "#download-qr-image-button-png") landed)
      ∧ endsWith name ".png" = true
      ∧ List.find (λ f : File, String.eqb (fst f) name)
          (downloads (with_leftover "earlier.png") ++ landed)%list
        = Some (name, list_byte_of_string "earlier bytes")
      ∧ ∀ f, f ∈ (downloads (with_leftover "earlier.png") ++ landed)%list →
             endsWith (fst f) ".png" = true → name_le name (fst f).
Proof.
  split; [vm_compute; reflexivity|]. split; [vm_compute; reflexivity|].
  apply (first_matching_file_is_returned happy url (just_data "hi")
           (with_leftover "earlier.png") (list_byte_of_string "earlier bytes")
           (snd (Gen2.generateQRCode happy url (just_data "hi")
                   (with_leftover "earlier.png")))).
  vm_compute. reflexivity.
Defined.

(** X6. When the download-and-read build returns bytes, the directory it
    leaves holds every file that was there or that the click on the export
    control downloaded, except those bearing the name of the file whose
    bytes it returned: files under other names, leftovers included, are not
    cleaned up. *)
Theorem only_the_read_file_is_deleted (env : Env) (MINI_QR_URL : string)
    (options : Options) (w : World) (bytes : Bytes) (w' : World) :
  Gen2.generateQRCode env MINI_QR_URL options w = (Ok bytes, w') →
  ∃ landed name,
    (∃ page,
       answered env w w'
         (page_click page ("#" ++ Gen2.buttonId (format (destructure options)))) landed)
    ∧ List.find (λ f, String.eqb (fst f) name) (downloads w ++ landed)%list
      = Some (name, bytes)
    ∧ downloads w' = filter (λ f, fst f ≠ name) (downloads w ++ landed)%list
    ∧ ∀ f, f ∈ downloads w → fst f ≠ name → f ∈ downloads w'.
Proof.
  intros H.
  apply Gen2_generateQRCode_directory in H
    as (landed & name & Hclick & _ & _ & Hfind & Hleft).
  exists landed, name. split; [done|]. split; [done|]. split; [done|].
  intros f Hin Hne. rewrite Hleft. apply list_elem_of_filter.
  split; [done|]. apply elem_of_app. by left.
Qed.

Lemma only_the_read_file_is_deleted_witness :
  let w := with_leftover "zzz.png" in
  let run := Gen2.generateQRCode happy url (just_data "hi") w in
  fst run = Ok (list_byte_of_string "PNG bytes")
  ∧ downloads (snd run) = downloads w
  ∧ ∃ landed name,
      (∃ page,
         answered happy w (snd run)
           (page_click page "#download-qr-image-button-png") landed)
      ∧ List.find (λ f : File, String.eqb (fst f) name) (downloads w ++ landed)%list
        = Some (name, list_byte_of_string "PNG bytes")
      ∧ downloads (snd run)
        = filter (λ f, fst f ≠ name) (downloads w ++ landed)%list
      ∧ ∀ f, f ∈ downloads w → fst f ≠ name → f ∈ downloads (snd run).
Proof.
  cbn zeta. split; [vm_compute; reflexivity|]. split; [vm_compute; reflexivity|].
  apply (only_the_read_file_is_deleted happy url (just_data "hi")
           (with_leftover "zzz.png") (list_byte_of_string "PNG bytes")
           (snd (Gen2.generateQRCode happy url (just_data "hi")
                   (with_leftover "zzz.png")))).
  vm_compute. reflexivity.
Defined.

(** ** Defaults *)

Lemma withDefault_idem (d v : JsVal) : withDefault d (withDefault d v) = withDefault d v.
Proof. destruct v; try done. by destruct d. Qed.

Lemma destructure_idem (options : Options) :
  destructure (destructure options) = destructure options.
Proof. unfold destructure. cbn. by rewrite !withDefault_idem. Qed.

(** X7. Spelling a default out is the same as leaving the field out: in
    both builds [generateQRCode] behaves on the options with the defaults
    of its destructuring pattern filled in exactly as on the options
    themselves, and filling the defaults in twice changes nothing more. *)
Theorem explicit_defaults_change_nothing (env : Env) (MINI_QR_URL : string)
    (options : Options) :
  destructure (destructure options) = destructure options
  ∧ Gen2.generateQRCode env MINI_QR_URL (destructure options)
    = Gen2.generateQRCode env MINI_QR_URL options
  ∧ Gen1.generateQRCode env MINI_QR_URL (destructure options)
    = Gen1.generateQRCode env MINI_QR_URL options.
Proof.
  split; [apply destructure_idem|].
  split.
  - unfold Gen2.generateQRCode. rewrite destructure_idem. reflexivity.
  - unfold Gen1.generateQRCode. rewrite destructure_idem. reflexivity.
Qed.

(** ** The two routes compared *)

(** X8. GET /generate answers as POST /generate does on the options parsed
    from the query string: the same status, the same body, the same
    Content-Type and the same effects on the world.  The only difference is
    the Content-Disposition header, which GET never sets and POST sets on
    every success. *)
Theorem get_is_post_on_parsed_query (generateQRCode : Options → M Bytes)
    (req_query : gmap string string) (w : World) :
  let get := handle generateQRCode (GET_generate req_query) w in
  let post := handle generateQRCode (POST_generate (query_options req_query)) w in
  snd get = snd post
  ∧ ∃ res_get res_post,
      fst get = Ok res_get ∧ fst post = Ok res_post
      ∧ status res_get = status res_post
      ∧ body res_get = body res_post
      ∧ header "Content-Type" res_get = header "Content-Type" res_post
      ∧ header "Content-Disposition" res_get = None
      ∧ (status res_post = 200 ↔ is_Some (header "Content-Disposition" res_post)).
Proof.
  cbn zeta. rewrite !handle_unfold. cbn [options_of].
  destruct (generateQRCode (query_options req_query) w) as [[bytes|e] w1];
    cbn zeta; [destruct (valid_header_value _)|].
  - split; [done|]. eexists _, _. split; [done|]. split; [done|].
    cbn. repeat split; eauto.
  - split; [done|]. eexists _, _. split; [done|]. split; [done|].
    cbn. repeat split; by try intros [? [=]].
  - split; [done|]. eexists _, _. split; [done|]. split; [done|].
    cbn. repeat split; by try intros [? [=]].
Qed.

(** ** Numerals in the query string *)

Lemma digit_of_char (d : N) :
  (d < 10)%N → digit_value 10 (pretty_N_char d) = Some (Z.of_N d).
Proof.
  intros Hd. rewrite <- (N2Nat.id d). assert (N.to_nat d < 10)%nat as Hn by lia.
  generalize dependent (N.to_nat d). clear. intros n Hn.
  do 10 (destruct n as [|n]; [reflexivity|]). lia.
Qed.

Lemma div_mod_10 (x : N) :
  ∃ q d, (x `div` 10 = q ∧ x `mod` 10 = d ∧ x = 10 * q + d ∧ d < 10)%N.
Proof.
  exists (x `div` 10)%N, (x `mod` 10)%N. repeat split.
  - apply N.div_mod. discriminate.
  - apply N.mod_lt. discriminate.
Qed.

Lemma parse_pretty_go (x : N) :
  (0 < x)%N → ∀ s,
  parse_digits 10 (pretty_N_go x s) None = parse_digits 10 s (Some (Z.of_N x)).
Proof.
  induction (N.lt_wf_0 x) as [x _ IH]. intros Hx s.
  rewrite pretty_N_go_step by done.
  destruct (div_mod_10 x) as (q & d & -> & -> & Hx10 & Hd).
  destruct (N.eq_0_gt_0_cases q) as [->|Hpos].
  - rewrite pretty_N_go_0. cbn [parse_digits]. rewrite digit_of_char by done.
    cbn [from_option id]. do 2 f_equal. lia.
  - rewrite IH by (done || lia).
    cbn [parse_digits]. rewrite digit_of_char by done.
    cbn [from_option id]. do 2 f_equal. lia.
Qed.

Lemma pretty_go_head (x : N) :
  (0 < x)%N → ∀ s, ∃ c r, pretty_N_go x s = String c r ∧ nonzero_digit c = true.
Proof.
  induction (N.lt_wf_0 x) as [x _ IH]. intros Hx s.
  rewrite pretty_N_go_step by done.
  destruct (div_mod_10 x) as (q & d & -> & -> & Hx10 & Hd).
  destruct (N.eq_0_gt_0_cases q) as [->|Hpos].
  - rewrite pretty_N_go_0. eexists _, _. split; [done|].
    assert (0 < d)%N as Hd0 by lia. clear Hx10 IH Hx.
    rewrite <- (N2Nat.id d). assert (0 < N.to_nat d < 10)%nat as Hn by lia.
    generalize dependent (N.to_nat d). clear. intros n Hn.
    destruct n as [|n]; [lia|].
    do 9 (destruct n as [|n]; [reflexivity|]). lia.
  - apply IH; [lia|done].
Qed.

Lemma append_assoc (a b c : string) : (a ++ b) ++ c = a ++ b ++ c.
Proof.
  induction a as [|x a IH]; [done|].
  change (String x ((a ++ b) ++ c) = String x (a ++ b ++ c)). by rewrite IH.
Qed.

Lemma pretty_go_app (x : N) (s : string) :
  pretty_N_go x s = pretty_N_go x EmptyString ++ s.
Proof.
  revert s. induction (N.lt_wf_0 x) as [x _ IH]. intros s.
  assert (x = 0 ∨ 0 < x)%N as [->|Hx] by lia; [by rewrite !pretty_N_go_0|].
  rewrite !(pretty_N_go_step x) by done.
  destruct (div_mod_10 x) as (q & d & -> & -> & Hx10 & Hd).
  rewrite (IH q) by lia.
  rewrite (IH q ltac:(lia) (String _ EmptyString)).
  by rewrite append_assoc.
Qed.

Lemma parseInt_nonzero_digit (c : ascii) (r : string) :
  nonzero_digit c = true →
  parseInt (String c r)
  = match parse_digits 10 (String c r) None with
    | Some n => number (1 * n)
    | None => JNaN
    end.
Proof.
  intros H. destruct c as [b0 b1 b2 b3 b4 b5 b6 b7].
  destruct b0, b1, b2, b3, b4, b5, b6, b7; try discriminate H;
    destruct r as [|c2 [|c3 r]]; reflexivity.
Qed.

Lemma parseInt_minus_nonzero_digit (c : ascii) (r : string) :
  nonzero_digit c = true →
  parseInt (String "-" (String c r))
  = match parse_digits 10 (String c r) None with
    | Some n => number (-1 * n)
    | None => JNaN
    end.
Proof.
  intros H. destruct c as [b0 b1 b2 b3 b4 b5 b6 b7].
  destruct b0, b1, b2, b3, b4, b5, b6, b7; try discriminate H;
    destruct r as [|c3 r]; reflexivity.
Qed.

Lemma parse_digits_end (rest : string) (n : Z) :
  ends_numeral rest = true → parse_digits 10 rest (Some n) = Some n.
Proof.
  destruct rest as [|c t]; [done|]. cbn. by destruct (digit_value 10 c).
Qed.

Lemma parseInt_zero (rest : string) :
  ends_numeral rest = true → parseInt (String "0" rest) = JNum 0.
Proof.
  destruct rest as [|c t]; [done|]. intros H.
  destruct c as [b0 b1 b2 b3 b4 b5 b6 b7].
  destruct b0, b1, b2, b3, b4, b5, b6, b7; try discriminate H;
    destruct t as [|c3 t]; reflexivity.
Qed.

(** A decimal numeral is read as the Number value of the integer it
    denotes. *)
Lemma parseInt_pretty (z : Z) (rest : string) :
  ends_numeral rest = true → parseInt (pretty z ++ rest) = number z.
Proof.
  intros Hrest. destruct z as [|p|p].
  - by apply parseInt_zero.
  - change (pretty (Z.pos p)) with (pretty_N_go (N.pos p) EmptyString).
    rewrite <- pretty_go_app.
    destruct (pretty_go_head (N.pos p) ltac:(lia) rest) as (c & r & Hhead & Hc).
    rewrite Hhead, parseInt_nonzero_digit, <- Hhead by done.
    rewrite parse_pretty_go, parse_digits_end by (done || lia).
    f_equal; lia.
  - change (pretty (Z.neg p)) with ("-" ++ pretty_N_go (N.pos p) EmptyString).
    change (("-" ++ pretty_N_go (N.pos p) EmptyString) ++ rest)
      with (String "-" (pretty_N_go (N.pos p) EmptyString ++ rest)).
    rewrite <- pretty_go_app.
    destruct (pretty_go_head (N.pos p) ltac:(lia) rest) as (c & r & Hhead & Hc).
    rewrite Hhead, parseInt_minus_nonzero_digit, <- Hhead by done.
    rewrite parse_pretty_go, parse_digits_end by (done || lia).
    f_equal; lia.
Qed.

(** Below 2^53 in magnitude an integer is its own Number value and is
    printed with all its digits. *)
Lemma number_safe (n : Z) : Z.abs n < 2 ^ 53 → number n = JNum n.
Proof.
  intros Hn. apply Z.ltb_lt in Hn. unfold number, nearest_double. rewrite Hn.
  by destruct n.
Qed.

Lemma Number_toString_safe (n : Z) : Z.abs n < 2 ^ 53 → Number_toString n = pretty n.
Proof. intros Hn. apply Z.ltb_lt in Hn. unfold Number_toString. by rewrite Hn. Qed.

Lemma pretty_nonempty (n : Z) (rest : string) : pretty n ++ rest ≠ EmptyString.
Proof.
  destruct n as [|p|p]; [done| |done].
  change (pretty (Z.pos p)) with (pretty_N_go (N.pos p) EmptyString).
  rewrite <- pretty_go_app.
  destruct (pretty_go_head (N.pos p) ltac:(lia) rest) as (c & r & Hhead & _).
  congruence.
Qed.

(** X9. A numeric query parameter given as the decimal numeral of an
    integer is read as the Number value of that integer, and text after the
    numeral that does not start with a digit is ignored.  For an integer
    below 2^53 in magnitude, the numeral is how JavaScript prints it and
    the value read back is that very integer: width=400 and width=400px
    both give 400, margin=-5 gives -5.  At 2^53 and beyond the value read
    is the nearest double, which need not be the integer written. *)
Theorem numerals_are_read_back (q : gmap string string) (name : string)
    (n : Z) (rest : string) :
  ends_numeral rest = true →
  (q !! name = Some (pretty n ++ rest) → query_int q name = number n)
  ∧ (Z.abs n < 2 ^ 53 →
     number n = JNum n
     ∧ String_ (JNum n) = pretty n
     ∧ parseInt (String_ (JNum n) ++ rest) = JNum n).
Proof.
  intros Hrest. split.
  - intros Hq. rewrite query_int_unfold, Hq.
    pose proof (pretty_nonempty n rest) as Hne.
    destruct (pretty n ++ rest) as [|c s] eqn:Hs; [done|].
    by rewrite <- Hs, parseInt_pretty.
  - intros Hn. split; [by apply number_safe|].
    cbn [String_]. rewrite Number_toString_safe by done. split; [done|].
    by rewrite parseInt_pretty, number_safe.
Qed.

Lemma numerals_are_read_back_witness :
  query_int {["data" := "x"; "width" := "400px"]} "width" = JNum 400
  ∧ query_int {["margin" := "-5"]} "margin" = JNum (-5)
  ∧ query_int {["width" := "9007199254740993"]} "width" = JNum 9007199254740992.
Proof.
  split; [|split].
  - apply (proj1 (numerals_are_read_back {["data" := "x"; "width" := "400px"]}
                    "width" 400 "px" eq_refl)). reflexivity.
  - apply (proj1 (numerals_are_read_back {["margin" := "-5"]} "margin" (-5)
                    EmptyString eq_refl)). reflexivity.
  - apply (proj1 (numerals_are_read_back {["width" := "9007199254740993"]} "width"
                    9007199254740993 EmptyString eq_refl)). reflexivity.
Defined.

(** ** Label lookup: the first match wins *)

Section Touches.
Context (env : Env).

Lemma touches_weaken {A : Type} (n k : nat) (m : M A) :
  (n ≤ k)%nat → touches n m → touches k m.
Proof.
  intros Hle Hm w r w' H. apply Hm in H as (new & E & L). exists new. split; [done|lia].
Qed.

Lemma touches_ret {A : Type} (a : A) : touches 0 (mret a).
Proof. intros w r w' H. inversion H. by exists []. Qed.

Lemma touches_throw {A : Type} e : touches 0 (@throw A e).
Proof. intros w r w' H. inversion H. by exists []. Qed.

Lemma touches_read {A : Type} (c : Call A) :
  is_interaction (Ev c) = false → touches 0 (call env c).
Proof.
  intros Hc w r w' H. apply call_inv in H as [-> _]. exists [Ev c]. split; [done|].
  rewrite filter_cons_False; [done|]. rewrite Hc. exact id.
Qed.

Lemma touches_act {A : Type} (c : Call A) : touches 1 (call env c).
Proof.
  intros w r w' H. apply call_inv in H as [-> _]. exists [Ev c]. split; [done|].
  rewrite filter_cons. case_decide; cbn; lia.
Qed.

Lemma touches_bind {A B : Type} (n k : nat) (m : M A) (f : A → M B) :
  touches n m → (∀ a, touches k (f a)) → touches (n + k) (m ≫= f).
Proof.
  intros Hm Hf w r w' H.
  apply bind_inv in H as [(a & w1 & H1 & H2)|(e & H1 & _)].
  - apply Hm in H1 as (n1 & E1 & L1). apply Hf in H2 as (n2 & E2 & L2).
    exists (n2 ++ n1)%list. split; [by rewrite E2, E1, app_assoc|].
    rewrite filter_app, length_app. lia.
  - apply Hm in H1 as (n1 & E1 & L1). exists n1. split; [done|lia].
Qed.

Lemma touches_selectRadioOption page optionValue :
  touches 1 (Gen1.selectRadioOption env page optionValue).
Proof.
  unfold Gen1.selectRadioOption.
  apply (touches_bind 0 1); [by apply touches_read|].
  intros labels. induction labels as [|label rest IH]; cbn.
  - apply (touches_weaken 0); [lia | apply touches_ret].
  - apply (touches_bind 0 1); [by apply touches_read|]. intros text.
    destruct (Gen1.text_is text optionValue); [apply touches_act | apply IH].
Qed.

Lemma touches_query_in parent sel : touches 0 (Gen1.query_in env parent sel).
Proof.
  destruct parent; cbn; [by apply touches_read | apply touches_throw].
Qed.

Lemma touches_setColorInput page labelText color :
  touches 1 (Gen1.setColorInput env page labelText color).
Proof.
  unfold Gen1.setColorInput.
  apply (touches_bind 0 1); [by apply touches_read|].
  intros labels. induction labels as [|label rest IH]; cbn.
  - apply (touches_weaken 0); [lia | apply touches_ret].
  - apply (touches_bind 0 1); [by apply touches_read|]. intros text.
    destruct (includes text labelText); [|apply IH].
    apply (touches_bind 0 1); [by apply touches_read|]. intros parent.
    apply (touches_bind 0 1); [apply touches_query_in|]. intros [input|].
    + apply touches_act.
    + apply (touches_weaken 0); [lia | apply touches_ret].
Qed.

Lemma touches_setTextInputByLabel page labelText value :
  touches 2 (Gen1.setTextInputByLabel env page labelText value).
Proof.
  unfold Gen1.setTextInputByLabel.
  apply (touches_bind 0 2); [by apply touches_read|].
  intros labels. induction labels as [|label rest IH]; cbn.
  - apply (touches_weaken 0); [lia | apply touches_ret].
  - apply (touches_bind 0 2); [by apply touches_read|]. intros text.
    destruct (includes text labelText); [|apply IH].
    apply (touches_bind 0 2); [by apply touches_read|]. intros parent.
    apply (touches_bind 0 2); [apply touches_query_in|]. intros [input|].
    + apply (touches_bind 1 1); [apply touches_act|]. intros _. apply touches_act.
    + apply (touches_weaken 0); [lia | apply touches_ret].
Qed.

End Touches.

(** X10. In the label-addressed build a lookup by label acts on one
    control at most, however many labels of the page match: selecting a
    radio option makes at most one click, setting a color writes at most
    one value, and setting a text input makes at most one triple click and
    one typing.  The labels after the first match are not acted upon. *)
Theorem label_lookup_acts_once (env : Env) (page : Page)
    (labelText : string) (value : JsVal) :
  touches 1 (Gen1.selectRadioOption env page value)
  ∧ touches 1 (Gen1.setColorInput env page labelText value)
  ∧ touches 2 (Gen1.setTextInputByLabel env page labelText value).
Proof.
  split; [apply touches_selectRadioOption|].
  split; [apply touches_setColorInput | apply touches_setTextInputByLabel].
Qed.

Lemma label_lookup_acts_once_witness :
  let run := Gen1.setColorInput happy 1%nat "color" (JStr "#ff0000") world0 in
  fst run = Ok tt
  ∧ ∃ new, trace (snd run) = (new ++ trace world0)%list
           ∧ (length (filter is_interaction new) ≤ 1)%nat.
Proof.
  cbn zeta. split; [vm_compute; reflexivity|].
  apply (proj1 (proj2 (label_lookup_acts_once happy 1%nat "color" (JStr "#ff0000")))
           world0 _ _ (surjective_pairing _)).
Defined.

(** ** Optional controls *)

(** Show that a run of the id-addressed build never looks a selector up. *)
Ltac never_queried H :=
  unfold Gen2.setDotType, Gen2.setCornerSquareType, Gen2.setCornerDotType,
    Gen2.setErrorCorrectionLevel, Gen2.download, Gen2.triggerDownload,
    Gen2.readArtifact, click, readdir, readFile, unlink in H;
  cbn [when] in H;
  match goal with
  | |- ∃ new, _ ∧ forallb (not_query ?sel) new = true =>
    match type of H with
    | ?m _ = _ =>
      let Hem := fresh "Hem" in
      assert (only_emits (not_query sel) m) as Hem;
      [ apply only_emits_bind; [by apply emits_getBrowser|]; intros ?;
        apply only_emits_bind; [by apply emits_newPage|]; intros ?;
        emits
      | exact (Hem _ _ _ H) ]
    end
  end.

(** X11. In the id-addressed build the logo URL control and the two
    corner color controls are left alone when their option is absent or
    empty: in no run of [generateQRCode], however it ends, is the control
    even looked up. *)
Theorem optional_controls_left_alone (env : Env) (MINI_QR_URL : string)
    (sel : string) (field : Options → JsVal)
    (options : Options) (w : World) (r : Outcome Bytes) (w' : World) :
  (sel, field) ∈ optional_controls →
  truthy (field options) = false →
  Gen2.generateQRCode env MINI_QR_URL options w = (r, w') →
  ∃ new, trace w' = (new ++ trace w)%list ∧ forallb (not_query sel) new = true.
Proof.
  intros Hin Hf. unfold Gen2.generateQRCode, destructure. cbv beta iota. intros H.
  destruct (truthy (data options)); cbn [negb] in H;
    [|inversion H; by exists []].
  unfold optional_controls in Hin. set_unfold.
  destruct Hin as [[= -> ->]|[[= -> ->]|[[= -> ->]|[]]]];
    rewrite Hf in H; never_queried H.
Qed.

Lemma optional_controls_left_alone_witness :
  let run := Gen2.generateQRCode happy url (just_data "hi") world0 in
  ∃ new, trace (snd run) = (new ++ trace world0)%list
         ∧ forallb (not_query "#image-url") new = true.
Proof.
  cbn zeta.
  apply (optional_controls_left_alone happy url "#image-url" logoUrl
           (just_data "hi") world0
           (fst (Gen2.generateQRCode happy url (just_data "hi") world0))
           (snd (Gen2.generateQRCode happy url (just_data "hi") world0)));
    [ unfold optional_controls; apply list_elem_of_here
    | reflexivity
    | apply surjective_pairing ].
Defined.

(** ** Absent controls *)

Lemma emits_query_none (allowed : Event → bool) (env : Env) {B : Type}
    page sel (k : option Handle → M B) :
  no_element_found env →
  allowed (Ev (page_query page sel)) = true →
  only_emits allowed (k None) →
  only_emits allowed (call env (page_query page sel) ≫= k).
Proof.
  intros Hnone Hq Hk w r w' H.
  apply bind_inv in H as [(a & w1 & H1 & H2)|(e & H1 & _)];
    apply call_inv in H1 as [-> E]; rewrite Hnone in E; [|done].
  injection E as <-. apply Hk in H2 as (new & E2 & F2).
  exists (new ++ [Ev (page_query page sel)])%list. split.
  - by rewrite E2, <- app_assoc.
  - rewrite forallb_app, F2. cbn. by rewrite Hq.
Qed.



(** ** Shutdown *)

Lemma on_SIGINT_unfold (outcome : option string) (w : World) :
  on_SIGINT outcome w =
  match browser w, outcome with
  | None, _ => (Ok tt, w)
  | Some b, None => (Ok tt, end_session b w)
  | Some b, Some e => (Throw e, w)
  end.
Proof.
  unfold on_SIGINT, gets, mbind, M_bind. cbv beta.
  destruct (browser w); [destruct outcome|]; reflexivity.
Qed.

(** X13. Shutting down after any sequence of requests, in either build: if
    no session was ever cached, the SIGINT handler closes nothing and
    exits; if one is cached and [browser.close()] resolves, the handler
    exits with no session and no page left; if [browser.close()] rejects,
    the error escapes the handler before [process.exit()] and the session
    is still there. *)
Theorem shutdown_releases_the_session (env : Env) (MINI_QR_URL : string)
    (generateQRCode : Options → M Bytes) (reqs : list Request)
    (w : World) (out : Outcome (list Response)) (w1 : World)
    (outcome : option string) :
  generateQRCode = Gen2.generateQRCode env MINI_QR_URL
  ∨ generateQRCode = Gen1.generateQRCode env MINI_QR_URL →
  one_session w → pages w = [] →
  serve generateQRCode reqs w = (out, w1) →
  match browser w1, outcome with
  | None, _ => on_SIGINT outcome w1 = (Ok tt, w1) ∧ sessions w1 = [] ∧ pages w1 = []
  | Some b, None =>
    on_SIGINT None w1 = (Ok tt, end_session b w1)
    ∧ sessions (end_session b w1) = [] ∧ pages (end_session b w1) = []
  | Some b, Some e => on_SIGINT (Some e) w1 = (Throw e, w1) ∧ sessions w1 = [b]
  end.
Proof.
  intros Hbuild Hone Hnil H. apply builds_keep_house in Hbuild as Hgen.
  assert (fresh_ids w) as Hfresh by (unfold fresh_ids; rewrite Hnil; constructor).
  apply (serve_world env generateQRCode Hgen) in H
    as (ress & new & _ & _ & Ho & _ & _ & _ & Hp & _); try done.
  unfold one_session in Ho.
  destruct (browser w1) as [b|] eqn:Hb; [destruct outcome as [e|]|];
    rewrite on_SIGINT_unfold, Hb.
  - done.
  - split; [done|]. split; [|done]. cbn. rewrite Ho.
    rewrite filter_cons_False by (intros Hne; by apply Hne). done.
  - split; [done|]. split; [done|]. by rewrite Hp.
Qed.

Lemma shutdown_releases_the_session_witness :
  let w1 := snd (serve (Gen2.generateQRCode happy url)
                   [POST_generate (just_data "hi")] world0) in
  browser w1 = Some 0%nat
  ∧ on_SIGINT None w1 = (Ok tt, end_session 0%nat w1)
  ∧ sessions (end_session 0%nat w1) = [] ∧ pages (end_session 0%nat w1) = [].
Proof.
  cbn zeta. split; [vm_compute; reflexivity|].
  pose proof (shutdown_releases_the_session happy url _
                [POST_generate (just_data "hi")] world0 _ _ None
                (or_introl eq_refl) eq_refl eq_refl (surjective_pairing _)) as H.
  assert (browser (snd (serve (Gen2.generateQRCode happy url)
                          [POST_generate (just_data "hi")] world0)) = Some 0%nat) as Hb
    by (vm_compute; reflexivity).
  rewrite Hb in H. exact H.
Defined.

(** ** Expanding the panels *)

Lemma touches_emit {A : Type} (c : Call A) :
  is_interaction (Ev c) = false → touches 0 (emit c).
Proof.
  intros Hc w r w' H. inversion H. exists [Ev c]. split; [done|].
  rewrite filter_cons_False; [done|]. rewrite Hc. exact id.
Qed.

Lemma touches_when (n : nat) (c : bool) (m : M unit) :
  touches n m → touches n (when c m).
Proof.
  destruct c; [done|]. intros _.
  apply (touches_weaken 0); [lia | apply touches_ret].
Qed.

(** X14. Expanding the accordion of the label-addressed build clicks each
    button at most once, so at most as many clicks as there are buttons,
    and nothing else is touched; when no button reports the state
    "closed", nothing is clicked at all. *)
Theorem accordion_clicks_only_closed_panels (env : Env) (page : Page)
    (accordionButtons : list Handle) :
  touches (length accordionButtons) (Gen1.expandAccordion_for env page accordionButtons)
  ∧ (no_panel_closed env →
     touches 0 (Gen1.expandAccordion_for env page accordionButtons)).
Proof.
  split.
  - induction accordionButtons as [|btn rest IH]; cbn [Gen1.expandAccordion_for length].
    + apply touches_ret.
    + apply (touches_bind 0 (S (length rest))); [by apply touches_read|].
      intros state. apply (touches_bind 1 (length rest)); [|done].
      apply touches_when. apply (touches_bind 1 0); [apply touches_act|].
      intros _. by apply touches_emit.
  - intros Hopen.
    induction accordionButtons as [|btn rest IH]; cbn [Gen1.expandAccordion_for].
    + apply touches_ret.
    + intros w r w' H.
      apply bind_inv in H as [(state & w1 & H1 & H2)|(e & H1 & _)].
      * apply call_inv in H1 as [-> E].
        assert (bool_decide (state = Some "closed") = false) as Hstate.
        { apply bool_decide_eq_false. intros ->. by apply Hopen in E. }
        rewrite Hstate in H2. cbn [when] in H2.
        apply bind_inv in H2 as [([] & w2 & H2 & H3)|(e & H2 & _)];
          [|by inversion H2].
        inversion H2; subst w2. apply IH in H3 as (new & E3 & L3).
        exists (new ++ [Ev (eval_getAttribute page btn "data-state")])%list.
        split; [by rewrite E3, <- app_assoc|].
        rewrite filter_app, length_app.
        rewrite filter_cons_False by exact id. rewrite filter_nil. cbn. lia.
      * apply call_inv in H1 as [-> _].
        exists [Ev (eval_getAttribute page btn "data-state")]. split; [done|].
        rewrite filter_cons_False by exact id. by rewrite filter_nil.
Qed.

Lemma accordion_clicks_only_closed_panels_witness :
  no_panel_closed open_panels
  ∧ touches 0 (Gen1.expandAccordion_for open_panels 1%nat [8%nat; 9%nat]).
Proof.
  assert (no_panel_closed open_panels) as Hopen by (intros tr p h; discriminate).
  split; [exact Hopen|].
  exact (proj2 (accordion_clicks_only_closed_panels open_panels 1%nat [8%nat; 9%nat])
           Hopen).
Defined.

(** ** Raster formats *)

(** X15. In the direct-capture build, whenever [generateQRCode] returns
    bytes for format png (given or by default) or jpeg, they are what the
    screenshot of the export container gave, taken in that very format:
    the run ends with the lookup of "#element-to-export", the screenshot of
    the element this lookup returned, and [page.close()].  For every format
    the capture step fails with "QR code element not found" when the export
    container is absent, before anything is captured. *)
Theorem raster_is_a_screenshot (env : Env) (MINI_QR_URL : string) (fmt : string) :
  fmt ∈ ["png"; "jpeg"] →
  (∀ options w bytes w',
     withDefault (JStr "png") (format options) = JStr fmt →
     Gen1.generateQRCode env MINI_QR_URL options w = (Ok bytes, w') →
     ∃ page container history,
       (∃ new, history = (new ++ trace w)%list)
       ∧ trace w' = Ev (page_close page)
                    :: Ev (handle_screenshot container fmt)
                    :: Ev (page_query page "#element-to-export") :: history
       ∧ env _ history (page_query page "#element-to-export") = inr (Some container)
       ∧ env _ (Ev (page_query page "#element-to-export") :: history)
           (handle_screenshot container fmt) = inr bytes)
  ∧ (∀ page format w,
       env _ (trace w) (page_query page "#element-to-export") = inr None →
       Gen1.capture env page format w
       = (Throw "QR code element not found",
          log (page_query page "#element-to-export") w)).
Proof.
  intros Hfmt. split.
  - intros options w bytes w' Hf H.
    assert (strict_eq (JStr fmt) "svg" = false
            ∧ (if strict_eq (JStr fmt) "png" then "png" else "jpeg") = fmt)
      as [Hsvg Htype].
    { set_unfold. by destruct Hfmt as [->|[->|[]]]. }
    change (withDefault (JStr "png") (format options))
      with (format (destructure options)) in Hf.
    apply Gen1_generateQRCode_raster in H; [|by rewrite Hf].
    cbn zeta in H. by rewrite Hf, Htype in H.
  - intros page format w E.
    destruct (Gen1.capture env page format w) as [r w'] eqn:H.
    apply capture_inv in H. cbn zeta in H. rewrite E in H. by destruct H as [-> ->].
Qed.

Lemma raster_is_a_screenshot_witness :
  ∃ page container history,
    (∃ new, history = (new ++ trace world0)%list)
    ∧ trace (snd (Gen1.generateQRCode happy url (just_data "hi") world0))
      = Ev (page_close page)
        :: Ev (handle_screenshot container "png")
        :: Ev (page_query page "#element-to-export") :: history
    ∧ happy _ history (page_query page "#element-to-export") = inr (Some container)
    ∧ happy _ (Ev (page_query page "#element-to-export") :: history)
        (handle_screenshot container "png")
      = inr (list_byte_of_string "png screenshot").
Proof.
  assert ("png" ∈ ["png"; "jpeg"]) as Hin by apply list_elem_of_here.
  apply (proj1 (raster_is_a_screenshot happy url "png" Hin)
           (just_data "hi") world0 _
           (snd (Gen1.generateQRCode happy url (just_data "hi") world0)));
    [reflexivity | vm_compute; reflexivity].
Defined.

(** ** The export control *)

(** X16. For the three formats the service documents, the export control
    the download-and-read build clicks and the file extension it then
    scans for belong together: png clicks the png control and scans for
    .png, svg likewise, and jpeg clicks the jpg control and scans for .jpg.
    At most that one export control is clicked. *)
Theorem export_control_matches_extension (env : Env) (page : Page) (fmt : string)
    (w : World) (r : Outcome (list string)) (w' : World) :
  fmt ∈ ["png"; "jpeg"; "svg"] →
  Gen2.triggerDownload env page (JStr fmt) w = (r, w') →
  clicks w' = clicks w
  ∨ clicks w' = ("#download-qr-image-button-" ++ Gen2.extension (JStr fmt)) :: clicks w.
Proof.
  intros Hfmt H. apply triggerDownload_clicks in H.
  set_unfold. by destruct Hfmt as [->|[->|[->|[]]]].
Qed.

Lemma export_control_matches_extension_witness :
  clicks (snd (Gen2.triggerDownload happy 1%nat (JStr "jpeg") world0))
  = ["#download-qr-image-button-jpg"].
Proof.
  assert ("jpeg" ∈ ["png"; "jpeg"; "svg"]) as Hin
    by apply list_elem_of_further, list_elem_of_here.
  destruct (export_control_matches_extension happy 1%nat "jpeg" world0 _ _ Hin
              (surjective_pairing _)) as [H|H].
  - vm_compute in H. discriminate H.
  - exact H.
Defined.
